(** * Voice Chat AI: the Gemini live client and its error classifier

    A shallow embedding of [src/lib/gemini.ts] (class [GeminiLiveClient]),
    of [parseError], [connect] and [sendMessage] of
    [src/components/VoiceChat.tsx], of [getApiConfig] of [src/server/api.ts]
    and of [arrayBufferToBase64] of the audio-streaming revision of
    [gemini.ts], followed by the properties of the specification that these
    functions decide.  The rest of the component ([disconnect], [retry],
    [toggleRecording], the controls of the render), the microphone methods of
    the audio-streaming revision and the request/response revision of the
    client are embedded too, with properties read off their code.

    Conventions of the embedding.
    - A JavaScript string is the list of its UTF-16 code units, each an [N].
    - An [ArrayBuffer] is the list of its bytes, each an [N] below 256; a
      store into a [Uint8Array] wraps modulo 256.
    - A method of the client is a computation in the monad [M]: it reads and
      writes the fields of the client, appends to a trace of the calls it
      makes to the outside (callbacks, session, audio device) and either
      returns or throws.
    - A method that awaits does not run in one piece.  What runs on the
      client while [connect] waits for [live.connect] is an argument of
      [connect]; a drain loop of [playQueuedAudio] and a call of [sendText]
      of the request/response revision run up to their [await] and are taken
      up again by a step of their own, other steps coming in between.
    - Console output is not part of the trace. *)

From Stdlib Require Import List Bool Arith NArith ZArith Lia String Ascii.
Import ListNotations.

Local Open Scope N_scope.

(* ================================================================== *)
(** * JavaScript strings *)

Module Js.

Definition codeunit := N.
Definition jsstring := list codeunit.

(** A literal of the source text, as code units. *)
Definition lit (s : string) : jsstring :=
  map N_of_ascii (list_ascii_of_string s).

(** [s.startsWith(p)]. *)
Fixpoint startsWith (s p : jsstring) {struct p} : bool :=
  match p, s with
  | [], _ => true
  | _ :: _, [] => false
  | x :: p', y :: s' => (x =? y) && startsWith s' p'
  end.

(** [s.includes(p)]: [p] occurs in [s] at some position, with exact case. *)
Fixpoint includes (s p : jsstring) : bool :=
  match s with
  | [] => startsWith [] p
  | _ :: s' => startsWith s p || includes s' p
  end.

(** Truthiness of a string: the empty string is falsy. *)
Definition truthy (s : jsstring) : bool :=
  match s with [] => false | _ :: _ => true end.

(** [a || b] on strings. *)
Definition or_else (a b : jsstring) : jsstring :=
  if truthy a then a else b.

(** White space and line terminators of ECMAScript, the code units that
    [String.prototype.trim] strips. *)
Definition isWhiteSpace (c : codeunit) : bool :=
  ((9 <=? c) && (c <=? 13)) || (c =? 32) || (c =? 160) || (c =? 5760)
  || ((8192 <=? c) && (c <=? 8202)) || (c =? 8232) || (c =? 8233)
  || (c =? 8239) || (c =? 8287) || (c =? 12288) || (c =? 65279).

Fixpoint trimStart (s : jsstring) : jsstring :=
  match s with
  | c :: s' => if isWhiteSpace c then trimStart s' else s
  | [] => []
  end.

Definition trimEnd (s : jsstring) : jsstring := rev (trimStart (rev s)).

(** [s.trim()]. *)
Definition trim (s : jsstring) : jsstring := trimEnd (trimStart s).

(** [s.toLowerCase()] on the letters A to Z; other code units are kept.
    Only the wording of the specification uses it, the source never folds
    case. *)
Definition toLowerCase (s : jsstring) : jsstring :=
  map (fun c => if (65 <=? c) && (c <=? 90) then c + 32 else c) s.

(** What a [throw] carries: an [Error] (or a subclass) with its message,
    or any other value, given by its [String(value)]. *)
Inductive Thrown :=
| ErrorObject (message : jsstring)
| OtherValue (asString : jsstring).

(** [err instanceof Error ? err : new Error(String(err))], as the message
    of the resulting [Error]. *)
Definition asErrorMessage (t : Thrown) : jsstring :=
  match t with
  | ErrorObject m => m
  | OtherValue s => s
  end.

End Js.
Import Js.

(* ================================================================== *)
(** * The error classifier of VoiceChat.tsx *)

Module Classifier.

Record ConnectionError := mkConnectionError {
  message : jsstring;
  details : option jsstring;
  recoverable : bool
}.

(** The argument of [parseError]: [Error | string]. *)
Inductive RawError :=
| OfError (message : jsstring)
| OfString (s : jsstring).

(** [typeof error === 'string' ? error : error.message] *)
Definition rawMessage (error : RawError) : jsstring :=
  match error with
  | OfString s => s
  | OfError m => m
  end.

Definition apiKeyError : ConnectionError :=
  {| message := lit "API Key Not Configured";
     details := Some (lit "The Gemini API key is not set up. Please contact the administrator.");
     recoverable := false |}.

Definition connectionFailed : ConnectionError :=
  {| message := lit "Connection Failed";
     details := Some (lit "Unable to connect to the AI service. Check your internet connection and try again.");
     recoverable := true |}.

Definition authenticationError : ConnectionError :=
  {| message := lit "Authentication Error";
     details := Some (lit "The API key may be invalid or expired. Please contact the administrator.");
     recoverable := false |}.

Definition rateLimited : ConnectionError :=
  {| message := lit "Rate Limited";
     details := Some (lit "Too many requests. Please wait a moment and try again.");
     recoverable := true |}.

Definition serviceUnavailable : ConnectionError :=
  {| message := lit "Service Unavailable";
     details := Some (lit "The AI model is currently unavailable. Please try again later.");
     recoverable := true |}.

Definition defaultError (msg : jsstring) : ConnectionError :=
  {| message := lit "Connection Error";
     details := Some (or_else msg (lit "An unexpected error occurred. Please try again."));
     recoverable := true |}.

(** [parseError], statement by statement. *)
Definition parseError (error : RawError) : ConnectionError :=
  let message := rawMessage error in
  if includes message (lit "API_KEY") || includes message (lit "apiKey")
     || includes message (lit "environment variable")
  then apiKeyError
  else if includes message (lit "WebSocket") || includes message (lit "connection")
          || includes message (lit "network")
  then connectionFailed
  else if includes message (lit "401") || includes message (lit "403")
          || includes message (lit "unauthorized") || includes message (lit "forbidden")
  then authenticationError
  else if includes message (lit "429") || includes message (lit "rate")
          || includes message (lit "quota")
  then rateLimited
  else if includes message (lit "model") || includes message (lit "not found")
          || includes message (lit "unavailable")
  then serviceUnavailable
  else defaultError message.

(** ** The classifier as the specification words it

    A table of rules, each a set of needles and a result, tried in order; the
    first rule with a needle that occurs in the message wins.  The way a
    needle is looked up is a parameter: [includes] for an exact-case match,
    [includes_ci] for the case-insensitive match of the specification. *)

Definition rule := (list jsstring * ConnectionError)%type.

Definition rules : list rule :=
  [ ([lit "API_KEY"; lit "apiKey"; lit "environment variable"], apiKeyError);
    ([lit "WebSocket"; lit "connection"; lit "network"], connectionFailed);
    ([lit "401"; lit "403"; lit "unauthorized"; lit "forbidden"], authenticationError);
    ([lit "429"; lit "rate"; lit "quota"], rateLimited);
    ([lit "model"; lit "not found"; lit "unavailable"], serviceUnavailable) ].

Fixpoint firstMatch (occurs : jsstring -> jsstring -> bool) (rs : list rule)
         (msg : jsstring) : ConnectionError :=
  match rs with
  | [] => defaultError msg
  | (needles, result) :: rs' =>
      if existsb (occurs msg) needles then result else firstMatch occurs rs' msg
  end.

Definition includes_ci (s p : jsstring) : bool :=
  includes (toLowerCase s) (toLowerCase p).

(** The classifier of section 4.4 of the specification. *)
Definition classify_spec (error : RawError) : ConnectionError :=
  firstMatch includes_ci rules (rawMessage error).

End Classifier.
Import Classifier.

(* ================================================================== *)
(** * The host's [btoa] and [atob]

    The two functions are built into the browser; they are written here after
    their definition in the HTML standard ([btoa]: the base64 encoding of
    RFC 4648 with padding; [atob]: the forgiving-base64 decoding of the Infra
    standard). *)

Module Base64.

Definition ArrayBuffer := list N.

(** The result of a call that may throw. *)
Inductive Result (A : Type) :=
| Ok (a : A)
| Throw (t : Thrown).
Arguments Ok {A} a.
Arguments Throw {A} t.

(** The [DOMException] named InvalidCharacterError.  Its message is chosen by
    the host; the name stands for it. *)
Definition InvalidCharacterError : Thrown :=
  ErrorObject (lit "InvalidCharacterError").

(** The base64 alphabet: the character of a six-bit value. *)
Definition charOfSextet (i : N) : codeunit :=
  if i <? 26 then 65 + i          (* A-Z *)
  else if i <? 52 then 71 + i     (* a-z *)
  else if i <? 62 then i - 4      (* 0-9 *)
  else if i =? 62 then 43         (* + *)
  else 47.                        (* / *)

(** The six-bit value of a character of the alphabet. *)
Definition sextetOfChar (c : codeunit) : option N :=
  if (65 <=? c) && (c <=? 90) then Some (c - 65)
  else if (97 <=? c) && (c <=? 122) then Some (c - 71)
  else if (48 <=? c) && (c <=? 57) then Some (c + 4)
  else if c =? 43 then Some 62
  else if c =? 47 then Some 63
  else None.

Definition padChar : codeunit := 61. (* = *)

(** RFC 4648, section 4: three bytes give four characters; a final group of
    one or two bytes is padded with [=]. *)
Fixpoint encodeBytes (bs : list N) : jsstring :=
  match bs with
  | a :: b :: c :: rest =>
      charOfSextet (a / 4)
      :: charOfSextet ((a mod 4) * 16 + b / 16)
      :: charOfSextet ((b mod 16) * 4 + c / 64)
      :: charOfSextet (c mod 64)
      :: encodeBytes rest
  | [a; b] =>
      [ charOfSextet (a / 4);
        charOfSextet ((a mod 4) * 16 + b / 16);
        charOfSextet ((b mod 16) * 4);
        padChar ]
  | [a] =>
      [ charOfSextet (a / 4);
        charOfSextet ((a mod 4) * 16);
        padChar; padChar ]
  | [] => []
  end.

(** [btoa(data)]: throws when a code unit is above U+00FF. *)
Definition btoa (data : jsstring) : Result jsstring :=
  if forallb (fun c => c <=? 255) data
  then Ok (encodeBytes data)
  else Throw InvalidCharacterError.

(** ASCII whitespace of the Infra standard: TAB, LF, FF, CR and SPACE. *)
Definition isAsciiWhitespace (c : codeunit) : bool :=
  (c =? 9) || (c =? 10) || (c =? 12) || (c =? 13) || (c =? 32).

(** Forgiving-base64 decode, step 2: when the data ends with one or two
    [=], remove them. *)
Definition removePadding (data : jsstring) : jsstring :=
  match rev data with
  | p :: q :: r =>
      if p =? padChar
      then if q =? padChar then rev r else rev (q :: r)
      else data
  | [p] => if p =? padChar then [] else data
  | [] => data
  end.

(** Step 4: every code point must belong to the alphabet. *)
Fixpoint sextetsOf (data : jsstring) : option (list N) :=
  match data with
  | [] => Some []
  | c :: data' =>
      match sextetOfChar c, sextetsOf data' with
      | Some s, Some ss => Some (s :: ss)
      | _, _ => None
      end
  end.

(** Steps 5 to 8: 24 bits of four characters give three bytes; 18 bits left
    over give two bytes, 12 bits give one, the low bits being discarded. *)
Fixpoint decodeSextets (ss : list N) : list N :=
  match ss with
  | s0 :: s1 :: s2 :: s3 :: rest =>
      (s0 * 4 + s1 / 16)
      :: ((s1 mod 16) * 16 + s2 / 4)
      :: ((s2 mod 4) * 64 + s3)
      :: decodeSextets rest
  | [s0; s1; s2] => [ s0 * 4 + s1 / 16; (s1 mod 16) * 16 + s2 / 4 ]
  | [s0; s1] => [ s0 * 4 + s1 / 16 ]
  | _ => []
  end.

(** [atob(data)]. *)
Definition atob (data : jsstring) : Result jsstring :=
  let data := filter (fun c => negb (isAsciiWhitespace c)) data in
  let data :=
    if N.of_nat (List.length data) mod 4 =? 0 then removePadding data else data in
  if N.of_nat (List.length data) mod 4 =? 1 then Throw InvalidCharacterError
  else match sextetsOf data with
       | None => Throw InvalidCharacterError
       | Some ss => Ok (decodeSextets ss)
       end.

(** ** The two conversions of gemini.ts *)

(** [arrayBufferToBase64]: one character per byte, then [btoa]. *)
Definition arrayBufferToBase64 (buffer : ArrayBuffer) : Result jsstring :=
  let binary := fold_left (fun binary b => binary ++ [b]) buffer [] in
  btoa binary.

(** [base64ToArrayBuffer]: [atob], then one byte per code unit, stored into
    a [Uint8Array]. *)
Definition base64ToArrayBuffer (base64 : jsstring) : Result ArrayBuffer :=
  match atob base64 with
  | Throw t => Throw t
  | Ok binaryString => Ok (map (fun c => c mod 256) binaryString)
  end.

Definition isBytes (buffer : ArrayBuffer) : Prop :=
  Forall (fun b => b < 256) buffer.

End Base64.
Import Base64.

(* ================================================================== *)
(** * The live client of gemini.ts *)

Module Gemini.

Inductive Role := user | assistant.

(** [id] and [timestamp] come from [crypto.randomUUID()] and [new Date()]:
    a message carries the rank of the draw that produced them. *)
Record ChatMessage := mkChatMessage {
  id : nat;
  role : Role;
  content : jsstring;
  timestamp : nat
}.

Inductive ClientStatus := connecting | connected | disconnected.

(** A session of the SDK, by its handle. *)
Definition Session := nat.

Record AudioContext := mkAudioContext { sampleRate : N }.

(** The calls the client makes to the outside, in the order it makes them. *)
Inductive Event :=
| OnMessage (m : ChatMessage)          (* this.onMessage(m) *)
| OnError (message : jsstring)         (* this.onError(new Error(message)) *)
| OnStatusChange (s : ClientStatus)    (* this.onStatusChange(s) *)
| LiveConnect (apiKey : jsstring)      (* this.client.live.connect(...) *)
| SessionClose                         (* this.session.close() *)
| AudioContextClose                    (* this.audioContext.close() *)
| SendClientContent (text : jsstring)  (* this.session.sendClientContent(...) *)
| SourceStart (loop : nat) (audioData : ArrayBuffer)
                                       (* source.start(), by a drain loop *)
| PlayError (loop : nat) (audioData : ArrayBuffer).
                                       (* the catch of a drain loop *)

(** The fields of the class, then the part of the host the class leans on:
    which calls of [playQueuedAudio] are suspended at their [await], how many
    were begun, and how many identifiers were drawn.  A callback field holds
    [true] when the caller has installed a handler. *)
Record GeminiLiveClient := mkClient {
  client : option jsstring;
  session : option Session;
  audioContext : option AudioContext;
  audioQueue : list ArrayBuffer;
  isPlaying : bool;
  onMessage : bool;
  onError : bool;
  onStatusChange : bool;
  drains : list nat;
  begun : nat;
  drawn : nat
}.

(** [new GeminiLiveClient()] *)
Definition newClient : GeminiLiveClient :=
  {| client := None; session := None; audioContext := None; audioQueue := [];
     isPlaying := false; onMessage := false; onError := false;
     onStatusChange := false; drains := []; begun := 0%nat; drawn := 0%nat |}.

Definition set_client v (c : GeminiLiveClient) :=
  mkClient v (session c) (audioContext c) (audioQueue c) (isPlaying c)
           (onMessage c) (onError c) (onStatusChange c) (drains c) (begun c) (drawn c).
Definition set_session v (c : GeminiLiveClient) :=
  mkClient (client c) v (audioContext c) (audioQueue c) (isPlaying c)
           (onMessage c) (onError c) (onStatusChange c) (drains c) (begun c) (drawn c).
Definition set_audioContext v (c : GeminiLiveClient) :=
  mkClient (client c) (session c) v (audioQueue c) (isPlaying c)
           (onMessage c) (onError c) (onStatusChange c) (drains c) (begun c) (drawn c).
Definition set_audioQueue v (c : GeminiLiveClient) :=
  mkClient (client c) (session c) (audioContext c) v (isPlaying c)
           (onMessage c) (onError c) (onStatusChange c) (drains c) (begun c) (drawn c).
Definition set_isPlaying v (c : GeminiLiveClient) :=
  mkClient (client c) (session c) (audioContext c) (audioQueue c) v
           (onMessage c) (onError c) (onStatusChange c) (drains c) (begun c) (drawn c).
Definition set_handlers m e s (c : GeminiLiveClient) :=
  mkClient (client c) (session c) (audioContext c) (audioQueue c) (isPlaying c)
           m e s (drains c) (begun c) (drawn c).
Definition set_drains v (c : GeminiLiveClient) :=
  mkClient (client c) (session c) (audioContext c) (audioQueue c) (isPlaying c)
           (onMessage c) (onError c) (onStatusChange c) v (begun c) (drawn c).
Definition set_begun v (c : GeminiLiveClient) :=
  mkClient (client c) (session c) (audioContext c) (audioQueue c) (isPlaying c)
           (onMessage c) (onError c) (onStatusChange c) (drains c) v (drawn c).
Definition set_drawn v (c : GeminiLiveClient) :=
  mkClient (client c) (session c) (audioContext c) (audioQueue c) (isPlaying c)
           (onMessage c) (onError c) (onStatusChange c) (drains c) (begun c) v.

(** ** The monad of the methods *)

Definition M (A : Type) : Type :=
  GeminiLiveClient -> Result A * GeminiLiveClient * list Event.

Definition ret {A} (a : A) : M A := fun c => (Ok a, c, []).

Definition bind {A B} (m : M A) (k : A -> M B) : M B :=
  fun c =>
    match m c with
    | (Ok a, c1, ev1) =>
        match k a c1 with
        | (r, c2, ev2) => (r, c2, ev1 ++ ev2)
        end
    | (Throw t, c1, ev1) => (Throw t, c1, ev1)
    end.

Definition throw {A} (t : Thrown) : M A := fun c => (Throw t, c, []).

(** [try { m } catch (e) { h e }] *)
Definition tryCatch {A} (m : M A) (h : Thrown -> M A) : M A :=
  fun c =>
    match m c with
    | (Ok a, c1, ev1) => (Ok a, c1, ev1)
    | (Throw t, c1, ev1) =>
        match h t c1 with
        | (r, c2, ev2) => (r, c2, ev1 ++ ev2)
        end
    end.

Definition this : M GeminiLiveClient := fun c => (Ok c, c, []).
Definition modify (f : GeminiLiveClient -> GeminiLiveClient) : M unit :=
  fun c => (Ok tt, f c, []).
Definition emit (e : Event) : M unit := fun c => (Ok tt, c, [e]).

Notation "x <- m ;; k" := (bind m (fun x => k))
  (at level 61, m at next level, right associativity).
Notation "m ;; k" := (bind m (fun _ => k))
  (at level 61, right associativity).

Fixpoint forEach {A} (f : A -> M unit) (l : list A) : M unit :=
  match l with
  | [] => ret tt
  | x :: l' => f x ;; forEach f l'
  end.

(** ** Optional calls of the callbacks

    [this.onMessage?.({ id: crypto.randomUUID(), ..., timestamp: new Date() })]:
    nothing is evaluated when no handler is installed. *)
Definition callOnMessage (r : Role) (text : jsstring) : M unit :=
  c <- this ;;
  if onMessage c
  then modify (set_drawn (S (drawn c))) ;;
       emit (OnMessage {| id := drawn c; role := r; content := text;
                          timestamp := drawn c |})
  else ret tt.

Definition callOnError (message : jsstring) : M unit :=
  c <- this ;;
  if onError c then emit (OnError message) else ret tt.

Definition callOnStatusChange (s : ClientStatus) : M unit :=
  c <- this ;;
  if onStatusChange c then emit (OnStatusChange s) else ret tt.

(** ** The audio playback queue *)

Definition queueAudio (audioData : ArrayBuffer) : M unit :=
  c <- this ;;
  modify (set_audioQueue (audioQueue c ++ [audioData])).

(** Whether the body of the [try] reaches [source.start()] for a chunk:
    [this.audioContext] must not be null, [new Int16Array(audioData)] raises
    a RangeError on an odd byte length, and [createBuffer] refuses a buffer of
    no frame. *)
Definition canPlay (ctx : option AudioContext) (audioData : ArrayBuffer) : bool :=
  match ctx with
  | None => false
  | Some _ =>
      (N.of_nat (List.length audioData) mod 2 =? 0)
      && (0 <? N.of_nat (List.length audioData) / 2)
  end.

(** The [while] loop of [playQueuedAudio], run by the call numbered [l], from
    its test up to the next [await] or to its exit.  [q] is [this.audioQueue]
    as the test reads it. *)
Fixpoint drainLoop (l : nat) (q : list ArrayBuffer) : M unit :=
  match q with
  | [] => modify (set_isPlaying false)
  | audioData :: q' =>
      modify (set_audioQueue q') ;;                    (* shift() *)
      c <- this ;;
      if canPlay (audioContext c) audioData
      then emit (SourceStart l audioData) ;;
           modify (set_drains (l :: drains c))         (* await onended *)
      else emit (PlayError l audioData) ;;
           drainLoop l q'
  end.

Definition playQueuedAudio : M unit :=
  c <- this ;;
  if isPlaying c
     || (N.of_nat (List.length (audioQueue c)) =? 0)
     || (match audioContext c with None => true | Some _ => false end)
  then ret tt
  else
    modify (set_isPlaying true) ;;
    modify (set_begun (S (begun c))) ;;
    drainLoop (begun c) (audioQueue c).

(** [source.onended] of the chunk that the call numbered [l] is playing: the
    promise it awaits resolves and its loop goes on. *)
Definition onended (l : nat) : M unit :=
  c <- this ;;
  if existsb (Nat.eqb l) (drains c)
  then modify (set_drains (filter (fun k => negb (Nat.eqb l k)) (drains c))) ;;
       c' <- this ;;
       drainLoop l (audioQueue c')
  else ret tt.

(** ** Inbound frames *)

Record Blob := mkBlob {
  data : option jsstring;
  mimeType : option jsstring
}.

(** A part of a model turn.  A part of another kind has neither field. *)
Record Part := mkPart {
  text : option jsstring;
  inlineData : option Blob
}.

Record Content := mkContent { parts : option (list Part) }.

Record LiveServerContent := mkServerContent {
  interrupted : option bool;
  turnComplete : option bool;
  modelTurn : option Content
}.

(** [setupComplete] is an object of the SDK: present, it is truthy. *)
Record LiveServerMessage := mkServerMessage {
  setupComplete : option unit;
  serverContent : option LiveServerContent
}.

(** Truthiness of an optional string and of an optional boolean. *)
Definition truthyString (s : option jsstring) : bool :=
  match s with Some s => truthy s | None => false end.

Definition truthyBool (b : option bool) : bool :=
  match b with Some b => b | None => false end.

Definition base64ToArrayBuffer (base64 : jsstring) : M ArrayBuffer :=
  match Base64.base64ToArrayBuffer base64 with
  | Ok bytes => ret bytes
  | Throw t => throw t
  end.

(** The body of the [for] loop of [handleMessage]. *)
Definition handlePart (part : Part) : M unit :=
  (match text part with
   | Some t => if truthy t then callOnMessage assistant t else ret tt
   | None => ret tt
   end) ;;
  match inlineData part with
  | Some blob =>
      match data blob, mimeType blob with
      | Some d, Some mt =>
          if truthy d && startsWith mt (lit "audio/")
          then audioData <- base64ToArrayBuffer d ;;
               queueAudio audioData
          else ret tt
      | _, _ => ret tt
      end
  | None => ret tt
  end.

Definition handleMessage (message : LiveServerMessage) : M unit :=
  match setupComplete message with
  | Some _ => ret tt
  | None =>
      match serverContent message with
      | None => ret tt
      | Some serverContent =>
          if truthyBool (interrupted serverContent) then ret tt
          else if truthyBool (turnComplete serverContent) then playQueuedAudio
          else match modelTurn serverContent with
               | Some turn =>
                   match parts turn with
                   | Some ps => forEach handlePart ps
                   | None => ret tt
                   end
               | None => ret tt
               end
      end
  end.

(** ** The callbacks handed to [live.connect] *)

Record CloseEvent := mkCloseEvent {
  code : N;
  reason : jsstring;
  wasClean : bool
}.

Definition onopen : M unit := callOnStatusChange connected.

Definition onmessage (message : LiveServerMessage) : M unit :=
  handleMessage message.

(** [error.message || 'WebSocket connection error'] *)
Definition onerror (errorMessage : jsstring) : M unit :=
  callOnError (or_else errorMessage (lit "WebSocket connection error")).

Definition closeMessage (event : CloseEvent) : jsstring :=
  if code event =? 1000 then lit "Connection closed normally"
  else if code event =? 1006
  then lit "Connection closed abnormally - possible network issue or invalid API key"
  else if code event =? 1008
  then lit "Policy violation - check your API key permissions"
  else if code event =? 1011
  then lit "Server error - the Gemini service encountered an issue"
  else if truthy (reason event)
  then lit "Connection closed: " ++ reason event
  else lit "Connection closed".

Definition onclose (event : CloseEvent) : M unit :=
  let errorMessage := closeMessage event in
  (if negb (code event =? 1000) then callOnError errorMessage else ret tt) ;;
  callOnStatusChange disconnected.

(** ** disconnect, connect, sendText

    What the SDK answers to a call is an argument: [liveConnect] is how the
    promise of [live.connect] settles, [sent] the outcome of
    [sendClientContent], [sessionClosed] and [contextClosed] of the two
    [close()].  [disconnect] comes first here because it may be called while
    [connect] waits. *)

Definition closeCall (e : Event) (outcome : Result unit) : M unit :=
  emit e ;;
  match outcome with
  | Ok _ => ret tt
  | Throw t => throw t
  end.

Definition disconnect (sessionClosed contextClosed : Result unit) : M unit :=
  c <- this ;;
  (match session c with
   | Some _ =>
       tryCatch (closeCall SessionClose sessionClosed) (fun _ => ret tt) ;;
       modify (set_session None)
   | None => ret tt
   end) ;;
  c <- this ;;
  (match audioContext c with
   | Some _ =>
       tryCatch (closeCall AudioContextClose contextClosed) (fun _ => ret tt) ;;
       modify (set_audioContext None)
   | None => ret tt
   end) ;;
  modify (set_audioQueue []) ;;
  modify (set_isPlaying false) ;;
  callOnStatusChange disconnected.

(** The callbacks handed to [live.connect], as the SDK calls them. *)
Inductive LiveCallback :=
| Onopen
| Onmessage (message : LiveServerMessage)
| Onerror (errorMessage : jsstring)
| Onclose (event : CloseEvent).

Definition liveCallback (cb : LiveCallback) : M unit :=
  match cb with
  | Onopen => onopen
  | Onmessage message => onmessage message
  | Onerror errorMessage => onerror errorMessage
  | Onclose event => onclose event
  end.

(** [connect] is suspended at [await this.client.live.connect(...)] with the
    callbacks already in the hands of the SDK and the client in the hands of
    its owner.  Until the promise settles, the SDK may call the callbacks (it
    calls [onopen] before it resolves the promise) and the owner may call
    [disconnect]. *)
Inductive Meanwhile :=
| SdkCalls (cb : LiveCallback)
| OwnerDisconnects (sessionClosed contextClosed : Result unit).

(** A call made from outside [connect]: what it throws goes to its caller,
    not to [connect]; what it did to the client stays done. *)
Definition apart {A} (m : M A) : M unit :=
  fun c => match m c with (_, c1, evs) => (Ok tt, c1, evs) end.

Definition meanwhile (during : list Meanwhile) : M unit :=
  forEach (fun x =>
             match x with
             | SdkCalls cb => apart (liveCallback cb)
             | OwnerDisconnects sessionClosed contextClosed =>
                 apart (disconnect sessionClosed contextClosed)
             end) during.

(** [connect].  [during] is what runs on the client while the call waits
    for [live.connect], in order. *)
Definition connect (during : list Meanwhile) (liveConnect : Result Session)
           (apiKey : jsstring) : M unit :=
  tryCatch
    (callOnStatusChange connecting ;;
     modify (set_client (Some apiKey)) ;;
     modify (set_audioContext (Some {| sampleRate := 24000 |})) ;;
     emit (LiveConnect apiKey) ;;
     meanwhile during ;;                               (* await *)
     match liveConnect with
     | Ok s => modify (set_session (Some s))
     | Throw t => throw t
     end)
    (fun error =>
       callOnError (asErrorMessage error) ;;
       callOnStatusChange disconnected ;;
       throw error).

Definition sendClientContent (sent : Result unit) (t : jsstring) : M unit :=
  emit (SendClientContent t) ;;
  match sent with
  | Ok _ => ret tt
  | Throw e => throw e
  end.

Definition sendText (sent : Result unit) (t : jsstring) : M unit :=
  c <- this ;;
  match session c with
  | None => throw (ErrorObject (lit "Not connected to Gemini"))
  | Some _ =>
      callOnMessage user t ;;
      tryCatch (sendClientContent sent t) (fun error => throw error)
  end.

End Gemini.
Import Gemini.

(* ================================================================== *)
(** * The server function of api.ts *)

Module Server.

(** [getApiConfig]: [env] is [process.env.GEMINI_API_KEY]; an unset or empty
    variable is falsy. *)
Definition getApiConfig (env : option jsstring) : Result jsstring :=
  match env with
  | Some apiKey =>
      if truthy apiKey then Ok apiKey
      else Throw (ErrorObject (lit "GEMINI_API_KEY environment variable is not set"))
  | None => Throw (ErrorObject (lit "GEMINI_API_KEY environment variable is not set"))
  end.

End Server.
Import Server.

(* ================================================================== *)
(** * The component of VoiceChat.tsx *)

Module VoiceChat.

Inductive ConnectionStatus :=
| StatusDisconnected
| StatusConnecting
| StatusConnected
| StatusError.

Definition isConnected (s : ConnectionStatus) : bool :=
  match s with StatusConnected => true | _ => false end.

(** The state of the component: the values of its [useState] and [useRef]
    hooks.  [clientRef] holds the client itself; [captured] is the value of
    [status] that the handlers installed by [connect] closed over. *)
Record State := mkState {
  messages : list ChatMessage;
  inputText : jsstring;
  status : ConnectionStatus;
  isRecording : bool;
  connectionError : option ConnectionError;
  retryCount : nat;
  clientRef : option GeminiLiveClient;
  captured : ConnectionStatus
}.

Definition initialState : State :=
  {| messages := []; inputText := []; status := StatusDisconnected;
     isRecording := false; connectionError := None; retryCount := 0%nat;
     clientRef := None; captured := StatusDisconnected |}.

Definition setMessages v (s : State) :=
  mkState v (inputText s) (status s) (isRecording s) (connectionError s)
          (retryCount s) (clientRef s) (captured s).
Definition setInputText v (s : State) :=
  mkState (messages s) v (status s) (isRecording s) (connectionError s)
          (retryCount s) (clientRef s) (captured s).
Definition setStatus v (s : State) :=
  mkState (messages s) (inputText s) v (isRecording s) (connectionError s)
          (retryCount s) (clientRef s) (captured s).
Definition setConnectionError v (s : State) :=
  mkState (messages s) (inputText s) (status s) (isRecording s) v
          (retryCount s) (clientRef s) (captured s).
Definition setRetryCount v (s : State) :=
  mkState (messages s) (inputText s) (status s) (isRecording s) (connectionError s)
          v (clientRef s) (captured s).
Definition setClientRef v (s : State) :=
  mkState (messages s) (inputText s) (status s) (isRecording s) (connectionError s)
          (retryCount s) v (captured s).
Definition setCaptured v (s : State) :=
  mkState (messages s) (inputText s) (status s) (isRecording s) (connectionError s)
          (retryCount s) (clientRef s) v.

Definition connectionLost : ConnectionError :=
  {| message := lit "Connection Lost";
     details := Some (lit "The connection was unexpectedly closed. You can try reconnecting.");
     recoverable := true |}.

(** The three handlers that [connect] installs on the client, run on a call
    the client made. Calls to the SDK and to the audio device are not the
    component's to handle. *)
Definition handler (e : Event) (s : State) : State :=
  match e with
  | OnMessage m => setMessages (messages s ++ [m]) s
  | OnStatusChange connected =>
      setConnectionError None (setRetryCount 0%nat (setStatus StatusConnected s))
  | OnStatusChange disconnected =>
      setStatus StatusDisconnected
        (if isConnected (captured s)
         then setConnectionError (Some connectionLost) s
         else s)
  | OnStatusChange connecting => setStatus StatusConnecting s
  | OnError m =>
      setStatus StatusError (setConnectionError (Some (parseError (OfError m))) s)
  | _ => s
  end.

(** [err instanceof Error ? err : String(err)] *)
Definition rawError (t : Thrown) : RawError :=
  match t with
  | ErrorObject m => OfError m
  | OtherValue v => OfString v
  end.

(** [connect].  [env] is the server's GEMINI_API_KEY; [during] is the
    callbacks that the SDK calls while [live.connect] is awaited and
    [liveConnect] how that promise settles, should it be called.  The result
    is the state of the component and the calls made to the outside. *)
Definition connect (env : option jsstring) (during : list LiveCallback)
           (liveConnect : Result Session) (s : State) : State * list Event :=
  let status0 := status s in
  let s := setStatus StatusConnecting (setConnectionError None s) in
  match getApiConfig env with
  | Throw err =>
      (setStatus StatusError
         (setConnectionError (Some (parseError (rawError err))) s), [])
  | Ok apiKey =>
      let client := set_handlers true true true newClient in
      let s := setCaptured status0 (setClientRef (Some client) s) in
      match Gemini.connect (map SdkCalls during) liveConnect apiKey client with
      | (r, client', evs) =>
          let s := fold_left (fun s e => handler e s) evs
                             (setClientRef (Some client') s) in
          match r with
          | Ok _ => (s, evs)
          | Throw err =>
              (setStatus StatusError
                 (setConnectionError (Some (parseError (rawError err))) s), evs)
          end
      end
  end.

(** [sendMessage].  [sent] is the outcome of the SDK's [sendClientContent]
    should it be called. *)
Definition sendMessage (sent : Result unit) (s : State) : State * list Event :=
  match clientRef s with
  | None => (s, [])
  | Some client =>
      if negb (truthy (trim (inputText s))) || negb (isConnected (status s))
      then (s, [])
      else
        match sendText sent (trim (inputText s)) client with
        | (r, client', evs) =>
            let s := fold_left (fun s e => handler e s) evs
                               (setClientRef (Some client') s) in
            match r with
            | Ok _ => (setInputText [] s, evs)
            | Throw err =>
                (setConnectionError (Some (parseError (rawError err))) s, evs)
            end
        end
  end.

End VoiceChat.
Import VoiceChat.

(* ================================================================== *)
(** * The rest of the component of VoiceChat.tsx

    [disconnect], [retry], [toggleRecording], the controls that the render
    binds them to, and the callbacks of the client as the component receives
    them.  The component is its [State] and the one ref that [State] leaves
    out, [audioStreamRef]. *)

Module Component.

(** A [MediaStream] of the browser, by its handle. *)
Definition MediaStream := nat.

Record Component := mkComponent {
  ui : State;
  audioStreamRef : option MediaStream
}.

Definition initial : Component :=
  {| ui := initialState; audioStreamRef := None |}.

Definition setIsRecording v (s : State) :=
  mkState (messages s) (inputText s) (status s) v (connectionError s)
          (retryCount s) (clientRef s) (captured s).

(** The calls of the component to the outside: those its client makes, the
    two methods of the client that drive the microphone, and the stopping of
    the tracks of the stream it holds. *)
Inductive Call :=
| ClientCall (e : Event)
| StartAudioStream          (* clientRef.current.startAudioStream() *)
| StopAudioStream           (* clientRef.current.stopAudioStream() *)
| StopTracks (stream : MediaStream).
                            (* stream.getTracks().forEach(t => t.stop()) *)

Definition microphoneDenied : ConnectionError :=
  {| message := lit "Microphone Access Denied";
     details := Some (lit "Please allow microphone access to use voice chat.");
     recoverable := true |}.

(** The handlers of the component run on the calls of its client, in order. *)
Definition deliver (evs : list Event) (s : State) : State :=
  fold_left (fun s e => handler e s) evs s.

Definition withUi (c : Component) (r : State * list Event) : Component * list Call :=
  ({| ui := fst r; audioStreamRef := audioStreamRef c |}, map ClientCall (snd r)).

(** [disconnect] of the component.  The two arguments are the outcomes of
    the [close()] calls of the client. *)
Definition disconnect (sessionClosed contextClosed : Result unit)
           (c : Component) : Component * list Call :=
  match
    match clientRef (ui c) with
    | Some client =>
        match Gemini.disconnect sessionClosed contextClosed client with
        | (Ok _, _, evs) =>
            (Ok tt, setClientRef None (deliver evs (ui c)), map ClientCall evs)
        | (Throw t, client', evs) =>
            (Throw t, deliver evs (setClientRef (Some client') (ui c)),
             map ClientCall evs)
        end
    | None => (Ok tt, ui c, [])
    end
  with
  | (Ok _, s, calls) =>
      ({| ui := setConnectionError None (setIsRecording false s);
          audioStreamRef := None |},
       calls ++ match audioStreamRef c with
                | Some stream => [StopTracks stream]
                | None => []
                end)
  | (Throw _, s, calls) =>
      ({| ui := s; audioStreamRef := audioStreamRef c |}, calls)
  end.

(** [retry]: the count goes up, then [connect]. *)
Definition retry (env : option jsstring) (during : list LiveCallback)
           (liveConnect : Result Session) (s : State) : State * list Event :=
  VoiceChat.connect env during liveConnect (setRetryCount (S (retryCount s)) s).

(** [toggleRecording].  gemini.ts declares neither [startAudioStream] nor
    [stopAudioStream]; its audio-streaming revision does, and there they touch
    the recorder only.  What the two calls answer is an argument: [started]
    and [stopped].  With gemini.ts as it is, each is a TypeError. *)
Definition toggleRecording (started : Result MediaStream) (stopped : Result unit)
           (c : Component) : Component * list Call :=
  match clientRef (ui c) with
  | None => (c, [])
  | Some _ =>
      if negb (isConnected (status (ui c))) then (c, [])
      else if isRecording (ui c)
      then
        match stopped with
        | Throw _ => (c, [StopAudioStream])
        | Ok _ =>
            ({| ui := setIsRecording false (ui c); audioStreamRef := None |},
             StopAudioStream
             :: match audioStreamRef c with
                | Some stream => [StopTracks stream]
                | None => []
                end)
        end
      else
        match started with
        | Ok stream =>
            ({| ui := setIsRecording true (ui c);
                audioStreamRef := Some stream |}, [StartAudioStream])
        | Throw _ =>
            ({| ui := setConnectionError (Some microphoneDenied) (ui c);
                audioStreamRef := audioStreamRef c |}, [StartAudioStream])
        end
  end.

(** ** The controls of the render *)

Inductive ConnectAction := DoConnect | DoRetry.

(** The Connect button: rendered when the status is 'disconnected' or
    'error'; without a handler when the error shown is not recoverable;
    bound to [retry] when the count is above zero, to [connect] otherwise. *)
Definition connectButton (s : State) : option ConnectAction :=
  match status s with
  | StatusDisconnected | StatusError =>
      if match connectionError s with
         | Some e => negb (recoverable e)
         | None => false
         end
      then None
      else Some (if (0 <? retryCount s)%nat then DoRetry else DoConnect)
  | _ => None
  end.

(** The label of the Connect button: the count is shown when above zero. *)
Definition connectLabel (s : State) : option nat :=
  if (0 <? retryCount s)%nat then Some (retryCount s) else None.

(** The Disconnect button ('connected') and the Cancel button
    ('connecting'), both bound to [disconnect]. *)
Definition disconnectButton (s : State) : bool :=
  match status s with
  | StatusConnected | StatusConnecting => true
  | _ => false
  end.

(** What the host answers to the calls that an action may make, and the
    callbacks that the SDK calls while [live.connect] is awaited. *)
Record Host := mkHost {
  env : option jsstring;
  during : list LiveCallback;
  liveConnect : Result Session;
  sent : Result unit;
  sessionClosed : Result unit;
  contextClosed : Result unit;
  started : Result MediaStream;
  stopped : Result unit
}.

(** What the user can do.  [Submit] is the Send button or the Enter key;
    the text input and the microphone button are disabled unless the status
    is 'connected'; the close button of the banner exists when an error is
    shown. *)
Inductive UserAction :=
| ClickConnect
| ClickDisconnect
| ClickMic
| TypeText (t : jsstring)
| Submit
| DismissError.

Definition perform (h : Host) (a : UserAction) (c : Component)
  : Component * list Call :=
  match a with
  | ClickConnect =>
      match connectButton (ui c) with
      | Some DoConnect =>
          withUi c (VoiceChat.connect (env h) (during h) (liveConnect h) (ui c))
      | Some DoRetry =>
          withUi c (retry (env h) (during h) (liveConnect h) (ui c))
      | None => (c, [])
      end
  | ClickDisconnect =>
      if disconnectButton (ui c)
      then disconnect (sessionClosed h) (contextClosed h) c
      else (c, [])
  | ClickMic =>
      if isConnected (status (ui c))
      then toggleRecording (started h) (stopped h) c
      else (c, [])
  | TypeText t =>
      if isConnected (status (ui c))
      then ({| ui := setInputText t (ui c); audioStreamRef := audioStreamRef c |}, [])
      else (c, [])
  | Submit => withUi c (sendMessage (sent h) (ui c))
  | DismissError =>
      match connectionError (ui c) with
      | Some _ =>
          ({| ui := setConnectionError None (ui c);
              audioStreamRef := audioStreamRef c |}, [])
      | None => (c, [])
      end
  end.

(** ** The callbacks of the client *)

Inductive Callback :=
| CbOpen
| CbMessage (frame : LiveServerMessage)
| CbError (errorMessage : jsstring)
| CbClose (event : CloseEvent)
| CbEnded (l : nat).

Definition callback (cb : Callback) : M unit :=
  match cb with
  | CbOpen => onopen
  | CbMessage frame => onmessage frame
  | CbError errorMessage => onerror errorMessage
  | CbClose event => onclose event
  | CbEnded l => onended l
  end.

(** A callback of the client that the component holds: the client runs it,
    and the component handles the calls that the client makes meanwhile. *)
Definition onCallback (cb : Callback) (c : Component) : Component * list Call :=
  match clientRef (ui c) with
  | None => (c, [])
  | Some client =>
      match callback cb client with
      | (_, client', evs) =>
          ({| ui := deliver evs (setClientRef (Some client') (ui c));
              audioStreamRef := audioStreamRef c |},
           map ClientCall evs)
      end
  end.

(** What can happen to the component: an action of the user, a callback of
    the client it holds, or a call from a client it has dropped (its handlers
    stay installed on that client). *)
Inductive Step :=
| User (h : Host) (a : UserAction)
| Client (cb : Callback)
| Late (e : Event).

Definition step (st : Step) (c : Component) : Component * list Call :=
  match st with
  | User h a => perform h a c
  | Client cb => onCallback cb c
  | Late e => ({| ui := handler e (ui c); audioStreamRef := audioStreamRef c |}, [])
  end.

Fixpoint run (sts : list Step) (c : Component) : Component * list Call :=
  match sts with
  | [] => (c, [])
  | st :: sts' =>
      match step st c with
      | (c1, calls1) =>
          match run sts' c1 with
          | (c2, calls2) => (c2, calls1 ++ calls2)
          end
      end
  end.

End Component.

(* ================================================================== *)
(** * The audio-streaming revision of gemini.ts: the microphone

    The revision of the class that holds [arrayBufferToBase64] also holds a
    [MediaRecorder].  Its other fields are those of [GeminiLiveClient]. *)

Module GeminiAudio.

Record AudioClient := mkAudioClient {
  base : GeminiLiveClient;
  mediaRecorder : option Component.MediaStream
}.

Definition opusMimeType : jsstring := lit "audio/webm;codecs=opus".

Inductive Call :=
| GetUserMedia                       (* navigator.mediaDevices.getUserMedia *)
| RecorderStart (stream : Component.MediaStream) (timeslice : N)
                                     (* this.mediaRecorder.start(100) *)
| RecorderStop (stream : Component.MediaStream)
                                     (* this.mediaRecorder.stop() *)
| SendRealtimeInput (data mimeType : jsstring)
                                     (* this.session.sendRealtimeInput(...) *)
| ClientCall (e : Event).

(** [startAudioStream].  [gotMedia] is the outcome of [getUserMedia],
    [made] of [new MediaRecorder]. *)
Definition startAudioStream (gotMedia : Result Component.MediaStream)
           (made : Result unit) (c : AudioClient)
  : Result Component.MediaStream * AudioClient * list Call :=
  match gotMedia with
  | Throw t => (Throw t, c, [GetUserMedia])
  | Ok stream =>
      match made with
      | Throw t => (Throw t, c, [GetUserMedia])
      | Ok _ =>
          (Ok stream, {| base := base c; mediaRecorder := Some stream |},
           [GetUserMedia; RecorderStart stream 100])
      end
  end.

(** The [ondataavailable] handler of the recorder, on a blob of the bytes
    [chunk].  [sent] is the outcome of [sendRealtimeInput]. *)
Definition ondataavailable (sent : Result unit) (chunk : ArrayBuffer)
           (c : AudioClient) : Result unit * AudioClient * list Call :=
  if (0 <? N.of_nat (List.length chunk))
     && match session (base c) with Some _ => true | None => false end
  then
    match arrayBufferToBase64 chunk with
    | Throw t => (Throw t, c, [])
    | Ok base64 =>
        (match sent with Ok _ => Ok tt | Throw t => Throw t end,
         c, [SendRealtimeInput base64 opusMimeType])
    end
  else (Ok tt, c, []).

Definition stopAudioStream (c : AudioClient) : AudioClient * list Call :=
  match mediaRecorder c with
  | Some stream => ({| base := base c; mediaRecorder := None |}, [RecorderStop stream])
  | None => (c, [])
  end.

(** [disconnect] of this revision: no [try] around the two [close()], and
    neither the queue nor [isPlaying] is reset. *)
Definition disconnect (sessionClosed contextClosed : Result unit)
           (c : AudioClient) : Result unit * AudioClient * list Call :=
  match stopAudioStream c with
  | (c1, calls1) =>
      match
        match session (base c1) with
        | Some _ =>
            match sessionClosed with
            | Ok _ =>
                (Ok tt, {| base := set_session None (base c1);
                           mediaRecorder := mediaRecorder c1 |},
                 [ClientCall SessionClose])
            | Throw t => (Throw t, c1, [ClientCall SessionClose])
            end
        | None => (Ok tt, c1, [])
        end
      with
      | (Throw t, c2, calls2) => (Throw t, c2, calls1 ++ calls2)
      | (Ok _, c2, calls2) =>
          match
            match audioContext (base c2) with
            | Some _ =>
                match contextClosed with
                | Ok _ =>
                    (Ok tt, {| base := set_audioContext None (base c2);
                               mediaRecorder := mediaRecorder c2 |},
                     [ClientCall AudioContextClose])
                | Throw t => (Throw t, c2, [ClientCall AudioContextClose])
                end
            | None => (Ok tt, c2, [])
            end
          with
          | (Throw t, c3, calls3) => (Throw t, c3, calls1 ++ calls2 ++ calls3)
          | (Ok _, c3, calls3) =>
              (Ok tt, c3,
               calls1 ++ calls2 ++ calls3
               ++ if onStatusChange (base c3)
                  then [ClientCall (OnStatusChange disconnected)]
                  else [])
          end
      end
  end.

End GeminiAudio.

(* ================================================================== *)
(** * The request/response revision of gemini.ts

    The revision of [GeminiLiveClient] that keeps a chat history and asks
    [models.generateContent] for each turn. *)

Module GeminiText.

Inductive TurnRole := RoleUser | RoleModel.

(** A [Content] of the history: [{ role, parts: [{ text }] }]. *)
Record Content := mkContent {
  role : TurnRole;
  parts : list jsstring
}.

(** The fields of the class, then the part of the host the class leans on:
    how many identifiers were drawn and how many calls of [sendText] are
    suspended at their [await]. *)
Record TextClient := mkTextClient {
  client : option jsstring;
  chatHistory : list Content;
  isConnected : bool;
  onMessage : bool;
  onError : bool;
  onStatusChange : bool;
  drawn : nat;
  awaiting : nat
}.

Definition newClient : TextClient :=
  {| client := None; chatHistory := []; isConnected := false;
     onMessage := false; onError := false; onStatusChange := false;
     drawn := 0%nat; awaiting := 0%nat |}.

Inductive Call :=
| OnMessage (m : ChatMessage)
| OnError (message : jsstring)
| OnStatusChange (s : ClientStatus)
| GenerateContent (contents : list Content).
                        (* this.client.models.generateContent({ contents }) *)

Definition welcome : jsstring :=
  lit "Hi! I'm your AI assistant. How can I help you today?".

(** [this.onMessage?.({ id: crypto.randomUUID(), role, content, ... })] *)
Definition callOnMessage (r : Role) (t : jsstring) (c : TextClient)
  : TextClient * list Call :=
  if onMessage c
  then (mkTextClient (client c) (chatHistory c) (isConnected c) (onMessage c)
                     (onError c) (onStatusChange c) (S (drawn c)) (awaiting c),
        [OnMessage (mkChatMessage (drawn c) r t (drawn c))])
  else (c, []).

Definition callOnError (m : jsstring) (c : TextClient) : list Call :=
  if onError c then [OnError m] else [].

Definition callOnStatusChange (s : ClientStatus) (c : TextClient) : list Call :=
  if onStatusChange c then [OnStatusChange s] else [].

(** [connect].  [made] is the outcome of [new GoogleGenAI({ apiKey })]. *)
Definition connect (made : Result unit) (apiKey : jsstring) (c : TextClient)
  : Result unit * TextClient * list Call :=
  match made with
  | Throw error =>
      (Throw error, c,
       callOnStatusChange connecting c
       ++ callOnError (asErrorMessage error) c
       ++ callOnStatusChange disconnected c)
  | Ok _ =>
      let c1 := mkTextClient (Some apiKey) [] true (onMessage c) (onError c)
                             (onStatusChange c) (drawn c) (awaiting c) in
      match callOnMessage assistant welcome c1 with
      | (c2, calls) =>
          (Ok tt, c2,
           callOnStatusChange connecting c
           ++ callOnStatusChange connected c ++ calls)
      end
  end.

(** The message that the [catch] of [sendText] hands to [onError]. *)
Definition sendErrorMessage (error : Thrown) : jsstring :=
  match error with
  | ErrorObject m =>
      if includes m (lit "API_KEY") || includes m (lit "401")
      then lit "Invalid API key"
      else if includes m (lit "quota") || includes m (lit "429")
      then lit "Rate limited - please wait a moment"
      else m
  | OtherValue _ => lit "Failed to get response"
  end.

(** [this.chatHistory.push(t)] *)
Definition pushTurn (t : Content) (c : TextClient) : TextClient :=
  mkTextClient (client c) (chatHistory c ++ [t]) (isConnected c) (onMessage c)
               (onError c) (onStatusChange c) (drawn c) (awaiting c).

Definition set_awaiting (n : nat) (c : TextClient) : TextClient :=
  mkTextClient (client c) (chatHistory c) (isConnected c) (onMessage c)
               (onError c) (onStatusChange c) (drawn c) n.

(** [sendText], from the call to its [await]: the guard, the user's message
    and turn, and the request, which carries the history as it is then.  The
    call is left suspended; nothing stops another call meanwhile. *)
Definition sendText (t : jsstring) (c : TextClient)
  : Result unit * TextClient * list Call :=
  match client c with
  | None => (Throw (ErrorObject (lit "Not connected to Gemini")), c, [])
  | Some _ =>
      if negb (isConnected c)
      then (Throw (ErrorObject (lit "Not connected to Gemini")), c, [])
      else
        match callOnMessage user t c with
        | (c1, calls1) =>
            let c2 := pushTurn {| role := RoleUser; parts := [t] |} c1 in
            (Ok tt, set_awaiting (S (awaiting c2)) c2,
             calls1 ++ [GenerateContent (chatHistory c2)])
        end
  end.

(** [sendText], from its [await] on, when the promise of [generateContent]
    settles for a call that is suspended.  [generated] is how it settles: the
    [text] of the response, which may be undefined, or what was thrown.  The
    client is the client as it is by then: neither branch looks at
    [isConnected]. *)
Definition sendTextResumed (generated : Result (option jsstring))
           (c : TextClient) : TextClient * list Call :=
  match awaiting c with
  | O => (c, [])
  | S n =>
      let c0 := set_awaiting n c in
      match generated with
      | Ok response =>
          let responseText :=
            or_else (match response with Some r => r | None => [] end)
                    (lit "Sorry, I could not generate a response.") in
          callOnMessage assistant responseText
            (pushTurn {| role := RoleModel; parts := [responseText] |} c0)
      | Throw error => (c0, callOnError (sendErrorMessage error) c0)
      end
  end.

(** [disconnect]: the history is replaced by an empty one; the calls that
    are suspended stay so. *)
Definition disconnect (c : TextClient) : TextClient * list Call :=
  (mkTextClient None [] false (onMessage c) (onError c) (onStatusChange c)
                (drawn c) (awaiting c),
   callOnStatusChange disconnected c).

(** What can happen to a client, one after the other: a call of [sendText]
    (which runs to its [await]), the answer to a call that is suspended, a
    call of [disconnect], a call of [connect]. *)
Inductive Op :=
| Send (t : jsstring)
| Settle (generated : Result (option jsstring))
| Disconnect
| Connect (made : Result unit) (apiKey : jsstring).

Definition step (op : Op) (c : TextClient) : TextClient * list Call :=
  match op with
  | Send t => match sendText t c with (_, c', calls) => (c', calls) end
  | Settle generated => sendTextResumed generated c
  | Disconnect => disconnect c
  | Connect made apiKey =>
      match connect made apiKey c with (_, c', calls) => (c', calls) end
  end.

Fixpoint run (ops : list Op) (c : TextClient) : TextClient * list Call :=
  match ops with
  | [] => (c, [])
  | op :: ops' =>
      match step op c with
      | (c1, calls1) =>
          match run ops' c1 with
          | (c2, calls2) => (c2, calls1 ++ calls2)
          end
      end
  end.

End GeminiText.

(* ================================================================== *)
(** * Vocabulary of the properties

    The definitions below are not in the source: they name what the
    properties speak of (the needles of a rule, the chunks a trace took off
    the queue, the operations on the queue, ...). *)

Module Vocabulary.

(** ** For the error classifier *)

(** The needles of the three rules that [parseError] tries before the rate
    limiting rule. *)
Definition earlierNeedles : list jsstring :=
  [ lit "API_KEY"; lit "apiKey"; lit "environment variable";
    lit "WebSocket"; lit "connection"; lit "network";
    lit "401"; lit "403"; lit "unauthorized"; lit "forbidden" ].

Definition apiKeyNeedles : list jsstring :=
  [ lit "API_KEY"; lit "apiKey"; lit "environment variable" ].

(** ** For base64 *)

(** The six-bit values that [encodeBytes] writes, without the padding. *)
Fixpoint sextetsOfBytes (bs : list N) : list N :=
  match bs with
  | a :: b :: c :: rest =>
      a / 4 :: (a mod 4) * 16 + b / 16 :: (b mod 16) * 4 + c / 64 :: c mod 64
      :: sextetsOfBytes rest
  | [a; b] => [a / 4; (a mod 4) * 16 + b / 16; (b mod 16) * 4]
  | [a] => [a / 4; (a mod 4) * 16]
  | [] => []
  end.

Fixpoint paddingOf (bs : list N) : jsstring :=
  match bs with
  | _ :: _ :: _ :: rest => paddingOf rest
  | [_; _] => [padChar]
  | [_] => [padChar; padChar]
  | [] => []
  end.

(** A buffer of [n] bytes: the bytes 0, 1, ..., 255, 0, 1, ... *)
Definition sampleBuffer (n : N) : ArrayBuffer :=
  map (fun i => N.of_nat i mod 256) (seq 0 (N.to_nat n)).

(** ** For the component *)

(** The client of a component that is connected: handlers installed and a
    session open. *)
Definition liveClient : GeminiLiveClient :=
  set_session (Some 0%nat)
    (set_audioContext (Some {| sampleRate := 24000 |})
       (set_client (Some (lit "key")) (set_handlers true true true newClient))).

(** ** For inbound frames *)

(** The elements of a list that a partial function keeps, in order. *)
Fixpoint choose {A B : Type} (f : A -> option B) (l : list A) : list B :=
  match l with
  | [] => []
  | x :: l' =>
      match f x with
      | Some y => y :: choose f l'
      | None => choose f l'
      end
  end.

(** The text of a part that carries a text which is not empty. *)
Definition spokenText (p : Part) : option jsstring :=
  match text p with
  | Some t => if truthy t then Some t else None
  | None => None
  end.

(** The payload of a part that carries inline data which is not empty and
    whose MIME type begins with audio/. *)
Definition audioPayload (p : Part) : option jsstring :=
  match inlineData p with
  | Some blob =>
      match data blob, mimeType blob with
      | Some d, Some mt =>
          if truthy d && startsWith mt (lit "audio/") then Some d else None
      | _, _ => None
      end
  | None => None
  end.

(** Assistant messages for the given texts, numbered from the draw [k]. *)
Fixpoint assistantMessages (k : nat) (ts : list jsstring) : list Event :=
  match ts with
  | [] => []
  | t :: ts' =>
      OnMessage {| id := k; role := assistant; content := t; timestamp := k |}
      :: assistantMessages (S k) ts'
  end.

(** The payloads decoded, when every one of them is valid base64. *)
Fixpoint decodeAll (ds : list jsstring) : option (list ArrayBuffer) :=
  match ds with
  | [] => Some []
  | d :: ds' =>
      match Base64.base64ToArrayBuffer d, decodeAll ds' with
      | Ok b, Some bs => Some (b :: bs)
      | _, _ => None
      end
  end.

(** The client after [n] messages were emitted and [chunks] were queued. *)
Definition after (c : GeminiLiveClient) (n : nat) (chunks : list ArrayBuffer) :=
  set_drawn (drawn c + n) (set_audioQueue (audioQueue c ++ chunks) c).

Definition emitted (c : GeminiLiveClient) (ts : list jsstring) : list Event :=
  if onMessage c then assistantMessages (drawn c) ts else [].

Definition count (c : GeminiLiveClient) (ts : list jsstring) : nat :=
  if onMessage c then List.length ts else 0%nat.

Definition optList {A : Type} (o : option A) : list A :=
  match o with Some a => [a] | None => [] end.

(** ** For the playback queue *)

(** What happens to the queue of a client: a chunk is queued, a frame with
    [turnComplete] calls [playQueuedAudio], or the chunk that the call
    numbered [l] is playing comes to its end. *)
Inductive PipelineOp :=
| Enqueue (audioData : ArrayBuffer)
| Drain
| Ended (l : nat).

Definition step (op : PipelineOp) : M unit :=
  match op with
  | Enqueue audioData => queueAudio audioData
  | Drain => playQueuedAudio
  | Ended l => onended l
  end.

Definition run (ops : list PipelineOp) : M unit := forEach step ops.

(** The chunks queued by a sequence of operations, in order. *)
Definition enqueued (ops : list PipelineOp) : list ArrayBuffer :=
  choose (fun op => match op with Enqueue a => Some a | _ => None end) ops.

(** The chunks taken off the queue by a trace, in order: those handed to the
    audio device and those whose playing failed. *)
Definition consumed (evs : list Event) : list ArrayBuffer :=
  choose (fun e => match e with
                   | SourceStart _ a | PlayError _ a => Some a
                   | _ => None
                   end) evs.

(** The chunks handed to the audio device by a trace, in order. *)
Definition started (evs : list Event) : list ArrayBuffer :=
  choose (fun e => match e with SourceStart _ a => Some a | _ => None end) evs.

(** An event of the drain loop numbered [l], true to what the device with
    context [ctx] accepts. *)
Definition byLoop (ctx : option AudioContext) (l : nat) (e : Event) : Prop :=
  match e with
  | SourceStart k a => k = l /\ canPlay ctx a = true
  | PlayError k a => k = l /\ canPlay ctx a = false
  | _ => False
  end.

(** The end of playback signalled [n] times to the loop numbered [l]. *)
Fixpoint settle (l : nat) (n : nat) : M unit :=
  match n with
  | O => ret tt
  | S n' => onended l ;; settle l n'
  end.

(** No drain loop is running, or exactly one is, suspended at its [await]. *)
Definition idle (c : GeminiLiveClient) : Prop :=
  isPlaying c = false /\ drains c = [].

Definition draining (l : nat) (c : GeminiLiveClient) : Prop :=
  isPlaying c = true /\ drains c = [l].

Definition settled (c : GeminiLiveClient) : Prop :=
  idle c \/ exists l, draining l c.

(** An event that takes a chunk off the queue, true to the device. *)
Definition fair (ctx : option AudioContext) (e : Event) : Prop :=
  exists l, byLoop ctx l e.

(** The loop that takes the chunks of a client: the one that is suspended
    or, when none is, the one that the next [playQueuedAudio] begins. *)
Definition activeLoop (c : GeminiLiveClient) : nat :=
  match drains c with
  | l :: _ => l
  | [] => begun c
  end.

End Vocabulary.
Import Vocabulary.

Module MoreVocabulary.

(** What the component keeps in every state it can reach: the retry count is
    zero, the handlers never closed over the status 'connected', and the
    error shown is never "Connection Lost". *)
Definition steady (s : State) : Prop :=
  retryCount s = 0%nat
  /\ captured s <> StatusConnected
  /\ connectionError s <> Some connectionLost.

(** ** For the callbacks of the SDK *)

(** Two states of a client with the same session, audio context, SDK client
    and handlers. *)
Definition wiredAs (c c' : GeminiLiveClient) : Prop :=
  session c' = session c /\ audioContext c' = audioContext c
  /\ client c' = client c /\ onMessage c' = onMessage c
  /\ onError c' = onError c /\ onStatusChange c' = onStatusChange c.

(** The calls that the handling of a frame can make: [onMessage] and the
    audio device. *)
Definition ofFrame (e : Event) : bool :=
  match e with
  | OnMessage _ | SourceStart _ _ | PlayError _ _ => true
  | _ => false
  end.

(** The calls that each callback can make. *)
Definition mayReport (cb : LiveCallback) (e : Event) : bool :=
  match cb, e with
  | Onopen, OnStatusChange connected => true
  | Onmessage _, _ => ofFrame e
  | Onerror _, OnError _ => true
  | Onclose _, OnError _ => true
  | Onclose _, OnStatusChange disconnected => true
  | _, _ => false
  end.

(** A computation that leaves the wiring of the client alone and makes only
    the calls that [ok] allows, whether it returns or throws. *)
Definition confined (ok : Event -> bool) {A : Type} (m : M A) : Prop :=
  forall c,
    match m c with
    | (_, c', evs) => wiredAs c c' /\ forallb ok evs = true
    end.

(** A callback that does not touch the client: any but [onmessage]. *)
Definition silent (cb : LiveCallback) : bool :=
  match cb with
  | Onmessage _ => false
  | _ => true
  end.

(** ** For inbound frames and turns *)

(** A frame that carries the given parts of a model turn and nothing else. *)
Definition partsFrame (ps : list Part) : LiveServerMessage :=
  {| setupComplete := None;
     serverContent :=
       Some {| interrupted := None; turnComplete := None;
               modelTurn := Some {| parts := Some ps |} |} |}.

(** One step for each frame: the [onmessage] callback on that frame. *)
Definition receive (pss : list (list Part)) : list Component.Step :=
  map (fun ps => Component.Client (Component.CbMessage (partsFrame ps))) pss.

(** The user messages and the assistant messages with the given texts,
    shown in the list of the component, whatever their identifiers. *)
Definition shown (ms : list ChatMessage) : list (Role * jsstring) :=
  map (fun m => (role m, content m)) ms.

(** The frame that ends a turn. *)
Definition turnCompleteFrame : LiveServerMessage :=
  {| setupComplete := None;
     serverContent :=
       Some {| interrupted := None; turnComplete := Some true;
               modelTurn := None |} |}.

(** A turn of the model as the client receives it: frames of parts, then the
    frame that ends the turn. *)
Definition turn (pss : list (list Part)) : M unit :=
  forEach (fun ps => handleMessage (partsFrame ps)) pss ;;
  handleMessage turnCompleteFrame.

(** ** For the request/response revision *)

Definition turnOfUser (t : jsstring) : GeminiText.Content :=
  {| GeminiText.role := GeminiText.RoleUser; GeminiText.parts := [t] |}.

Definition turnOfModel (t : jsstring) : GeminiText.Content :=
  {| GeminiText.role := GeminiText.RoleModel; GeminiText.parts := [t] |}.

(** The text of the model turn for a response: [response.text], or the
    apology when it is undefined or empty. *)
Definition reply (response : option jsstring) : jsstring :=
  or_else (match response with Some r => r | None => [] end)
          (lit "Sorry, I could not generate a response.").

(** What happens in a conversation, step by step: the user sends a text
    ([sendText] runs to its [await]), or the answer to a call that is
    suspended arrives.  Nothing in the source keeps a second text from being
    sent before the first is answered. *)
Inductive Talk :=
| Say (t : jsstring)
| Hear (generated : Result (option jsstring)).

Definition talk (x : Talk) : GeminiText.Op :=
  match x with
  | Say t => GeminiText.Send t
  | Hear generated => GeminiText.Settle generated
  end.

(** The turns that a step leaves in the history. *)
Definition turns (x : Talk) : list GeminiText.Content :=
  match x with
  | Say t => [turnOfUser t]
  | Hear (Ok response) => [turnOfModel (reply response)]
  | Hear (Throw _) => []
  end.

(** Every answer of the conversation finds a call suspended, [n] calls being
    suspended when it starts. *)
Fixpoint answered (n : nat) (xs : list Talk) : bool :=
  match xs with
  | [] => true
  | Say _ :: xs' => answered (S n) xs'
  | Hear _ :: xs' =>
      match n with
      | O => false
      | S n' => answered n' xs'
      end
  end.

(** The conversation, run on a client. *)
Definition converse (xs : list Talk) (c : GeminiText.TextClient)
  : GeminiText.TextClient * list GeminiText.Call :=
  GeminiText.run (map talk xs) c.

(** The request that the step numbered [k] makes when it is a call, the
    history being [h] when the conversation starts. *)
Definition requestAt (h : list GeminiText.Content) (xs : list Talk) (k : nat)
  : option (list GeminiText.Content) :=
  match nth_error xs k with
  | Some (Say t) => Some (h ++ flat_map turns (firstn k xs) ++ [turnOfUser t])
  | _ => None
  end.

(** The histories handed to [generateContent] by a trace, in order. *)
Definition requests (calls : list GeminiText.Call)
  : list (list GeminiText.Content) :=
  choose (fun e => match e with
                   | GeminiText.GenerateContent contents => Some contents
                   | _ => None
                   end) calls.

End MoreVocabulary.
Import MoreVocabulary.

(* ================================================================== *)
(** * Substrings *)

Section Substrings.

Lemma startsWith_app (p post : jsstring) : startsWith (p ++ post) p = true.
Proof.
  induction p as [|x p IH]; simpl; [reflexivity|].
  now rewrite N.eqb_refl, IH.
Qed.

Lemma startsWith_inv (s p : jsstring) :
  startsWith s p = true -> exists post, s = p ++ post.
Proof.
  revert s; induction p as [|x p IH]; intros s H.
  - now exists s.
  - destruct s as [|y s]; simpl in H; [discriminate|].
    apply andb_true_iff in H as [Hxy Hp].
    apply N.eqb_eq in Hxy; subst y.
    destruct (IH _ Hp) as [post ->].
    now exists post.
Qed.

Lemma includes_startsWith (s p : jsstring) :
  startsWith s p = true -> includes s p = true.
Proof.
  destruct s; simpl; intros H; [exact H|].
  now rewrite H.
Qed.

(** [includes] decides the occurrence of a substring. *)
Lemma includes_spec (s p : jsstring) :
  includes s p = true <-> exists pre post, s = pre ++ p ++ post.
Proof.
  split.
  - induction s as [|y s IH]; simpl; intros H.
    + destruct (startsWith_inv _ _ H) as [post E].
      exists [], post; exact E.
    + apply orb_true_iff in H as [H|H].
      * destruct (startsWith_inv _ _ H) as [post E].
        exists [], post; exact E.
      * destruct (IH H) as (pre & post & ->).
        now exists (y :: pre), post.
  - intros (pre & post & ->).
    induction pre as [|y pre IH]; simpl.
    + apply includes_startsWith, startsWith_app.
    + rewrite IH; apply orb_true_r.
Qed.

End Substrings.

(* ================================================================== *)
(** * The error classifier: rate limiting and the order of the rules *)

Section ClassifierFacts.

Ltac absent_needles H :=
  repeat match goal with
         | |- context [includes ?m ?n] =>
             rewrite (H n) by (simpl; tauto)
         end.

(** C1, as stated, fails: a message with 429 and a needle of an earlier rule
    is classified by the earlier rule.  The message "429 unauthorized" is an
    authentication error, and not recoverable. *)
Lemma parseError_429_counterexample :
  includes (lit "429 unauthorized") (lit "429") = true
  /\ message (parseError (OfString (lit "429 unauthorized"))) <> lit "Rate Limited"
  /\ recoverable (parseError (OfString (lit "429 unauthorized"))) = false.
Proof. repeat split; [vm_compute; discriminate]. Qed.

(** C1, amended: a raw error whose text contains 429 and none of the needles
    of the three earlier rules (API key, connection, authentication), in the
    exact case of the source, is classified "Rate Limited" and recoverable. *)
Theorem parseError_429 (error : RawError) :
  includes (rawMessage error) (lit "429") = true ->
  (forall needle, In needle earlierNeedles ->
                  includes (rawMessage error) needle = false) ->
  parseError error = rateLimited
  /\ message (parseError error) = lit "Rate Limited"
  /\ recoverable (parseError error) = true.
Proof.
  intros H429 Hnone.
  assert (E : parseError error = rateLimited).
  { unfold parseError. cbv zeta.
    rewrite H429. absent_needles Hnone. reflexivity. }
  rewrite E; repeat split.
Qed.

Lemma parseError_429_witness :
  includes (lit "HTTP 429 Too Many Requests") (lit "429") = true
  /\ message (parseError (OfError (lit "HTTP 429 Too Many Requests")))
     = lit "Rate Limited"
  /\ recoverable (parseError (OfError (lit "HTTP 429 Too Many Requests"))) = true.
Proof.
  split; [reflexivity|].
  apply (parseError_429 (OfError (lit "HTTP 429 Too Many Requests"))).
  - reflexivity.
  - intros needle H; simpl in H.
    repeat (destruct H as [<-|H]; [reflexivity|]); contradiction.
Defined.

(** C2, as stated, fails: the source matches with exact case.  The message
    below contains "network" up to case, and 429; the classifier of the
    specification answers "Connection Failed", [parseError] answers
    "Rate Limited". *)
Lemma parseError_case_counterexample :
  includes_ci (lit "Network unreachable (HTTP 429)") (lit "network") = true
  /\ includes (lit "Network unreachable (HTTP 429)") (lit "429") = true
  /\ classify_spec (OfString (lit "Network unreachable (HTTP 429)")) = connectionFailed
  /\ parseError (OfString (lit "Network unreachable (HTTP 429)")) = rateLimited
  /\ parseError (OfString (lit "Network unreachable (HTTP 429)"))
     <> classify_spec (OfString (lit "Network unreachable (HTTP 429)")).
Proof. repeat split; vm_compute; discriminate. Qed.

(** C2, amended: [parseError] is the first-match evaluation of the rule
    table in its listed order, each needle looked up with exact case; and a
    message that contains "network" and "429" and none of the needles of the
    API-key rule is classified "Connection Failed", recoverable, and not
    "Rate Limited". *)
Theorem parseError_first_match (error : RawError) :
  parseError error = firstMatch includes rules (rawMessage error)
  /\ (includes (rawMessage error) (lit "network") = true ->
      includes (rawMessage error) (lit "429") = true ->
      (forall needle, In needle apiKeyNeedles ->
                      includes (rawMessage error) needle = false) ->
      parseError error = connectionFailed
      /\ message (parseError error) = lit "Connection Failed"
      /\ recoverable (parseError error) = true
      /\ message (parseError error) <> lit "Rate Limited").
Proof.
  split.
  - unfold parseError, rules. cbv zeta. cbn [firstMatch existsb].
    rewrite !orb_false_r, !orb_assoc. reflexivity.
  - intros Hnet _ Hnone.
    assert (E : parseError error = connectionFailed).
    { unfold parseError. cbv zeta.
      rewrite Hnet. absent_needles Hnone.
      rewrite !orb_true_r. reflexivity. }
    rewrite E; repeat split. vm_compute; discriminate.
Qed.

Lemma parseError_first_match_witness :
  parseError (OfString (lit "network timeout after 429"))
  = firstMatch includes rules (lit "network timeout after 429")
  /\ parseError (OfString (lit "network timeout after 429")) = connectionFailed.
Proof.
  destruct (parseError_first_match (OfString (lit "network timeout after 429")))
    as [E H].
  split; [exact E|].
  apply H.
  - reflexivity.
  - reflexivity.
  - intros needle Hin; simpl in Hin.
    repeat (destruct Hin as [<-|Hin]; [reflexivity|]); contradiction.
Defined.

End ClassifierFacts.

(* ================================================================== *)
(** * Base64: decoding undoes encoding *)

Section Base64Facts.

Ltac euclid := zify; Z.to_euclidean_division_equations; lia.

(** Lists three elements at a time. *)
Lemma list_ind3 (A : Type) (P : list A -> Prop) :
  P [] -> (forall a, P [a]) -> (forall a b, P [a; b]) ->
  (forall a b c rest, P rest -> P (a :: b :: c :: rest)) ->
  forall l, P l.
Proof.
  intros H0 H1 H2 H3 l.
  enough (H : P l /\ (forall a, P (a :: l)) /\ (forall a b, P (a :: b :: l)))
    by apply H.
  induction l as [|x l (IH0 & IH1 & IH2)].
  - auto.
  - repeat split; auto.
Qed.

Lemma encodeBytes_split (bs : list N) :
  encodeBytes bs = map charOfSextet (sextetsOfBytes bs) ++ paddingOf bs.
Proof.
  induction bs as [| a | a b | a b c rest IH] using list_ind3;
    try reflexivity.
  cbn [encodeBytes sextetsOfBytes paddingOf map app]. now rewrite IH.
Qed.

Lemma sextetsOfBytes_bound (bs : list N) :
  isBytes bs -> Forall (fun s => s < 64) (sextetsOfBytes bs).
Proof.
  unfold isBytes.
  induction bs as [| a | a b | a b c rest IH] using list_ind3; intros H.
  - constructor.
  - inversion_clear H. cbn. repeat constructor; euclid.
  - inversion_clear H as [|? ? Ha H']. inversion_clear H' as [|? ? Hb _].
    cbn. repeat constructor; euclid.
  - inversion_clear H as [|? ? Ha H']. inversion_clear H' as [|? ? Hb H''].
    inversion_clear H'' as [|? ? Hc Hrest].
    cbn [sextetsOfBytes].
    repeat (constructor; [euclid|]). auto.
Qed.

(** The decoder reads back the bytes from their six-bit values. *)
Lemma decodeSextets_sextetsOfBytes (bs : list N) :
  isBytes bs -> decodeSextets (sextetsOfBytes bs) = bs.
Proof.
  unfold isBytes.
  induction bs as [| a | a b | a b c rest IH] using list_ind3; intros H.
  - reflexivity.
  - inversion_clear H. cbn. apply (f_equal2 cons); [euclid|reflexivity].
  - inversion_clear H as [|? ? Ha H']. inversion_clear H' as [|? ? Hb _].
    cbn. repeat (apply (f_equal2 cons); [euclid|]). reflexivity.
  - inversion_clear H as [|? ? Ha H']. inversion_clear H' as [|? ? Hb H''].
    inversion_clear H'' as [|? ? Hc Hrest].
    cbn [sextetsOfBytes decodeSextets].
    rewrite (IH Hrest).
    repeat (apply (f_equal2 cons); [euclid|]). reflexivity.
Qed.

Lemma sextetOfChar_charOfSextet (i : N) :
  i < 64 -> sextetOfChar (charOfSextet i) = Some i.
Proof.
  intros Hi. unfold charOfSextet, sextetOfChar.
  repeat match goal with
         | |- context [?a <? ?b] => destruct (N.ltb_spec a b)
         | |- context [?a <=? ?b] => destruct (N.leb_spec a b)
         | |- context [?a =? ?b] => destruct (N.eqb_spec a b)
         | _ => progress cbn [andb]
         end; try (f_equal; lia); try lia.
Qed.

Lemma charOfSextet_plain (i : N) :
  i < 64 ->
  isAsciiWhitespace (charOfSextet i) = false /\ charOfSextet i <> padChar.
Proof.
  intros Hi. unfold charOfSextet, isAsciiWhitespace, padChar.
  repeat match goal with
         | |- context [?a <? ?b] => destruct (N.ltb_spec a b)
         | |- context [?a =? ?b] => destruct (N.eqb_spec a b)
         | _ => progress cbn [orb]
         end; split; try reflexivity; lia.
Qed.

Lemma sextetsOf_map (ss : list N) :
  Forall (fun s => s < 64) ss -> sextetsOf (map charOfSextet ss) = Some ss.
Proof.
  induction 1 as [|s ss Hs _ IH]; cbn; [reflexivity|].
  now rewrite (sextetOfChar_charOfSextet _ Hs), IH.
Qed.

Lemma filter_all (A : Type) (f : A -> bool) (l : list A) :
  Forall (fun x => f x = true) l -> filter f l = l.
Proof.
  induction 1 as [|x l Hx _ IH]; cbn; [reflexivity|].
  now rewrite Hx, IH.
Qed.

Lemma removePadding_rev (rb pad : jsstring) :
  Forall (fun c => c <> padChar) rb ->
  pad = [] \/ pad = [padChar] \/ pad = [padChar; padChar] ->
  removePadding (rev rb ++ pad) = rev rb.
Proof.
  intros Hrb Hpad.
  unfold removePadding. rewrite rev_app_distr, rev_involutive.
  destruct Hpad as [-> | [-> | ->]]; cbn [rev app].
  - destruct Hrb as [|p rb Hp Hrb]; [reflexivity|].
    apply N.eqb_neq in Hp. rewrite Hp.
    destruct rb; apply app_nil_r.
  - rewrite N.eqb_refl.
    destruct Hrb as [|q rb Hq Hrb]; [reflexivity|].
    apply N.eqb_neq in Hq. now rewrite Hq.
  - now rewrite N.eqb_refl.
Qed.

(** [removePadding] takes off exactly the padding that [encodeBytes] adds. *)
Lemma removePadding_app (body pad : jsstring) :
  Forall (fun c => c <> padChar) body ->
  pad = [] \/ pad = [padChar] \/ pad = [padChar; padChar] ->
  removePadding (body ++ pad) = body.
Proof.
  intros Hbody Hpad.
  rewrite <- (rev_involutive body).
  apply removePadding_rev; [|exact Hpad].
  apply Forall_forall; intros c Hc; apply in_rev in Hc.
  revert c Hc; apply Forall_forall; exact Hbody.
Qed.

Lemma paddingOf_cases (bs : list N) :
  paddingOf bs = [] \/ paddingOf bs = [padChar]
  \/ paddingOf bs = [padChar; padChar].
Proof.
  induction bs as [| a | a b | a b c rest IH] using list_ind3; cbn; auto.
Qed.

(** Lengths: the encoding is a whole number of groups of four characters;
    without its padding it is never one character more than that. *)
Lemma encodeBytes_length (bs : list N) :
  N.of_nat (List.length (encodeBytes bs)) mod 4 = 0.
Proof.
  induction bs as [| a | a b | a b c rest IH] using list_ind3;
    try reflexivity.
  cbn [encodeBytes List.length]. euclid.
Qed.

Lemma sextetsOfBytes_length (bs : list N) :
  N.of_nat (List.length (sextetsOfBytes bs)) mod 4 <> 1.
Proof.
  induction bs as [| a | a b | a b c rest IH] using list_ind3;
    try (cbn; discriminate).
  cbn [sextetsOfBytes List.length]. euclid.
Qed.

(** [atob] after [btoa] on a binary string. *)
Lemma atob_encodeBytes (bs : list N) :
  isBytes bs -> atob (encodeBytes bs) = Ok bs.
Proof.
  intros Hbs.
  pose proof (sextetsOfBytes_bound _ Hbs) as Hss.
  assert (Hplain : Forall (fun c => isAsciiWhitespace c = false /\ c <> padChar)
                          (map charOfSextet (sextetsOfBytes bs))).
  { apply Forall_forall. intros c Hc. apply in_map_iff in Hc as (s & <- & Hs).
    apply charOfSextet_plain. revert s Hs. apply Forall_forall. exact Hss. }
  unfold atob.
  rewrite filter_all.
  2:{ rewrite encodeBytes_split. apply Forall_app; split.
      - eapply Forall_impl; [|exact Hplain]. cbn. intros c [-> _]. reflexivity.
      - destruct (paddingOf_cases bs) as [-> | [-> | ->]];
          repeat constructor. }
  rewrite encodeBytes_length. cbn [N.eqb].
  rewrite encodeBytes_split, removePadding_app.
  2:{ eapply Forall_impl; [|exact Hplain]. cbn. intros c [_ H]. exact H. }
  2:{ apply paddingOf_cases. }
  rewrite length_map.
  destruct (N.eqb_spec (N.of_nat (List.length (sextetsOfBytes bs)) mod 4) 1)
    as [E|_]; [now apply sextetsOfBytes_length in E|].
  rewrite (sextetsOf_map _ Hss).
  now rewrite decodeSextets_sextetsOfBytes.
Qed.

Lemma fold_left_snoc (A : Type) (l acc : list A) :
  fold_left (fun binary b => binary ++ [b]) l acc = acc ++ l.
Proof.
  revert acc; induction l as [|x l IH]; intros acc; cbn.
  - now rewrite app_nil_r.
  - now rewrite IH, <- app_assoc.
Qed.

Lemma isBytes_forallb (bs : list N) :
  isBytes bs -> forallb (fun c => c <=? 255) bs = true.
Proof.
  induction 1 as [|b bs Hb _ IH]; cbn; [reflexivity|].
  rewrite IH, andb_true_r. apply N.leb_le. lia.
Qed.

Lemma map_mod_bytes (bs : list N) :
  isBytes bs -> map (fun c => c mod 256) bs = bs.
Proof.
  induction 1 as [|b bs Hb _ IH]; cbn; [reflexivity|].
  now rewrite IH, N.mod_small.
Qed.

(** C9: for every buffer of bytes, of whatever size, [arrayBufferToBase64]
    returns a string and [base64ToArrayBuffer] decodes that string to the
    same bytes. *)
Theorem base64_roundtrip (buffer : ArrayBuffer) :
  isBytes buffer ->
  exists base64,
    arrayBufferToBase64 buffer = Ok base64
    /\ Base64.base64ToArrayBuffer base64 = Ok buffer.
Proof.
  intros Hb. exists (encodeBytes buffer). split.
  - unfold arrayBufferToBase64. cbv zeta.
    rewrite fold_left_snoc. cbn [app]. unfold btoa.
    now rewrite (isBytes_forallb _ Hb).
  - unfold Base64.base64ToArrayBuffer.
    rewrite (atob_encodeBytes _ Hb).
    now rewrite (map_mod_bytes _ Hb).
Qed.

End Base64Facts.

Lemma sampleBuffer_isBytes (n : N) : isBytes (sampleBuffer n).
Proof.
  apply Forall_forall. intros b Hb.
  apply in_map_iff in Hb as (i & <- & _).
  apply N.mod_lt. discriminate.
Qed.

Lemma sampleBuffer_length (n : N) :
  N.of_nat (List.length (sampleBuffer n)) = n.
Proof.
  unfold sampleBuffer. rewrite length_map, length_seq. apply N2Nat.id.
Qed.

Lemma base64_roundtrip_witness :
  (exists base64,
      arrayBufferToBase64 (sampleBuffer 0) = Ok base64
      /\ Base64.base64ToArrayBuffer base64 = Ok (sampleBuffer 0))
  /\ (exists base64,
      arrayBufferToBase64 (sampleBuffer 1) = Ok base64
      /\ Base64.base64ToArrayBuffer base64 = Ok (sampleBuffer 1))
  /\ (exists base64,
      arrayBufferToBase64 (sampleBuffer 1024) = Ok base64
      /\ Base64.base64ToArrayBuffer base64 = Ok (sampleBuffer 1024))
  /\ (exists base64,
      arrayBufferToBase64 (sampleBuffer 65536) = Ok base64
      /\ Base64.base64ToArrayBuffer base64 = Ok (sampleBuffer 65536)).
Proof.
  repeat split;
    apply base64_roundtrip, sampleBuffer_isBytes.
Defined.

(* ================================================================== *)
(** * The close callback *)

Section CloseFacts.

(** C5: what [onclose] does on every close event.  It returns, leaves the
    client as it was, calls [onError] (when a handler is installed) exactly
    when the code is not 1000, with a message that is never empty, and then
    calls [onStatusChange('disconnected')] (when a handler is installed).
    The message is the hint of the codes 1006, 1008 and 1011, the reason of
    the event after "Connection closed: " for another code with a reason, and
    "Connection closed" for another code without one.  [wasClean] plays no
    part. *)
Theorem onclose_reports (event : CloseEvent) (c : GeminiLiveClient) :
  onclose event c =
    (Ok tt, c,
     (if (code event =? 1000) || negb (onError c) then []
      else [OnError (closeMessage event)])
     ++ (if onStatusChange c then [OnStatusChange disconnected] else []))
  /\ closeMessage event <> []
  /\ (code event = 1006 ->
      closeMessage event =
      lit "Connection closed abnormally - possible network issue or invalid API key")
  /\ (code event = 1008 ->
      closeMessage event = lit "Policy violation - check your API key permissions")
  /\ (code event = 1011 ->
      closeMessage event = lit "Server error - the Gemini service encountered an issue")
  /\ (code event <> 1000 -> code event <> 1006 -> code event <> 1008 ->
      code event <> 1011 ->
      (reason event <> [] ->
       closeMessage event = lit "Connection closed: " ++ reason event)
      /\ (reason event = [] -> closeMessage event = lit "Connection closed")).
Proof.
  destruct event as [cd rs wc]. cbn [code reason wasClean].
  split; [|split; [|split; [|split; [|split]]]].
  - destruct c as [cl se ac q pl om oe os dr bg dw].
    unfold onclose, callOnError, callOnStatusChange, bind, this, emit, ret.
    cbn [code onError onStatusChange]. cbv zeta.
    destruct (cd =? 1000), oe, os; reflexivity.
  - unfold closeMessage; cbn [code reason].
    repeat match goal with
           | |- context [if ?b then _ else _] => destruct b
           end; discriminate.
  - intros ->; reflexivity.
  - intros ->; reflexivity.
  - intros ->; reflexivity.
  - intros H0 H6 H8 H11.
    apply N.eqb_neq in H0, H6, H8, H11.
    unfold closeMessage; cbn [code reason].
    rewrite H0, H6, H8, H11.
    split; intros Hr.
    + destruct rs; [congruence | reflexivity].
    + rewrite Hr; reflexivity.
Qed.

Lemma onclose_reports_witness :
  onclose {| code := 4000; reason := lit "quota exhausted"; wasClean := false |}
          (set_handlers true true true newClient)
  = (Ok tt, set_handlers true true true newClient,
     [OnError (lit "Connection closed: quota exhausted");
      OnStatusChange disconnected]).
Proof.
  pose proof (onclose_reports
                {| code := 4000; reason := lit "quota exhausted"; wasClean := false |}
                (set_handlers true true true newClient)) as (E & _ & _ & _ & _ & H).
  rewrite E. cbn [code onError onStatusChange set_handlers N.eqb orb negb app].
  destruct H as [-> _]; try discriminate. reflexivity.
Defined.

End CloseFacts.

(* ================================================================== *)
(** * sendText and disconnect *)

Section ClientFacts.

(** C10: without a session, [sendText] throws "Not connected to Gemini" and
    that is all it does: the client is left as it was and no call goes out
    (no [onMessage], no [sendClientContent]). *)
Theorem sendText_not_connected
        (sent : Result unit) (t : jsstring) (c : GeminiLiveClient) :
  session c = None ->
  sendText sent t c = (Throw (ErrorObject (lit "Not connected to Gemini")), c, []).
Proof.
  intros H. unfold sendText, bind, this. cbn. rewrite H. reflexivity.
Qed.

Lemma sendText_not_connected_witness :
  sendText (Ok tt) (lit "hello") (set_handlers true true true newClient)
  = (Throw (ErrorObject (lit "Not connected to Gemini")),
     set_handlers true true true newClient, []).
Proof.
  apply (sendText_not_connected (Ok tt) (lit "hello")
                                (set_handlers true true true newClient)).
  reflexivity.
Defined.

(** [disconnect], whatever the state of the client and the outcomes of the
    two [close()]. *)
Lemma disconnect_eq (closed1 closed2 : Result unit) (c : GeminiLiveClient) :
  disconnect closed1 closed2 c
  = (Ok tt,
     set_isPlaying false
       (set_audioQueue [] (set_audioContext None (set_session None c))),
     (match session c with Some _ => [SessionClose] | None => [] end)
     ++ (match audioContext c with Some _ => [AudioContextClose] | None => [] end)
     ++ (if onStatusChange c then [OnStatusChange disconnected] else [])).
Proof.
  destruct c as [cl se ac q pl om oe os dr bg dw].
  unfold disconnect, closeCall, tryCatch, callOnStatusChange, bind, this,
    modify, emit, ret, throw.
  destruct se, ac, os, closed1, closed2; reflexivity.
Qed.



End ClientFacts.


(* ================================================================== *)
(** * The component: blank input and a missing credential *)

Section ComponentFacts.

Lemma trimStart_blank (s : jsstring) :
  forallb isWhiteSpace s = true -> trimStart s = [].
Proof.
  induction s as [|c s IH]; cbn; [reflexivity|].
  intros H. apply andb_true_iff in H as [Hc Hs].
  rewrite Hc. exact (IH Hs).
Qed.

(** The empty string and the strings of white space trim to the empty
    string. *)
Lemma trim_blank (s : jsstring) :
  forallb isWhiteSpace s = true -> trim s = [].
Proof.
  intros H. unfold trim, trimEnd. now rewrite (trimStart_blank _ H).
Qed.

(** C6, as stated, fails: [sendText] has no guard on its argument.  On an
    open session, the empty string and a string of three spaces are each
    emitted as a user message and sent. *)
Lemma sendText_blank_counterexample :
  sendText (Ok tt) (lit "") liveClient
  = (Ok tt, set_drawn 1%nat liveClient,
     [ OnMessage {| id := 0; role := user; content := lit ""; timestamp := 0 |};
       SendClientContent (lit "") ])
  /\ sendText (Ok tt) (lit "   ") liveClient
     = (Ok tt, set_drawn 1%nat liveClient,
        [ OnMessage {| id := 0; role := user; content := lit "   ";
                       timestamp := 0 |};
          SendClientContent (lit "   ") ]).
Proof. split; reflexivity. Qed.

(** C6, amended: the guard is in [sendMessage] of the component.  When the
    input is empty or made of white space only, or there is no client, or the
    status is not 'connected', [sendMessage] does nothing: the state of the
    component (its client included) is unchanged and no call goes out, so
    [sendText] is not called, nothing is sent and no message is emitted. *)
Theorem sendMessage_blank (sent : Result unit) (s : State) :
  forallb isWhiteSpace (inputText s) = true
  \/ clientRef s = None
  \/ status s <> StatusConnected ->
  sendMessage sent s = (s, []).
Proof.
  intros H. unfold sendMessage.
  destruct (clientRef s) as [client|]; [|reflexivity].
  destruct H as [H | [H | H]].
  - rewrite (trim_blank _ H). reflexivity.
  - discriminate.
  - destruct (status s); try (now rewrite orb_true_r). congruence.
Qed.

Lemma sendMessage_blank_witness :
  sendMessage (Ok tt)
              (setStatus StatusConnected
                 (setClientRef (Some liveClient)
                    (setInputText (lit "   ") initialState)))
  = (setStatus StatusConnected
       (setClientRef (Some liveClient) (setInputText (lit "   ") initialState)),
     []).
Proof.
  apply (sendMessage_blank (Ok tt)
           (setStatus StatusConnected
              (setClientRef (Some liveClient)
                 (setInputText (lit "   ") initialState)))).
  left. reflexivity.
Defined.

(** What [sendMessage] hands to the session is the trimmed input, and it is
    not empty. *)
Lemma sendMessage_sends_trimmed (sent : Result unit) (s : State) (t : jsstring) :
  In (SendClientContent t) (snd (sendMessage sent s)) ->
  t = trim (inputText s) /\ t <> [] /\ status s = StatusConnected.
Proof.
  unfold sendMessage.
  destruct (clientRef s) as [client|]; [|intros []].
  destruct (trim (inputText s)) as [|x t'] eqn:Et; [intros []|].
  destruct (status s); try (intros []).
  cbn [truthy negb isConnected orb].
  destruct client as [cl se ac q pl om oe os dr bg dw].
  unfold sendText, sendClientContent, callOnMessage, tryCatch, bind, this,
    modify, emit, ret, throw.
  destruct se, om, sent; cbn; intros H;
    repeat (destruct H as [H|H]; [inversion H; subst|]); try contradiction;
    repeat split; discriminate.
Qed.

(** C7: [connect] of the component when the server has no GEMINI_API_KEY
    (unset or empty, so that [getApiConfig] throws).  The status ends as
    'error', the error shown is "API Key Not Configured" and not recoverable,
    no client is created and no call goes out: [live.connect] is never
    reached. *)
Theorem connect_without_key
        (env : option jsstring) (during : list LiveCallback)
        (liveConnect : Result Session) (s : State) :
  env = None \/ env = Some [] ->
  exists s',
    VoiceChat.connect env during liveConnect s = (s', [])
    /\ status s' = StatusError
    /\ connectionError s' = Some apiKeyError
    /\ message apiKeyError = lit "API Key Not Configured"
    /\ recoverable apiKeyError = false
    /\ clientRef s' = clientRef s.
Proof.
  intros [-> | ->]; eexists; (split; [reflexivity|]); repeat split.
Qed.

Lemma connect_without_key_witness :
  exists s',
    VoiceChat.connect None [Onopen] (Ok 0%nat) initialState = (s', [])
    /\ status s' = StatusError
    /\ connectionError s' = Some apiKeyError
    /\ message apiKeyError = lit "API Key Not Configured"
    /\ recoverable apiKeyError = false
    /\ clientRef s' = clientRef initialState.
Proof.
  apply (connect_without_key None [Onopen] (Ok 0%nat) initialState).
  left. reflexivity.
Defined.

(** With a key, [connect] does reach [live.connect]. *)
Lemma connect_with_key_calls_transport :
  snd (VoiceChat.connect (Some (lit "k")) [Onopen] (Ok 0%nat) initialState)
  = [OnStatusChange connecting; LiveConnect (lit "k"); OnStatusChange connected].
Proof. reflexivity. Qed.

End ComponentFacts.

(* ================================================================== *)
(** * Inbound frames *)

Section FrameFacts.

Lemma after_after (c : GeminiLiveClient) n1 ch1 n2 ch2 :
  after (after c n1 ch1) n2 ch2 = after c (n1 + n2) (ch1 ++ ch2).
Proof.
  destruct c; unfold after, set_drawn, set_audioQueue; cbn.
  now rewrite Nat.add_assoc, app_assoc.
Qed.

Lemma assistantMessages_app (k : nat) (ts1 ts2 : list jsstring) :
  assistantMessages k (ts1 ++ ts2)
  = assistantMessages k ts1 ++ assistantMessages (k + List.length ts1) ts2.
Proof.
  revert k; induction ts1 as [|t ts1 IH]; intros k;
    cbn [app assistantMessages List.length].
  - now rewrite Nat.add_0_r.
  - now rewrite IH, Nat.add_succ_r.
Qed.

(** One part: its text, when spoken, is emitted; then its payload, when it is
    an audio payload, is decoded and queued, or the decoding throws. *)
Lemma handlePart_spec (p : Part) (c : GeminiLiveClient) :
  handlePart p c =
  match audioPayload p with
  | None =>
      (Ok tt, after c (count c (optList (spokenText p))) [],
       emitted c (optList (spokenText p)))
  | Some d =>
      match Base64.base64ToArrayBuffer d with
      | Ok b =>
          (Ok tt, after c (count c (optList (spokenText p))) [b],
           emitted c (optList (spokenText p)))
      | Throw t =>
          (Throw t, after c (count c (optList (spokenText p))) [],
           emitted c (optList (spokenText p)))
      end
  end.
Proof.
  destruct c as [cl se ac q pl om oe os dr bg dw].
  destruct p as [tx idata].
  unfold handlePart, audioPayload, spokenText, after, count, emitted,
    base64ToArrayBuffer, queueAudio, callOnMessage, bind, this, modify, emit,
    ret, throw, set_drawn, set_audioQueue.
  cbn [text inlineData onMessage drawn audioQueue client session audioContext
       isPlaying onError onStatusChange drains begun].
  destruct tx as [t|]; [destruct (truthy t)|];
    destruct om;
    (destruct idata as [[[d|] [mt|]]|]; cbn [data mimeType];
     [ destruct (truthy d && startsWith mt (lit "audio/"));
       [ destruct (Base64.base64ToArrayBuffer d) |] | | | |]);
    cbn [optList List.length assistantMessages app];
    rewrite ?app_nil_r, ?Nat.add_0_r, ?Nat.add_1_r; reflexivity.
Qed.

Lemma forEach_handlePart (ps : list Part) :
  forall (c : GeminiLiveClient) (chunks : list ArrayBuffer),
    decodeAll (choose audioPayload ps) = Some chunks ->
    forEach handlePart ps c
    = (Ok tt, after c (count c (choose spokenText ps)) chunks,
       emitted c (choose spokenText ps)).
Proof.
  induction ps as [|p ps IH]; intros c chunks Hdec.
  - cbn in Hdec. injection Hdec as <-.
    destruct c as [cl se ac q pl om oe os dr bg dw].
    unfold after, count, emitted, set_drawn, set_audioQueue; cbn.
    destruct om; rewrite app_nil_r, Nat.add_0_r; reflexivity.
  - cbn [forEach]. unfold bind at 1.
    rewrite handlePart_spec.
    cbn [choose] in *.
    assert (Hom : forall n ch, onMessage (after c n ch) = onMessage c)
      by (intros; destruct c; reflexivity).
    assert (Hdr : forall n ch, drawn (after c n ch) = (drawn c + n)%nat)
      by (intros; destruct c; reflexivity).
    assert (Hsplit :
             forall ch1 ch2,
               decodeAll (choose audioPayload ps) = Some ch2 ->
               (let '(r, c2, ev2) :=
                  forEach handlePart ps
                          (after c (count c (optList (spokenText p))) ch1) in
                (r, c2, emitted c (optList (spokenText p)) ++ ev2))
               = (Ok tt,
                  after c (count c (match spokenText p with
                                    | Some y => y :: choose spokenText ps
                                    | None => choose spokenText ps
                                    end)) (ch1 ++ ch2),
                  emitted c (match spokenText p with
                             | Some y => y :: choose spokenText ps
                             | None => choose spokenText ps
                             end))).
    { intros ch1 ch2 H2. rewrite (IH _ _ H2), after_after.
      unfold count, emitted. rewrite Hom, Hdr.
      destruct (onMessage c), (spokenText p); cbn [optList List.length app];
        rewrite ?Nat.add_0_r, ?Nat.add_1_r; reflexivity. }
    destruct (audioPayload p) as [d|].
    + cbn [decodeAll] in Hdec.
      destruct (Base64.base64ToArrayBuffer d) as [b|]; [|discriminate].
      destruct (decodeAll (choose audioPayload ps)) as [bs|]; [|discriminate].
      injection Hdec as <-.
      exact (Hsplit [b] bs eq_refl).
    + exact (Hsplit [] chunks Hdec).
Qed.

(** C4, as stated, fails on two kinds of frame.  In the first, a part with
    an empty text and a part with an empty audio payload go through the
    fourth rule: no message is emitted and nothing is queued.  In the second,
    an audio payload that is not base64 makes [handleMessage] throw, and the
    text part that follows it is never emitted. *)
Lemma handleMessage_counterexample :
  handleMessage
    {| setupComplete := None;
       serverContent :=
         Some {| interrupted := None; turnComplete := None;
                 modelTurn :=
                   Some {| parts :=
                             Some [ {| text := Some (lit ""); inlineData := None |};
                                    {| text := None;
                                       inlineData :=
                                         Some {| data := Some (lit "");
                                                 mimeType := Some (lit "audio/pcm") |} |} ]
                        |} |} |}
    (set_handlers true true true newClient)
  = (Ok tt, set_handlers true true true newClient, [])
  /\ handleMessage
       {| setupComplete := None;
          serverContent :=
            Some {| interrupted := None; turnComplete := None;
                    modelTurn :=
                      Some {| parts :=
                                Some [ {| text := None;
                                          inlineData :=
                                            Some {| data := Some (lit "%%%");
                                                    mimeType := Some (lit "audio/pcm") |} |};
                                       {| text := Some (lit "hi"); inlineData := None |} ]
                           |} |} |}
       (set_handlers true true true newClient)
     = (Throw InvalidCharacterError, set_handlers true true true newClient, []).
Proof. split; reflexivity. Qed.

(** C4, amended: the precedence of [handleMessage] on every frame.
    - [setupComplete] present: it returns; nothing is emitted or queued.
    - Otherwise, [interrupted] set: the same.
    - Otherwise, [turnComplete] set: it is [playQueuedAudio] and nothing
      else, whatever the frame holds in [modelTurn].
    - Otherwise, the parts are gone through in order: one assistant message
      for each part with a text that is not empty, carrying that text, and one
      chunk queued for each part with inline data that is not empty and of an
      audio/ MIME type, in the order of the parts; any other part adds
      nothing.  This is stated for frames whose audio payloads are all valid
      base64. *)
Theorem handleMessage_precedence (frame : LiveServerMessage) (c : GeminiLiveClient) :
  (setupComplete frame <> None -> handleMessage frame c = (Ok tt, c, []))
  /\ (setupComplete frame = None ->
      forall sc, serverContent frame = Some sc ->
        (truthyBool (interrupted sc) = true ->
         handleMessage frame c = (Ok tt, c, []))
        /\ (truthyBool (interrupted sc) = false ->
            truthyBool (turnComplete sc) = true ->
            handleMessage frame c = playQueuedAudio c)
        /\ (truthyBool (interrupted sc) = false ->
            truthyBool (turnComplete sc) = false ->
            forall ps chunks,
              modelTurn sc = Some {| parts := Some ps |} ->
              decodeAll (choose audioPayload ps) = Some chunks ->
              exists c',
                handleMessage frame c
                = (Ok tt, c',
                   if onMessage c
                   then assistantMessages (drawn c) (choose spokenText ps)
                   else [])
                /\ audioQueue c' = audioQueue c ++ chunks
                /\ isPlaying c' = isPlaying c
                /\ session c' = session c
                /\ audioContext c' = audioContext c)).
Proof.
  destruct frame as [setup content]. cbn [setupComplete serverContent].
  split.
  - destruct setup; [reflexivity | congruence].
  - intros -> sc ->. unfold handleMessage. cbn [setupComplete serverContent].
    split; [|split].
    + intros ->. reflexivity.
    + intros -> ->. reflexivity.
    + intros -> -> ps chunks -> Hdec.
      cbn [parts]. rewrite (forEach_handlePart _ _ _ Hdec).
      eexists; split; [reflexivity|].
      destruct c; repeat split.
Qed.

Lemma handleMessage_precedence_witness :
  exists c',
    handleMessage
      {| setupComplete := None;
         serverContent :=
           Some {| interrupted := None; turnComplete := Some false;
                   modelTurn :=
                     Some {| parts :=
                               Some [ {| text := Some (lit "Hel"); inlineData := None |};
                                      {| text := None;
                                         inlineData :=
                                           Some {| data := Some (lit "AAEC");
                                                   mimeType := Some (lit "audio/pcm;rate=24000") |} |};
                                      {| text := None; inlineData := None |};
                                      {| text := Some (lit "lo"); inlineData := None |} ]
                          |} |} |}
      (set_handlers true true true newClient)
    = (Ok tt, c',
       [ OnMessage {| id := 0; role := assistant; content := lit "Hel"; timestamp := 0 |};
         OnMessage {| id := 1; role := assistant; content := lit "lo"; timestamp := 1 |} ])
    /\ audioQueue c' = [[0; 1; 2]].
Proof.
  destruct (handleMessage_precedence
              {| setupComplete := None;
                 serverContent :=
                   Some {| interrupted := None; turnComplete := Some false;
                           modelTurn :=
                             Some {| parts :=
                                       Some [ {| text := Some (lit "Hel"); inlineData := None |};
                                              {| text := None;
                                                 inlineData :=
                                                   Some {| data := Some (lit "AAEC");
                                                           mimeType := Some (lit "audio/pcm;rate=24000") |} |};
                                              {| text := None; inlineData := None |};
                                              {| text := Some (lit "lo"); inlineData := None |} ]
                                  |} |} |}
              (set_handlers true true true newClient)) as [_ H].
  destruct (H eq_refl _ eq_refl) as (_ & _ & H4).
  destruct (H4 eq_refl eq_refl _ [[0; 1; 2]] eq_refl eq_refl)
    as (c' & E & Hq & _).
  exists c'. split; [exact E | exact Hq].
Defined.

End FrameFacts.

(* ================================================================== *)
(** * The playback queue *)

Section PlaybackFacts.

Lemma choose_app (A B : Type) (f : A -> option B) (l1 l2 : list A) :
  choose f (l1 ++ l2) = choose f l1 ++ choose f l2.
Proof.
  induction l1 as [|x l1 IH]; cbn; [reflexivity|].
  destruct (f x); cbn; now rewrite IH.
Qed.

Lemma drainLoop_cons (l : nat) (a : ArrayBuffer) (q : list ArrayBuffer)
      (c : GeminiLiveClient) :
  drainLoop l (a :: q) c =
  if canPlay (audioContext c) a
  then (Ok tt, set_drains (l :: drains c) (set_audioQueue q c), [SourceStart l a])
  else let '(r, c', evs) := drainLoop l q (set_audioQueue q c) in
       (r, c', PlayError l a :: evs).
Proof.
  destruct c as [cl se ac q0 pl om oe os dr bg dw].
  cbn [drainLoop]. unfold bind, modify, this, emit.
  cbn [set_audioQueue audioContext client session audioQueue isPlaying
       onMessage onError onStatusChange drains begun drawn].
  destruct (canPlay ac a); [reflexivity|].
  cbn [app].
  destruct (drainLoop l q _) as [[[] c'] evs]; reflexivity.
Qed.

(** One run of the loop, from its test to its next [await] or to its exit:
    it takes chunks from the head of the queue, in order, and either stops at
    the first chunk that the device accepts, suspended, or empties the queue
    and clears [isPlaying]. *)
Lemma drainLoop_spec (l : nat) (q : list ArrayBuffer) :
  forall c : GeminiLiveClient,
    audioQueue c = q -> drains c = [] ->
    exists c' evs,
      drainLoop l q c = (Ok tt, c', evs)
      /\ consumed evs ++ audioQueue c' = q
      /\ Forall (byLoop (audioContext c) l) evs
      /\ audioContext c' = audioContext c
      /\ begun c' = begun c
      /\ ((isPlaying c' = isPlaying c /\ drains c' = [l]
           /\ (List.length (audioQueue c') < List.length q)%nat)
          \/ (isPlaying c' = false /\ drains c' = [] /\ audioQueue c' = [])).
Proof.
  induction q as [|a q IH]; intros c Hq Hd.
  - exists (set_isPlaying false c), [].
    destruct c; cbn in *. subst.
    repeat split; auto.
  - rewrite drainLoop_cons.
    destruct (canPlay (audioContext c) a) eqn:Hplay.
    + do 2 eexists; split; [reflexivity|].
      destruct c; cbn in *. subst.
      split; [reflexivity|].
      split; [repeat constructor; exact Hplay|].
      split; [reflexivity|]. split; [reflexivity|].
      left; repeat split; auto.
    + destruct (IH (set_audioQueue q c)) as (c' & evs & E & Hfifo & Hby & Hctx & Hbg & Hst).
      { destruct c; reflexivity. }
      { destruct c; exact Hd. }
      rewrite E. exists c', (PlayError l a :: evs).
      assert (Hctx0 : audioContext (set_audioQueue q c) = audioContext c)
        by (destruct c; reflexivity).
      assert (Hbg0 : begun (set_audioQueue q c) = begun c)
        by (destruct c; reflexivity).
      assert (Hpl0 : isPlaying (set_audioQueue q c) = isPlaying c)
        by (destruct c; reflexivity).
      rewrite Hctx0 in *. rewrite Hbg0, Hpl0 in *.
      split; [reflexivity|].
      split; [change (a :: (consumed evs ++ audioQueue c') = a :: q);
              now rewrite Hfifo|].
      split; [constructor; [split; auto | exact Hby]|].
      split; [exact Hctx|]. split; [exact Hbg|].
      destruct Hst as [(Hp & Hdr & Hlen) | Hdone].
      * left; repeat split; auto. cbn. lia.
      * right; exact Hdone.
Qed.

Lemma playQueuedAudio_eq (c : GeminiLiveClient) :
  playQueuedAudio c =
  if isPlaying c
     || (N.of_nat (List.length (audioQueue c)) =? 0)
     || (match audioContext c with None => true | Some _ => false end)
  then (Ok tt, c, [])
  else drainLoop (begun c) (audioQueue c)
                 (set_begun (S (begun c)) (set_isPlaying true c)).
Proof.
  destruct c as [cl se ac q pl om oe os dr bg dw].
  unfold playQueuedAudio, bind, this, modify, ret.
  cbn [isPlaying audioQueue audioContext begun].
  destruct (pl || (N.of_nat (List.length q) =? 0)
            || match ac with None => true | Some _ => false end);
    [reflexivity|].
  cbn [app].
  destruct (drainLoop bg q _) as [[r c'] evs]. reflexivity.
Qed.

Lemma onended_eq (l : nat) (c : GeminiLiveClient) :
  onended l c =
  if existsb (Nat.eqb l) (drains c)
  then drainLoop l (audioQueue c)
                 (set_drains (filter (fun k => negb (Nat.eqb l k)) (drains c)) c)
  else (Ok tt, c, []).
Proof.
  destruct c as [cl se ac q pl om oe os dr bg dw].
  unfold onended, bind, this, modify, ret.
  cbn [drains audioQueue].
  destruct (existsb (Nat.eqb l) dr); [|reflexivity].
  cbn [app set_drains audioQueue].
  destruct (drainLoop l q _) as [[r c'] evs]. reflexivity.
Qed.

Lemma byLoop_fair ctx l evs :
  Forall (byLoop ctx l) evs -> Forall (fair ctx) evs.
Proof. apply Forall_impl. intros e H. now exists l. Qed.

(** Each operation keeps the queue first in, first out, and keeps at most
    one loop running. *)
Lemma step_spec (op : PipelineOp) (c : GeminiLiveClient) :
  settled c ->
  exists c' evs,
    step op c = (Ok tt, c', evs)
    /\ settled c'
    /\ consumed evs ++ audioQueue c' = audioQueue c ++ enqueued [op]
    /\ Forall (fair (audioContext c)) evs
    /\ audioContext c' = audioContext c.
Proof.
  intros Hs. destruct op as [a | | l]; cbn [step enqueued choose].
  - (* queueAudio *)
    exists (set_audioQueue (audioQueue c ++ [a]) c), [].
    destruct c; cbn in *. repeat split; auto.
  - (* playQueuedAudio *)
    rewrite playQueuedAudio_eq, app_nil_r.
    destruct (isPlaying c
              || (N.of_nat (List.length (audioQueue c)) =? 0)
              || match audioContext c with None => true | Some _ => false end)
             eqn:Hguard.
    + exists c, []. repeat split; auto.
    + apply orb_false_iff in Hguard as [Hguard _].
      apply orb_false_iff in Hguard as [Hpl _].
      destruct Hs as [[_ Hd] | (l & Hp & _)]; [|congruence].
      destruct (drainLoop_spec (begun c) (audioQueue c)
                  (set_begun (S (begun c)) (set_isPlaying true c)))
        as (c' & evs & E & Hfifo & Hby & Hctx & _ & Hst).
      { destruct c; reflexivity. }
      { destruct c; exact Hd. }
      exists c', evs. rewrite E.
      assert (Hctx0 : audioContext (set_begun (S (begun c)) (set_isPlaying true c))
                      = audioContext c) by (destruct c; reflexivity).
      assert (Hpl0 : isPlaying (set_begun (S (begun c)) (set_isPlaying true c))
                     = true) by (destruct c; reflexivity).
      rewrite Hctx0 in *. rewrite Hpl0 in Hst.
      split; [reflexivity|].
      split.
      { destruct Hst as [(Hp & Hdr & _) | (Hp & Hdr & _)].
        - right. exists (begun c). split; assumption.
        - left. split; assumption. }
      split; [exact Hfifo|].
      split; [exact (byLoop_fair _ _ _ Hby) | exact Hctx].
  - (* onended *)
    rewrite onended_eq, app_nil_r.
    destruct (existsb (Nat.eqb l) (drains c)) eqn:Hin.
    + destruct Hs as [[_ Hd] | (k & Hp & Hd)];
        [rewrite Hd in Hin; discriminate|].
      rewrite Hd in Hin |- *. cbn in Hin. rewrite orb_false_r in Hin.
      cbn [filter]. rewrite Hin. cbn [negb].
      destruct (drainLoop_spec l (audioQueue c) (set_drains [] c))
        as (c' & evs & E & Hfifo & Hby & Hctx & _ & Hst).
      { destruct c; reflexivity. }
      { destruct c; reflexivity. }
      exists c', evs. rewrite E.
      assert (Hctx0 : audioContext (set_drains [] c) = audioContext c)
        by (destruct c; reflexivity).
      assert (Hpl0 : isPlaying (set_drains [] c) = isPlaying c)
        by (destruct c; reflexivity).
      rewrite Hctx0 in *. rewrite Hpl0, Hp in Hst.
      split; [reflexivity|].
      split.
      { destruct Hst as [(Hp' & Hdr & _) | (Hp' & Hdr & _)].
        - right. exists l. split; assumption.
        - left. split; assumption. }
      split; [exact Hfifo|].
      split; [exact (byLoop_fair _ _ _ Hby) | exact Hctx].
    + exists c, []. repeat split; auto.
Qed.

Lemma run_spec (ops : list PipelineOp) :
  forall c : GeminiLiveClient,
    settled c ->
    exists c' evs,
      run ops c = (Ok tt, c', evs)
      /\ settled c'
      /\ consumed evs ++ audioQueue c' = audioQueue c ++ enqueued ops
      /\ Forall (fair (audioContext c)) evs
      /\ audioContext c' = audioContext c.
Proof.
  induction ops as [|op ops IH]; intros c Hs.
  - exists c, []. cbn. rewrite app_nil_r. repeat split; auto.
  - destruct (step_spec op c Hs) as (c1 & ev1 & E1 & Hs1 & Hf1 & Hby1 & Hctx1).
    destruct (IH c1 Hs1) as (c' & ev2 & E2 & Hs2 & Hf2 & Hby2 & Hctx2).
    exists c', (ev1 ++ ev2).
    unfold run in *. cbn [forEach]. unfold bind. rewrite E1, E2.
    split; [reflexivity|]. split; [exact Hs2|].
    split.
    { unfold consumed in *. rewrite choose_app, <- app_assoc, Hf2.
      rewrite app_assoc, Hf1, <- app_assoc.
      change (op :: ops) with ([op] ++ ops).
      unfold enqueued. now rewrite choose_app. }
    split.
    { apply Forall_app; split; [exact Hby1|]. now rewrite <- Hctx1. }
    now rewrite Hctx2.
Qed.

Lemma settle_idle (l n : nat) (c : GeminiLiveClient) :
  drains c = [] -> settle l n c = (Ok tt, c, []).
Proof.
  intros Hd. induction n as [|n IH]; [reflexivity|].
  cbn [settle]. unfold bind. rewrite onended_eq, Hd. cbn [existsb].
  now rewrite IH.
Qed.

(** Once a loop is suspended, the ends of playback alone carry it through
    the whole queue: it takes every chunk, in order, and exits. *)
Lemma settle_spec (l n : nat) :
  forall c : GeminiLiveClient,
    draining l c ->
    (List.length (audioQueue c) < n)%nat ->
    exists c' evs,
      settle l n c = (Ok tt, c', evs)
      /\ consumed evs = audioQueue c
      /\ Forall (byLoop (audioContext c) l) evs
      /\ idle c' /\ audioQueue c' = []
      /\ begun c' = begun c
      /\ audioContext c' = audioContext c.
Proof.
  induction n as [|n IH]; intros c [Hp Hd] Hlen; [lia|].
  cbn [settle]. unfold bind. rewrite onended_eq, Hd.
  cbn [existsb filter]. rewrite Nat.eqb_refl. cbn [orb negb].
  destruct (drainLoop_spec l (audioQueue c) (set_drains [] c))
    as (c1 & ev1 & E1 & Hf1 & Hby1 & Hctx1 & Hbg1 & Hst).
  { destruct c; reflexivity. }
  { destruct c; reflexivity. }
  assert (Hctx0 : audioContext (set_drains [] c) = audioContext c)
    by (destruct c; reflexivity).
  assert (Hpl0 : isPlaying (set_drains [] c) = isPlaying c)
    by (destruct c; reflexivity).
  assert (Hbg0 : begun (set_drains [] c) = begun c)
    by (destruct c; reflexivity).
  rewrite Hctx0 in *. rewrite Hbg0 in Hbg1. rewrite Hpl0, Hp in Hst.
  rewrite E1.
  destruct Hst as [(Hp1 & Hd1 & Hlen1) | (Hp1 & Hd1 & Hq1)].
  - destruct (IH c1 (conj Hp1 Hd1)) as (c' & ev2 & E2 & Hf2 & Hby2 & Hidle & Hq & Hbg & Hctx);
      [lia|].
    rewrite E2. exists c', (ev1 ++ ev2).
    split; [reflexivity|].
    split; [unfold consumed in *; now rewrite choose_app, Hf2|].
    split; [apply Forall_app; split; [exact Hby1 | now rewrite <- Hctx1]|].
    split; [exact Hidle|]. split; [exact Hq|].
    split; congruence.
  - rewrite (settle_idle l n c1 Hd1). exists c1, (ev1 ++ []).
    split; [reflexivity|].
    rewrite app_nil_r. rewrite Hq1, app_nil_r in Hf1.
    split; [exact Hf1|]. split; [exact Hby1|].
    split; [split; assumption|]. split; [exact Hq1|].
    split; assumption.
Qed.

Lemma started_filter (ctx : option AudioContext) (evs : list Event) :
  Forall (fair ctx) evs ->
  started evs = filter (canPlay ctx) (consumed evs).
Proof.
  induction 1 as [|e evs [l He] _ IH]; [reflexivity|].
  unfold started, consumed in *.
  destruct e; cbn in He; try contradiction; destruct He as [_ He];
    cbn [choose filter]; rewrite He, IH; reflexivity.
Qed.

(** A [playQueuedAudio] and then the ends of playback empty the queue of a
    client that has an audio context: the loop that is suspended, or the one
    that begins, takes every chunk, in order, and exits. *)
Lemma playQueuedAudio_settles (c : GeminiLiveClient) :
  settled c ->
  audioContext c <> None ->
  exists c' evs,
    (playQueuedAudio ;; settle (activeLoop c) (S (List.length (audioQueue c)))) c
    = (Ok tt, c', evs)
    /\ consumed evs = audioQueue c
    /\ Forall (fair (audioContext c)) evs
    /\ idle c' /\ audioQueue c' = [].
Proof.
  intros Hs Hctx. unfold bind. rewrite playQueuedAudio_eq.
  destruct Hs as [[Hp Hd] | (l & Hp & Hd)].
  - (* no loop is suspended *)
    unfold activeLoop. rewrite Hd, Hp. cbn [orb].
    destruct (audioQueue c) as [|a q] eqn:Hq.
    + cbn [List.length N.of_nat N.eqb orb].
      rewrite (settle_idle _ _ c Hd).
      exists c, []. repeat split; auto.
    + destruct (audioContext c) as [ctx|] eqn:Ectx; [|congruence].
      cbn [List.length]. rewrite Nat2N.inj_succ.
      replace (N.succ (N.of_nat (List.length q)) =? 0) with false
        by (symmetry; apply N.eqb_neq; lia).
      cbn [orb].
      destruct (drainLoop_spec (begun c) (a :: q)
                  (set_begun (S (begun c)) (set_isPlaying true c)))
        as (c1 & ev1 & E1 & Hf1 & Hby1 & Hctx1 & _ & Hst).
      { destruct c; exact Hq. }
      { destruct c; exact Hd. }
      assert (Hctx0 : audioContext (set_begun (S (begun c)) (set_isPlaying true c))
                      = Some ctx) by (destruct c; exact Ectx).
      assert (Hpl0 : isPlaying (set_begun (S (begun c)) (set_isPlaying true c))
                     = true) by (destruct c; reflexivity).
      rewrite Hctx0 in *. rewrite Hpl0 in Hst. rewrite E1.
      destruct Hst as [(Hp1 & Hd1 & Hlen1) | (Hp1 & Hd1 & Hq1)].
      * destruct (settle_spec (begun c) (S (S (List.length q))) c1
                    (conj Hp1 Hd1))
          as (c' & ev2 & E2 & Hf2 & Hby2 & Hidle & Hq' & _); [cbn in Hlen1; lia|].
        rewrite E2. exists c', (ev1 ++ ev2).
        split; [reflexivity|].
        split; [unfold consumed in *; now rewrite choose_app, Hf2|].
        split; [apply Forall_app; split; apply (byLoop_fair _ (begun c));
                [exact Hby1 | now rewrite <- Hctx1]|].
        split; assumption.
      * rewrite (settle_idle _ _ c1 Hd1). exists c1, (ev1 ++ []).
        split; [reflexivity|].
        rewrite app_nil_r. rewrite Hq1, app_nil_r in Hf1.
        split; [exact Hf1|].
        split; [exact (byLoop_fair _ _ _ Hby1)|].
        split; [split; assumption | exact Hq1].
  - (* one loop is suspended: [playQueuedAudio] does nothing *)
    unfold activeLoop. rewrite Hd, Hp. cbn [orb].
    destruct (settle_spec l (S (List.length (audioQueue c))) c (conj Hp Hd))
      as (c' & ev2 & E2 & Hf2 & Hby2 & Hidle & Hq' & _); [lia|].
    rewrite E2. exists c', ([] ++ ev2).
    split; [reflexivity|]. cbn [app].
    split; [exact Hf2|].
    split; [exact (byLoop_fair _ _ _ Hby2)|].
    split; assumption.
Qed.

(** C3, as stated, fails in two ways.
    - A chunk that the audio device refuses (here one of three bytes, which
      is no array of 16-bit samples) is taken off the queue and not played:
      the [catch] of the loop logs the failure and the loop goes on.
    - [disconnect] while a chunk is playing resets [isPlaying] and leaves the
      loop suspended.  When the same client is connected again and a turn
      completes, a second loop begins; when the chunk of the first loop comes
      to its end, the first loop takes the chunk that was queued during the
      drain of the second: two loops are suspended at once, each on a chunk
      of its own. *)
Lemma playback_counterexample :
  run [ Enqueue [1; 2; 3]; Enqueue [4; 5]; Drain ]
      (set_audioContext (Some {| sampleRate := 24000 |})
                        (set_handlers true true true newClient))
  = (Ok tt,
     set_drains [0%nat]
       (set_begun 1%nat
          (set_isPlaying true
             (set_audioContext (Some {| sampleRate := 24000 |})
                               (set_handlers true true true newClient)))),
     [ PlayError 0 [1; 2; 3]; SourceStart 0 [4; 5] ])
  /\ (run [ Enqueue [1; 2]; Drain ] ;;
      disconnect (Ok tt) (Ok tt) ;;
      Gemini.connect [SdkCalls Onopen] (Ok 1%nat) (lit "key") ;;
      run [ Enqueue [3; 4]; Drain; Enqueue [5; 6]; Ended 0 ])
       (set_audioContext (Some {| sampleRate := 24000 |})
                         (set_handlers true true true newClient))
     = (Ok tt,
        set_drains [0%nat; 1%nat]
          (set_begun 2%nat
             (set_isPlaying true
                (set_session (Some 1%nat)
                   (set_client (Some (lit "key"))
                      (set_audioContext (Some {| sampleRate := 24000 |})
                         (set_handlers true true true newClient)))))),
        [ SourceStart 0 [1; 2];
          AudioContextClose; OnStatusChange disconnected;
          OnStatusChange connecting; LiveConnect (lit "key");
          OnStatusChange connected;
          SourceStart 1 [3; 4]; SourceStart 0 [5; 6] ]).
Proof. split; reflexivity. Qed.

(** C3, amended: the playback queue of a client under every sequence of
    [queueAudio], [playQueuedAudio] and ends of playback, that is as long as
    [disconnect] is not called, from a state in which nothing is playing or
    one loop is suspended on the chunk that is playing.
    - First in, first out: the chunks taken off the queue, followed by those
      still in it, are the chunks that were in it followed by the chunks
      queued since, in the order of queueing; the chunks handed to the device
      are, in that order, those that the device accepts (a chunk whose playing
      fails is skipped, the loop going on to the next one).
    - At most one drain loop: never more than one call of [playQueuedAudio]
      is suspended, and none is when [isPlaying] is false.
    - While [isPlaying] is true, [playQueuedAudio] does nothing; and a chunk
      queued then is taken by the running loop: with the ends of playback
      alone, that loop takes what was in the queue and then the new chunk,
      and exits, no other loop having begun.
    - Every chunk is taken: when the client has an audio context, one more
      [playQueuedAudio] followed by the ends of playback leaves the queue
      empty and nothing playing; by then every chunk has been taken off the
      queue, in the order of queueing, and those that the device accepts have
      been handed to it, in that order. *)
Theorem playback_fifo (ops : list PipelineOp) (c : GeminiLiveClient) :
  settled c ->
  exists c' evs,
    run ops c = (Ok tt, c', evs)
    /\ consumed evs ++ audioQueue c' = audioQueue c ++ enqueued ops
    /\ started evs = filter (canPlay (audioContext c)) (consumed evs)
    /\ (List.length (drains c') <= 1)%nat
    /\ (isPlaying c' = false -> drains c' = [])
    /\ (isPlaying c' = true ->
        playQueuedAudio c' = (Ok tt, c', [])
        /\ exists l,
            drains c' = [l]
            /\ forall a,
                exists c'' evs',
                  (queueAudio a ;; settle l (2 + List.length (audioQueue c'))) c'
                  = (Ok tt, c'', evs')
                  /\ consumed evs' = audioQueue c' ++ [a]
                  /\ Forall (byLoop (audioContext c') l) evs'
                  /\ idle c'' /\ audioQueue c'' = []
                  /\ begun c'' = begun c')
    /\ (audioContext c <> None ->
        exists c'' evs',
          (playQueuedAudio ;;
           settle (activeLoop c') (S (List.length (audioQueue c')))) c'
          = (Ok tt, c'', evs')
          /\ consumed (evs ++ evs') = audioQueue c ++ enqueued ops
          /\ started (evs ++ evs')
             = filter (canPlay (audioContext c)) (audioQueue c ++ enqueued ops)
          /\ idle c'' /\ audioQueue c'' = []).
Proof.
  intros Hsettled.
  destruct (run_spec ops c Hsettled)
    as (c' & evs & E & Hs & Hfifo & Hfair & Hctx).
  exists c', evs.
  split; [exact E|]. split; [exact Hfifo|].
  split; [exact (started_filter _ _ Hfair)|].
  split; [destruct Hs as [[_ ->] | (l & _ & ->)]; cbn; lia|].
  split; [intros Hp; destruct Hs as [[_ Hd] | (l & Hp' & _)]; [exact Hd | congruence]|].
  split.
  - intros Hp.
    split; [rewrite playQueuedAudio_eq, Hp; reflexivity|].
    destruct Hs as [[Hp' _] | (l & _ & Hd)]; [congruence|].
    exists l. split; [exact Hd|]. intros a.
    destruct (settle_spec l (2 + List.length (audioQueue c'))
                (set_audioQueue (audioQueue c' ++ [a]) c'))
      as (c'' & evs' & E' & Hf' & Hby' & Hidle' & Hq' & Hbg' & _).
    { destruct c'; split; assumption. }
    { destruct c'; cbn. rewrite length_app. cbn. lia. }
    exists c'', evs'.
    assert (Hq0 : audioQueue (set_audioQueue (audioQueue c' ++ [a]) c')
                  = audioQueue c' ++ [a]) by (destruct c'; reflexivity).
    assert (Hctx0 : audioContext (set_audioQueue (audioQueue c' ++ [a]) c')
                    = audioContext c') by (destruct c'; reflexivity).
    assert (Hbg0 : begun (set_audioQueue (audioQueue c' ++ [a]) c')
                   = begun c') by (destruct c'; reflexivity).
    rewrite Hq0 in Hf'. rewrite Hctx0 in Hby'. rewrite Hbg0 in Hbg'.
    split.
    { unfold bind, queueAudio, this, modify.
      destruct c'; cbn [audioQueue] in *. unfold bind. cbn [audioQueue].
      rewrite E'. reflexivity. }
    repeat split; try assumption; apply Hidle'.
  - intros Hsome.
    destruct (playQueuedAudio_settles c' Hs) as (c'' & evs' & E' & Hf' & Hfair' & Hidle' & Hq');
      [now rewrite Hctx|].
    rewrite Hctx in Hfair'.
    exists c'', evs'.
    assert (Hall : consumed (evs ++ evs') = audioQueue c ++ enqueued ops).
    { unfold consumed in *. now rewrite choose_app, Hf'. }
    split; [exact E'|]. split; [exact Hall|].
    split; [|split; assumption].
    rewrite <- Hall. apply started_filter.
    apply Forall_app; split; assumption.
Qed.

(** A client that is connected, with two chunks queued before the turn is
    complete and one queued while the first is playing: the first chunk is
    playing still, and after the ends of playback the three were played in
    the order of their queueing. *)
Lemma playback_fifo_witness :
  exists c' evs c'' evs',
    run [ Enqueue [1; 2]; Enqueue [3; 4; 5; 6]; Drain; Enqueue [7; 8]; Drain ]
        (set_audioContext (Some {| sampleRate := 24000 |})
                          (set_handlers true true true newClient))
    = (Ok tt, c', evs)
    /\ isPlaying c' = true
    /\ consumed evs ++ audioQueue c' = [[1; 2]; [3; 4; 5; 6]; [7; 8]]
    /\ (List.length (drains c') <= 1)%nat
    /\ (playQueuedAudio ;;
        settle (activeLoop c') (S (List.length (audioQueue c')))) c'
       = (Ok tt, c'', evs')
    /\ started (evs ++ evs') = [[1; 2]; [3; 4; 5; 6]; [7; 8]]
    /\ audioQueue c'' = [].
Proof.
  destruct (playback_fifo
              [ Enqueue [1; 2]; Enqueue [3; 4; 5; 6]; Drain; Enqueue [7; 8]; Drain ]
              (set_audioContext (Some {| sampleRate := 24000 |})
                                (set_handlers true true true newClient)))
    as (c' & evs & E & Hfifo & _ & Hone & _ & _ & Hall).
  - left. split; reflexivity.
  - destruct Hall as (c'' & evs' & E' & _ & Hst & _ & Hq); [discriminate|].
    exists c', evs, c'', evs'.
    split; [exact E|].
    split; [injection E as <- _; reflexivity|].
    repeat split; assumption.
Defined.

(** The same run, computed: one loop, numbered 0, plays the three chunks in
    the order of their queueing; the second [playQueuedAudio] starts
    nothing. *)
Lemma playback_example :
  run [ Enqueue [1; 2]; Enqueue [3; 4; 5; 6]; Drain; Enqueue [7; 8]; Drain;
        Ended 0; Ended 0; Ended 0 ]
      (set_audioContext (Some {| sampleRate := 24000 |})
                        (set_handlers true true true newClient))
  = (Ok tt,
     set_begun 1%nat
       (set_audioContext (Some {| sampleRate := 24000 |})
                         (set_handlers true true true newClient)),
     [ SourceStart 0 [1; 2]; SourceStart 0 [3; 4; 5; 6]; SourceStart 0 [7; 8] ]).
Proof. reflexivity. Qed.

End PlaybackFacts.

(* ================================================================== *)
(** * Checks of the model on known values *)

Section Checks.

(** The test vectors of RFC 4648, section 10, through [btoa] and [atob]. *)
Lemma btoa_rfc4648 :
  btoa (lit "") = Ok (lit "")
  /\ btoa (lit "f") = Ok (lit "Zg==")
  /\ btoa (lit "fo") = Ok (lit "Zm8=")
  /\ btoa (lit "foo") = Ok (lit "Zm9v")
  /\ btoa (lit "foob") = Ok (lit "Zm9vYg==")
  /\ btoa (lit "fooba") = Ok (lit "Zm9vYmE=")
  /\ btoa (lit "foobar") = Ok (lit "Zm9vYmFy").
Proof. repeat split. Qed.

Lemma atob_rfc4648 :
  atob (lit "Zg==") = Ok (lit "f")
  /\ atob (lit "Zm8=") = Ok (lit "fo")
  /\ atob (lit "Zm9v") = Ok (lit "foo")
  /\ atob (lit "Zm9vYmE=") = Ok (lit "fooba")
  /\ atob (lit "Zm9vYmFy") = Ok (lit "foobar").
Proof. repeat split. Qed.

(** [atob] is forgiving about white space and missing padding, and refuses
    what is not base64. *)
Lemma atob_forgiving :
  atob (lit "Zm9v YmE") = Ok (lit "fooba")
  /\ atob (lit "Zg=") = Throw InvalidCharacterError
  /\ atob (lit "Z") = Throw InvalidCharacterError
  /\ atob (lit "Zm9v!") = Throw InvalidCharacterError.
Proof. repeat split. Qed.

(** [btoa] refuses a code unit above U+00FF. *)
Lemma btoa_refuses_wide : btoa [104; 8364] = Throw InvalidCharacterError.
Proof. reflexivity. Qed.

(** One message for each rule of [parseError]. *)
Lemma parseError_by_rule :
  parseError (OfError (lit "GEMINI_API_KEY environment variable is not set"))
  = apiKeyError
  /\ parseError (OfError (lit "WebSocket connection error")) = connectionFailed
  /\ parseError (OfString (lit "403 forbidden")) = authenticationError
  /\ parseError (OfError (lit "quota exceeded")) = rateLimited
  /\ parseError (OfError (lit "model is overloaded")) = serviceUnavailable
  /\ parseError (OfError (lit "boom")) = defaultError (lit "boom")
  /\ details (parseError (OfString (lit "")))
     = Some (lit "An unexpected error occurred. Please try again.").
Proof. repeat split. Qed.

Lemma trim_examples :
  trim (lit "  hi there  ") = lit "hi there"
  /\ trim (lit "   ") = lit ""
  /\ trim (lit "") = lit ""
  /\ trim [9; 10; 104; 105; 160; 8232] = lit "hi".
Proof. repeat split. Qed.

(** With a text to send, [sendMessage] does call [sendText], with the input
    trimmed: the user message is emitted and appended, the text is sent and
    the input is cleared. *)
Lemma sendMessage_example :
  sendMessage (Ok tt)
              (setStatus StatusConnected
                 (setClientRef (Some liveClient)
                    (setInputText (lit "  hi ") initialState)))
  = (setMessages
       [ {| id := 0; role := user; content := lit "hi"; timestamp := 0 |} ]
       (setStatus StatusConnected
          (setClientRef (Some (set_drawn 1%nat liveClient)) initialState)),
     [ OnMessage {| id := 0; role := user; content := lit "hi"; timestamp := 0 |};
       SendClientContent (lit "hi") ]).
Proof. reflexivity. Qed.

(** The handler that the component installs for [onStatusChange] has the same
    effect when 'disconnected' is reported once or twice. *)
Lemma handler_disconnected_twice (s : State) :
  handler (OnStatusChange disconnected) (handler (OnStatusChange disconnected) s)
  = handler (OnStatusChange disconnected) s.
Proof.
  destruct s as [ms it st rec ce rc cr cap].
  destruct cap; reflexivity.
Qed.

(** A failed [live.connect]: the client reports the error and 'disconnected',
    then rethrows; the component ends with the status 'error'. *)
Lemma connect_failure_example :
  VoiceChat.connect (Some (lit "k")) []
                    (Throw (ErrorObject (lit "network down"))) initialState
  = (setCaptured StatusDisconnected
       (setClientRef
          (Some (set_audioContext (Some {| sampleRate := 24000 |})
                   (set_client (Some (lit "k"))
                      (set_handlers true true true newClient))))
          (setStatus StatusError
             (setConnectionError (Some connectionFailed) initialState))),
     [ OnStatusChange connecting; LiveConnect (lit "k");
       OnError (lit "network down"); OnStatusChange disconnected ]).
Proof. reflexivity. Qed.

End Checks.

(* ================================================================== *)
(** * More on the error classifier *)

Section ClassifierMore.

Lemma includes_embedded (s p pre post : jsstring) :
  includes s p = true -> includes (pre ++ s ++ post) p = true.
Proof.
  intros H. apply includes_spec in H as (a & b & ->).
  apply includes_spec. exists (pre ++ a), (b ++ post).
  now rewrite <- !app_assoc.
Qed.

(** [parseError] answers the API-key error only through its first rule. *)
Lemma parseError_apiKey_inv (error : RawError) :
  parseError error = apiKeyError ->
  includes (rawMessage error) (lit "API_KEY")
  || includes (rawMessage error) (lit "apiKey")
  || includes (rawMessage error) (lit "environment variable") = true.
Proof.
  unfold parseError. cbv zeta.
  destruct (includes (rawMessage error) (lit "API_KEY")
            || includes (rawMessage error) (lit "apiKey")
            || includes (rawMessage error) (lit "environment variable"));
    [reflexivity|].
  repeat match goal with
         | |- context [if ?b then _ else _] => destruct b
         end; intros H; discriminate H.
Qed.

(** X1: whatever the raw error, [parseError] answers one of its six
    errors; the details it gives are never missing nor empty, the empty
    message included; and the answer is not recoverable exactly when it is
    the API-key error or the authentication error. *)
Theorem parseError_range (error : RawError) :
  In (parseError error)
     [ apiKeyError; connectionFailed; authenticationError; rateLimited;
       serviceUnavailable; defaultError (rawMessage error) ]
  /\ (exists d, details (parseError error) = Some d /\ d <> [])
  /\ (recoverable (parseError error) = false <->
      parseError error = apiKeyError \/ parseError error = authenticationError).
Proof.
  unfold parseError. cbv zeta.
  repeat match goal with
         | |- context [if ?b then _ else _] => destruct b
         end;
    (split; [cbn; tauto|]);
    (split;
     [ eexists; split; [reflexivity|];
       try discriminate;
       destruct (rawMessage error); discriminate
     | split;
       [ intros H; try discriminate H; auto
       | intros [H|H]; try reflexivity; discriminate H ] ]).
Qed.

(** X2: an API-key error stays one when its message is embedded in a longer
    text, as [onclose] does with the reason of a close event: if [parseError]
    answers the API-key error on a message, it does so on every text that
    contains the message. *)
Theorem parseError_apiKey_embedded (m pre post : jsstring) :
  parseError (OfError m) = apiKeyError ->
  parseError (OfError (pre ++ m ++ post)) = apiKeyError
  /\ parseError (OfString (pre ++ m ++ post)) = apiKeyError.
Proof.
  intros H. apply parseError_apiKey_inv in H. cbn [rawMessage] in H.
  assert (E : includes (pre ++ m ++ post) (lit "API_KEY")
              || includes (pre ++ m ++ post) (lit "apiKey")
              || includes (pre ++ m ++ post) (lit "environment variable") = true).
  { apply orb_true_iff in H as [H|H];
      [apply orb_true_iff in H as [H|H]|];
      rewrite (includes_embedded _ _ pre post H);
      rewrite ?orb_true_r; reflexivity. }
  split; unfold parseError; cbv zeta; cbn [rawMessage]; rewrite E; reflexivity.
Qed.

Lemma parseError_apiKey_embedded_witness :
  parseError
    (OfError (lit "Connection closed: "
              ++ lit "GEMINI_API_KEY environment variable is not set" ++ []))
  = apiKeyError.
Proof.
  apply (parseError_apiKey_embedded
           (lit "GEMINI_API_KEY environment variable is not set")
           (lit "Connection closed: ") []).
  reflexivity.
Defined.

End ClassifierMore.

(* ================================================================== *)
(** * What the callbacks of the SDK can do *)

Section CallbackFacts.

Lemma wiredAs_refl (c : GeminiLiveClient) : wiredAs c c.
Proof. repeat split. Qed.

Lemma wiredAs_trans (c1 c2 c3 : GeminiLiveClient) :
  wiredAs c1 c2 -> wiredAs c2 c3 -> wiredAs c1 c3.
Proof.
  unfold wiredAs. intros (A1 & A2 & A3 & A4 & A5 & A6) (B1 & B2 & B3 & B4 & B5 & B6).
  repeat split; congruence.
Qed.

Lemma confined_ret (ok : Event -> bool) (A : Type) (a : A) : confined ok (ret a).
Proof. intros c. split; [apply wiredAs_refl | reflexivity]. Qed.

Lemma confined_throw (ok : Event -> bool) (A : Type) (t : Thrown) :
  confined ok (@throw A t).
Proof. intros c. split; [apply wiredAs_refl | reflexivity]. Qed.

Lemma confined_this (ok : Event -> bool) : confined ok this.
Proof. intros c. split; [apply wiredAs_refl | reflexivity]. Qed.

Lemma confined_emit (ok : Event -> bool) (e : Event) :
  ok e = true -> confined ok (emit e).
Proof. intros H c. split; [apply wiredAs_refl | cbn; now rewrite H]. Qed.

Lemma confined_modify (ok : Event -> bool)
      (f : GeminiLiveClient -> GeminiLiveClient) :
  (forall c, wiredAs c (f c)) -> confined ok (modify f).
Proof. intros H c. split; [apply H | reflexivity]. Qed.

Lemma confined_bind (ok : Event -> bool) (A B : Type) (m : M A) (k : A -> M B) :
  confined ok m -> (forall a, confined ok (k a)) -> confined ok (bind m k).
Proof.
  intros Hm Hk c. unfold bind. specialize (Hm c).
  destruct (m c) as [[[a|t] c1] ev1]; [|exact Hm].
  specialize (Hk a c1). destruct (k a c1) as [[r c2] ev2].
  destruct Hm as [W1 E1], Hk as [W2 E2].
  split; [exact (wiredAs_trans _ _ _ W1 W2)|].
  now rewrite forallb_app, E1, E2.
Qed.

Lemma confined_forEach (ok : Event -> bool) (A : Type) (f : A -> M unit)
      (l : list A) :
  (forall x, confined ok (f x)) -> confined ok (forEach f l).
Proof.
  intros H. induction l as [|x l IH]; cbn [forEach].
  - apply confined_ret.
  - apply confined_bind; [apply H | intros _; exact IH].
Qed.

Lemma confined_weaken (ok ok' : Event -> bool) (A : Type) (m : M A) :
  (forall e, ok e = true -> ok' e = true) -> confined ok m -> confined ok' m.
Proof.
  intros H Hm c. specialize (Hm c). destruct (m c) as [[r c'] evs].
  destruct Hm as [W E]. split; [exact W|].
  apply forallb_forall. intros e He. apply H.
  exact (proj1 (forallb_forall _ _) E e He).
Qed.

Lemma confined_apart (ok : Event -> bool) (A : Type) (m : M A) :
  confined ok m -> confined ok (apart m).
Proof.
  intros Hm c. unfold apart. specialize (Hm c).
  destruct (m c) as [[r c'] evs]. exact Hm.
Qed.

Lemma callOnMessage_confined (r : Role) (t : jsstring) :
  confined ofFrame (callOnMessage r t).
Proof.
  apply confined_bind; [apply confined_this|]. intros c0.
  destruct (onMessage c0); [|apply confined_ret].
  apply confined_bind.
  - apply confined_modify. intros c. destruct c. repeat split.
  - intros _. now apply confined_emit.
Qed.

Lemma drainLoop_confined (l : nat) (q : list ArrayBuffer) :
  confined ofFrame (drainLoop l q).
Proof.
  induction q as [|a q IH]; cbn [drainLoop].
  - apply confined_modify. intros c. destruct c. repeat split.
  - apply confined_bind;
      [apply confined_modify; intros c; destruct c; repeat split|].
    intros _. apply confined_bind; [apply confined_this|]. intros c0.
    destruct (canPlay (audioContext c0) a).
    + apply confined_bind; [now apply confined_emit|].
      intros _. apply confined_modify. intros c. destruct c. repeat split.
    + apply confined_bind; [now apply confined_emit | intros _; exact IH].
Qed.

Lemma playQueuedAudio_confined : confined ofFrame playQueuedAudio.
Proof.
  apply confined_bind; [apply confined_this|]. intros c0.
  destruct (isPlaying c0 || (N.of_nat (List.length (audioQueue c0)) =? 0)
            || match audioContext c0 with None => true | Some _ => false end);
    [apply confined_ret|].
  apply confined_bind;
    [apply confined_modify; intros c; destruct c; repeat split|].
  intros _. apply confined_bind;
    [apply confined_modify; intros c; destruct c; repeat split|].
  intros _. apply drainLoop_confined.
Qed.

Lemma handlePart_confined (part : Part) : confined ofFrame (handlePart part).
Proof.
  unfold handlePart. apply confined_bind.
  - destruct (text part) as [t|]; [|apply confined_ret].
    destruct (truthy t); [apply callOnMessage_confined | apply confined_ret].
  - intros _. destruct (inlineData part) as [blob|]; [|apply confined_ret].
    destruct (data blob) as [d|], (mimeType blob) as [mt|];
      try apply confined_ret.
    destruct (truthy d && startsWith mt (lit "audio/")); [|apply confined_ret].
    apply confined_bind.
    + unfold Gemini.base64ToArrayBuffer.
      destruct (Base64.base64ToArrayBuffer d);
        [apply confined_ret | apply confined_throw].
    + intros audioData. unfold queueAudio.
      apply confined_bind; [apply confined_this|]. intros c0.
      apply confined_modify. intros c. destruct c. repeat split.
Qed.

(** Whatever the frame, [handleMessage] leaves the session, the audio
    context and the handlers of the client as they are, and calls nothing but
    [onMessage] and the audio device. *)
Lemma handleMessage_confined (message : LiveServerMessage) :
  confined ofFrame (handleMessage message).
Proof.
  unfold handleMessage.
  destruct (setupComplete message); [apply confined_ret|].
  destruct (serverContent message) as [sc|]; [|apply confined_ret].
  destruct (truthyBool (interrupted sc)); [apply confined_ret|].
  destruct (truthyBool (turnComplete sc)); [apply playQueuedAudio_confined|].
  destruct (modelTurn sc) as [turn|]; [|apply confined_ret].
  destruct (parts turn) as [ps|]; [|apply confined_ret].
  apply confined_forEach. apply handlePart_confined.
Qed.

Lemma liveCallback_confined (cb : LiveCallback) :
  confined (mayReport cb) (liveCallback cb).
Proof.
  destruct cb as [|message|errorMessage|event]; cbn [liveCallback].
  - apply confined_bind; [apply confined_this|]. intros c0.
    destruct (onStatusChange c0); [now apply confined_emit | apply confined_ret].
  - apply (confined_weaken ofFrame); [intros e He; exact He|].
    apply handleMessage_confined.
  - apply confined_bind; [apply confined_this|]. intros c0.
    destruct (onError c0); [now apply confined_emit | apply confined_ret].
  - unfold onclose. apply confined_bind.
    + destruct (negb (code event =? 1000)); [|apply confined_ret].
      apply confined_bind; [apply confined_this|]. intros c0.
      destruct (onError c0); [now apply confined_emit | apply confined_ret].
    + intros _. apply confined_bind; [apply confined_this|]. intros c0.
      destruct (onStatusChange c0); [now apply confined_emit | apply confined_ret].
Qed.

(** The callbacks that run while [connect] waits: they return to the SDK,
    leave the wiring of the client alone, and each call made is one that some
    callback of the list can make. *)
Lemma meanwhile_calls (during : list LiveCallback) :
  forall c : GeminiLiveClient,
    exists c' evs,
      meanwhile (map SdkCalls during) c = (Ok tt, c', evs)
      /\ wiredAs c c'
      /\ Forall (fun e => exists cb, In cb during /\ mayReport cb e = true) evs.
Proof.
  induction during as [|cb during IH]; intros c.
  - exists c, []. repeat split. constructor.
  - cbn [map]. unfold meanwhile in *. cbn [forEach]. unfold bind at 1.
    pose proof (liveCallback_confined cb c) as Hcb. unfold apart at 1.
    destruct (liveCallback cb c) as [[r c1] ev1]. destruct Hcb as [W1 E1].
    destruct (IH c1) as (c' & ev2 & E & W2 & F2). rewrite E.
    exists c', (ev1 ++ ev2).
    split; [reflexivity|].
    split; [exact (wiredAs_trans _ _ _ W1 W2)|].
    apply Forall_app. split.
    + apply Forall_forall. intros e He. exists cb. split; [now left|].
      exact (proj1 (forallb_forall _ _) E1 e He).
    + eapply Forall_impl; [|exact F2].
      intros e (cb' & Hin & Hm). exists cb'. split; [now right | exact Hm].
Qed.

(** Whatever runs while [connect] waits returns, and leaves the handlers of
    the client installed as they were. *)
Lemma meanwhile_returns (during : list Meanwhile) :
  forall c : GeminiLiveClient,
    exists c' evs,
      meanwhile during c = (Ok tt, c', evs)
      /\ onMessage c' = onMessage c
      /\ onError c' = onError c
      /\ onStatusChange c' = onStatusChange c.
Proof.
  induction during as [|x during IH]; intros c.
  - exists c, []. repeat split.
  - unfold meanwhile in *. cbn [forEach]. unfold bind at 1.
    assert (H1 : exists c1 ev1,
               (match x with
                | SdkCalls cb => apart (liveCallback cb)
                | OwnerDisconnects a b => apart (disconnect a b)
                end) c = (Ok tt, c1, ev1)
               /\ onMessage c1 = onMessage c
               /\ onError c1 = onError c
               /\ onStatusChange c1 = onStatusChange c).
    { destruct x as [cb | a b]; unfold apart.
      - pose proof (liveCallback_confined cb c) as Hcb.
        destruct (liveCallback cb c) as [[r c1] ev1].
        destruct Hcb as [(_ & _ & _ & Hm & He & Hs) _].
        exists c1, ev1. repeat split; assumption.
      - rewrite disconnect_eq. do 2 eexists. split; [reflexivity|].
        destruct c; repeat split. }
    destruct H1 as (c1 & ev1 & E1 & Hm1 & He1 & Hs1). rewrite E1.
    destruct (IH c1) as (c' & ev2 & E2 & Hm2 & He2 & Hs2). rewrite E2.
    exists c', (ev1 ++ ev2). repeat split; congruence.
Qed.

(** [connect], once what ran meanwhile is known: the calls of its first
    lines, those made meanwhile, and then either the session stored in
    silence or the failure reported and thrown on. *)
Lemma connect_unfold (during : list Meanwhile) (liveConnect : Result Session)
      (apiKey : jsstring) (c c1 : GeminiLiveClient) (evd : list Event) :
  meanwhile during
            (set_audioContext (Some {| sampleRate := 24000 |})
                              (set_client (Some apiKey) c))
  = (Ok tt, c1, evd) ->
  onError c1 = onError c ->
  onStatusChange c1 = onStatusChange c ->
  Gemini.connect during liveConnect apiKey c
  = match liveConnect with
    | Ok s =>
        (Ok tt, set_session (Some s) c1,
         (if onStatusChange c then [OnStatusChange connecting] else [])
         ++ LiveConnect apiKey :: evd)
    | Throw t =>
        (Throw t, c1,
         (if onStatusChange c then [OnStatusChange connecting] else [])
         ++ LiveConnect apiKey :: evd
         ++ (if onError c then [OnError (asErrorMessage t)] else [])
         ++ (if onStatusChange c then [OnStatusChange disconnected] else []))
    end.
Proof.
  intros E He Hs.
  destruct c as [cl se ac q pl om oe os dr bg dw].
  cbn [set_audioContext set_client client session audioContext audioQueue
       isPlaying onMessage onError onStatusChange drains begun drawn] in *.
  unfold Gemini.connect, tryCatch, callOnStatusChange, callOnError, bind,
    this, modify, emit, ret, throw.
  cbn [set_audioContext set_client client session audioContext audioQueue
       isPlaying onMessage onError onStatusChange drains begun drawn].
  destruct os; cbn [app set_audioContext set_client client session
                    audioContext audioQueue isPlaying onMessage onError
                    onStatusChange drains begun drawn];
    rewrite E; destruct liveConnect as [s|t]; destruct oe;
    do 3 (cbn; rewrite ?He, ?Hs); rewrite ?app_nil_r; reflexivity.
Qed.

End CallbackFacts.

(* ================================================================== *)
(** * The component and its client: connecting and closing *)

Section ConnectionFacts.

Lemma handler_clientRef (e : Event) (s : State) :
  clientRef (handler e s) = clientRef s.
Proof.
  destruct s as [ms it st rec ce rc cr cap].
  destruct e as [m|m|[]|k| | |t|l a|l a]; try reflexivity.
  destruct cap; reflexivity.
Qed.

Lemma handlers_clientRef (evs : list Event) :
  forall s, clientRef (fold_left (fun s e => handler e s) evs s) = clientRef s.
Proof.
  induction evs as [|e evs IH]; intros s; [reflexivity|].
  cbn [fold_left]. now rewrite IH, handler_clientRef.
Qed.

(** Of the calls of a client, only [onStatusChange('connected')] makes the
    status of the component 'connected'. *)
Lemma handlers_connected (evs : list Event) :
  forall s,
    status (fold_left (fun s e => handler e s) evs s) = StatusConnected ->
    In (OnStatusChange connected) evs \/ status s = StatusConnected.
Proof.
  induction evs as [|e evs IH]; intros s H; [now right|].
  cbn [fold_left] in H. destruct (IH _ H) as [Hin | Hst].
  - left. now right.
  - destruct s as [ms it st rec ce rc cr cap].
    destruct e as [m|m|[]|k| | |t|l a|l a]; cbn in Hst;
      try (right; exact Hst); try discriminate Hst;
      try (left; left; reflexivity).
Qed.

(** [connect] of the component with a key, once what the callbacks did
    meanwhile is known. *)
Lemma connect_with_key (key : jsstring) (during : list LiveCallback)
      (liveConnect : Result Session) (s : State) :
  key <> [] ->
  exists c1 evd,
    wiredAs (set_audioContext (Some {| sampleRate := 24000 |})
               (set_client (Some key) (set_handlers true true true newClient)))
            c1
    /\ Forall (fun e => exists cb, In cb during /\ mayReport cb e = true) evd
    /\ (during = [] ->
        evd = []
        /\ c1 = set_audioContext (Some {| sampleRate := 24000 |})
                  (set_client (Some key) (set_handlers true true true newClient)))
    /\ VoiceChat.connect (Some key) during liveConnect s
       = let s0 :=
           setCaptured (status s)
             (setStatus StatusConnecting (setConnectionError None s)) in
         match liveConnect with
         | Ok sess =>
             (fold_left (fun s e => handler e s)
                        (OnStatusChange connecting :: LiveConnect key :: evd)
                        (setClientRef (Some (set_session (Some sess) c1)) s0),
              OnStatusChange connecting :: LiveConnect key :: evd)
         | Throw t =>
             (setStatus StatusError
                (setConnectionError (Some (parseError (rawError t)))
                   (fold_left (fun s e => handler e s)
                      (OnStatusChange connecting :: LiveConnect key :: evd
                       ++ [OnError (asErrorMessage t); OnStatusChange disconnected])
                      (setClientRef (Some c1) s0))),
              OnStatusChange connecting :: LiveConnect key :: evd
              ++ [OnError (asErrorMessage t); OnStatusChange disconnected])
         end.
Proof.
  intros Hkey. destruct key as [|x key]; [congruence|].
  destruct (meanwhile_calls during
              (set_audioContext (Some {| sampleRate := 24000 |})
                 (set_client (Some (x :: key))
                    (set_handlers true true true newClient))))
    as (c1 & evd & E & W & F).
  exists c1, evd.
  split; [exact W|]. split; [exact F|].
  split.
  { intros ->. cbn in E. injection E as <- <-. split; reflexivity. }
  unfold VoiceChat.connect, getApiConfig. cbn [truthy].
  rewrite (connect_unfold _ liveConnect _ _ c1 evd E);
    [|apply W|apply W].
  destruct s as [ms it st rec ce rc cr cap].
  destruct liveConnect as [sess|t]; reflexivity.
Qed.

(** X3: [live.connect] is reached exactly when the server holds a key that
    is not empty, and the key it is given is that key, unchanged; this
    whatever the callbacks that the SDK calls meanwhile. *)
Theorem connect_reaches_transport
        (env : option jsstring) (during : list LiveCallback)
        (liveConnect : Result Session) (s : State) (k : jsstring) :
  In (LiveConnect k) (snd (VoiceChat.connect env during liveConnect s))
  <-> env = Some k /\ k <> [].
Proof.
  destruct env as [[|x key]|].
  - split; [intros [] | intros [H1 H2]; injection H1 as <-; congruence].
  - destruct (connect_with_key (x :: key) during liveConnect s)
      as (c1 & evd & _ & F & _ & E); [discriminate|].
    rewrite E. clear E.
    assert (Hd : ~ In (LiveConnect k) evd).
    { intros Hin. destruct (proj1 (Forall_forall _ _) F _ Hin) as (cb & _ & Hm).
      destruct cb; discriminate Hm. }
    split.
    + intros Hin.
      assert (Hk : LiveConnect (x :: key) = LiveConnect k).
      { destruct liveConnect as [sess|t]; cbn [snd] in Hin;
          destruct Hin as [H|[H|Hin]]; try discriminate H; try exact H.
        - contradiction.
        - apply in_app_or in Hin as [Hin|[H|[H|[]]]];
            [contradiction | discriminate H | discriminate H]. }
      injection Hk as <-. split; [reflexivity | discriminate].
    + intros [H _]. injection H as <-.
      destruct liveConnect; cbn [snd]; right; left; reflexivity.
  - split; [intros [] | intros [H _]; discriminate H].
Qed.

(** X4: when the component becomes 'connected'.  [connect] itself never
    sets that status: it comes from the [onopen] callback of the client.
    - The SDK calls [onopen] before it resolves the promise of
      [live.connect]: then [connect] leaves the component 'connected', without
      an error and with a retry count of zero, holding a client with the
      session and with the three handlers installed.
    - Were no callback called meanwhile, [connect] would leave the component
      'connecting', and 'connected' would come with [onopen] afterwards.
    - Whatever the key, the callbacks and the outcome, the status is
      'connected' when [connect] returns only if [onopen] was called
      meanwhile and [live.connect] resolved. *)
Theorem connect_then_open
        (key : jsstring) (sess : Session) (s : State)
        (stream : option Component.MediaStream) :
  key <> [] ->
  (exists s1 client,
      VoiceChat.connect (Some key) [Onopen] (Ok sess) s
      = (s1, [OnStatusChange connecting; LiveConnect key;
              OnStatusChange connected])
      /\ status s1 = StatusConnected
      /\ connectionError s1 = None
      /\ retryCount s1 = 0%nat
      /\ clientRef s1 = Some client
      /\ session client = Some sess
      /\ (onMessage client && onError client && onStatusChange client = true))
  /\ (exists s1 client,
         VoiceChat.connect (Some key) [] (Ok sess) s
         = (s1, [OnStatusChange connecting; LiveConnect key])
         /\ status s1 = StatusConnecting
         /\ connectionError s1 = None
         /\ clientRef s1 = Some client
         /\ session client = Some sess
         /\ (onMessage client && onError client && onStatusChange client = true)
         /\ exists s2,
             Component.onCallback Component.CbOpen
                                  {| Component.ui := s1;
                                     Component.audioStreamRef := stream |}
             = ({| Component.ui := s2; Component.audioStreamRef := stream |},
                [Component.ClientCall (OnStatusChange connected)])
             /\ status s2 = StatusConnected
             /\ connectionError s2 = None
             /\ retryCount s2 = 0%nat)
  /\ (forall env during liveConnect,
         status (fst (VoiceChat.connect env during liveConnect s))
         = StatusConnected ->
         In Onopen during /\ exists sess', liveConnect = Ok sess').
Proof.
  intros Hkey. split; [|split].
  - destruct key as [|x key]; [congruence|].
    do 2 eexists. split; [reflexivity|]. cbn. repeat split.
  - destruct key as [|x key]; [congruence|].
    do 2 eexists. split; [reflexivity|]. cbn.
    repeat split.
    eexists. split; [reflexivity|]. repeat split.
  - intros env during liveConnect H.
    destruct env as [[|x k]|]; try discriminate H.
    destruct (connect_with_key (x :: k) during liveConnect s)
      as (c1 & evd & _ & F & _ & E); [discriminate|].
    rewrite E in H. clear E.
    destruct liveConnect as [sess'|t]; [|discriminate H].
    split; [|now exists sess'].
    cbn [fst] in H.
    apply handlers_connected in H as [Hin | Hst]; [|discriminate Hst].
    destruct Hin as [H|[H|Hin]]; try discriminate H.
    destruct (proj1 (Forall_forall _ _) F _ Hin) as (cb & Hcb & Hm).
    destruct cb; try discriminate Hm. exact Hcb.
Qed.

Lemma connect_then_open_witness :
  exists s1 client,
    VoiceChat.connect (Some (lit "key")) [Onopen] (Ok 7%nat) initialState
    = (s1, [OnStatusChange connecting; LiveConnect (lit "key");
            OnStatusChange connected])
    /\ status s1 = StatusConnected
    /\ clientRef s1 = Some client
    /\ session client = Some 7%nat.
Proof.
  destruct (connect_then_open (lit "key") 7%nat initialState None)
    as ((s1 & client & E & Hst & _ & _ & Hc & Hs & _) & _).
  - discriminate.
  - exists s1, client. repeat split; assumption.
Defined.

(** X5: [connect] with a key, when [live.connect] throws.  Whatever was
    thrown and whatever the callbacks called meanwhile, the client reports
    what was thrown and then 'disconnected', the component ends with the
    status 'error' (the status 'disconnected' reported by the client does not
    stay) and shows the classification of what was thrown.  The client stays
    in [clientRef], without a session and with its audio context still
    allocated: [connect] does not close it. *)
Theorem connect_failure_reported
        (key : jsstring) (during : list LiveCallback) (thrown : Thrown)
        (s : State) :
  key <> [] ->
  exists s1 client evd,
    VoiceChat.connect (Some key) during (Throw thrown) s
    = (s1, [ OnStatusChange connecting; LiveConnect key ] ++ evd
           ++ [ OnError (asErrorMessage thrown); OnStatusChange disconnected ])
    /\ Forall (fun e => exists cb, In cb during /\ mayReport cb e = true) evd
    /\ (during = [] -> evd = [])
    /\ status s1 = StatusError
    /\ connectionError s1 = Some (parseError (rawError thrown))
    /\ clientRef s1 = Some client
    /\ session client = None
    /\ audioContext client = Some {| sampleRate := 24000 |}.
Proof.
  intros Hkey.
  destruct (connect_with_key key during (Throw thrown) s Hkey)
    as (c1 & evd & W & F & Hnil & E).
  rewrite E. clear E.
  eexists. exists c1, evd.
  split; [reflexivity|]. split; [exact F|].
  split; [intros H; exact (proj1 (Hnil H))|].
  split; [reflexivity|]. split; [reflexivity|].
  split.
  { cbn [clientRef setStatus setConnectionError].
    rewrite handlers_clientRef. destruct s; reflexivity. }
  destruct W as (Hs & Ha & _). split; [exact Hs | exact Ha].
Qed.

Lemma connect_failure_reported_witness :
  exists s1,
    VoiceChat.connect (Some (lit "key")) [] (Throw (OtherValue (lit "403")))
                      initialState
    = (s1, [ OnStatusChange connecting; LiveConnect (lit "key");
             OnError (lit "403"); OnStatusChange disconnected ])
    /\ status s1 = StatusError
    /\ connectionError s1 = Some authenticationError.
Proof.
  destruct (connect_failure_reported (lit "key") [] (OtherValue (lit "403"))
                                     initialState)
    as (s1 & client & evd & E & _ & Hnil & Hst & Hce & _).
  - discriminate.
  - exists s1. rewrite (Hnil eq_refl) in E.
    repeat split; assumption.
Defined.

Lemma closeMessage_classified (event : CloseEvent) :
  (code event = 1006 ->
   parseError (OfError (closeMessage event)) = connectionFailed)
  /\ (code event = 1008 \/ code event = 1011
      \/ (code event <> 1000 /\ code event <> 1006 /\ reason event = []) ->
      parseError (OfError (closeMessage event))
      = defaultError (closeMessage event)).
Proof.
  destruct event as [cd rs wc]. cbn [code reason]. split.
  - intros ->. reflexivity.
  - intros [-> | [-> | (H0 & H6 & ->)]]; try reflexivity.
    apply N.eqb_neq in H0, H6.
    unfold closeMessage. cbn [code reason truthy]. rewrite H0, H6.
    destruct (cd =? 1008), (cd =? 1011); reflexivity.
Qed.

(** X6: a close of the socket, as the component sees it.  With the handlers
    of [connect] installed on its client, the component always ends
    'disconnected' (also after the 'error' that the close has just raised) and
    keeps its client.  The error shown is "Connection Lost" only if the
    handlers closed over the status 'connected'; otherwise a close with the
    code 1000 leaves the error as it was and any other close shows the
    classification of the close message: "Connection Failed" for 1006, and the
    default "Connection Error" carrying the hint for 1008 and 1011 and
    "Connection closed" for another code without a reason. *)
Theorem close_at_component
        (event : CloseEvent) (c : Component.Component) (client : GeminiLiveClient) :
  clientRef (Component.ui c) = Some client ->
  onError client = true ->
  onStatusChange client = true ->
  exists s',
    fst (Component.onCallback (Component.CbClose event) c)
    = {| Component.ui := s';
         Component.audioStreamRef := Component.audioStreamRef c |}
    /\ status s' = StatusDisconnected
    /\ clientRef s' = Some client
    /\ messages s' = messages (Component.ui c)
    /\ connectionError s'
       = (if isConnected (captured (Component.ui c)) then Some connectionLost
          else if code event =? 1000 then connectionError (Component.ui c)
               else Some (parseError (OfError (closeMessage event))))
    /\ (code event = 1006 ->
        parseError (OfError (closeMessage event)) = connectionFailed)
    /\ (code event = 1008 \/ code event = 1011
        \/ (code event <> 1000 /\ code event <> 1006 /\ reason event = []) ->
        parseError (OfError (closeMessage event))
        = defaultError (closeMessage event)).
Proof.
  intros Hc He Hs.
  destruct c as [[ms it st rec ce rc cr cap] stream].
  cbn [Component.ui Component.audioStreamRef clientRef captured messages
       connectionError] in *.
  subst cr.
  destruct client as [cl se ac q pl om oe os dr bg dw].
  cbn [onError onStatusChange] in He, Hs. subst oe os.
  unfold Component.onCallback, Component.callback, onclose, callOnError,
    callOnStatusChange, bind, this, emit, ret.
  cbn [Component.ui clientRef onError onStatusChange].
  destruct (closeMessage_classified event) as [H1006 Hdefault].
  destruct (code event =? 1000) eqn:E1000, cap;
    (eexists; split; [cbn; reflexivity|]); cbn;
    repeat split; assumption.
Qed.

End ConnectionFacts.

Lemma close_at_component_witness :
  exists s',
    fst (Component.onCallback
           (Component.CbClose {| code := 1006; reason := []; wasClean := false |})
           {| Component.ui :=
                setStatus StatusConnected
                          (setClientRef (Some liveClient) initialState);
              Component.audioStreamRef := None |})
    = {| Component.ui := s'; Component.audioStreamRef := None |}
    /\ status s' = StatusDisconnected
    /\ connectionError s' = Some connectionFailed.
Proof.
  destruct (close_at_component
              {| code := 1006; reason := []; wasClean := false |}
              {| Component.ui :=
                   setStatus StatusConnected
                             (setClientRef (Some liveClient) initialState);
                 Component.audioStreamRef := None |}
              liveClient eq_refl eq_refl eq_refl)
    as (s' & E & Hst & _ & _ & Hce & H1006 & _).
  exists s'. split; [exact E|]. split; [exact Hst|].
  rewrite Hce. reflexivity.
Defined.

(* ================================================================== *)
(** * disconnect while connect waits *)

Section PendingConnect.

Lemma meanwhile_app (l1 l2 : list Meanwhile) :
  forall (c c1 c2 : GeminiLiveClient) (ev1 ev2 : list Event),
    meanwhile l1 c = (Ok tt, c1, ev1) ->
    meanwhile l2 c1 = (Ok tt, c2, ev2) ->
    meanwhile (l1 ++ l2) c = (Ok tt, c2, ev1 ++ ev2).
Proof.
  induction l1 as [|x l1 IH]; intros c c1 c2 ev1 ev2 E1 E2.
  - cbn in E1. injection E1 as <- <-. exact E2.
  - unfold meanwhile in *. cbn [app forEach] in *.
    unfold bind at 1. unfold bind at 1 in E1.
    destruct (match x with
              | SdkCalls cb => apart (liveCallback cb)
              | OwnerDisconnects a b => apart (disconnect a b)
              end c) as [[[u|t] c0] ev0]; [|discriminate E1].
    destruct (forEach _ l1 c0) as [[r1 c1'] ev1'] eqn:El1.
    injection E1 as -> -> <-.
    rewrite (IH c0 c1 c2 ev1' ev2 El1 E2). now rewrite app_assoc.
Qed.

(** [onopen] among the callbacks called on a client whose [onStatusChange]
    handler is installed: 'connected' is reported. *)
Lemma meanwhile_onopen (during : list LiveCallback) :
  forall (c c' : GeminiLiveClient) (evs : list Event),
    meanwhile (map SdkCalls during) c = (Ok tt, c', evs) ->
    onStatusChange c = true ->
    In Onopen during ->
    In (OnStatusChange connected) evs.
Proof.
  induction during as [|cb during IH]; intros c c' evs E Hs Hin; [contradiction|].
  cbn [map] in E. unfold meanwhile in *. cbn [forEach] in E.
  unfold bind at 1 in E. unfold apart at 1 in E.
  pose proof (liveCallback_confined cb c) as Hcb.
  destruct (liveCallback cb c) as [[r c1] ev1] eqn:Ecb.
  destruct Hcb as [(_ & _ & _ & _ & _ & Hs1) _].
  destruct (forEach _ (map SdkCalls during) c1) as [[r2 c2] ev2] eqn:E2.
  injection E as _ _ <-.
  apply in_or_app.
  destruct Hin as [-> | Hin].
  - left. cbn [liveCallback] in Ecb.
    unfold onopen, callOnStatusChange, bind, this, emit in Ecb.
    rewrite Hs in Ecb. cbn in Ecb. injection Ecb as _ _ <-. now left.
  - right. destruct (meanwhile_calls during c1) as (c2' & ev2' & E2' & _).
    unfold meanwhile in E2'. rewrite E2 in E2'. injection E2' as -> _ _.
    apply (IH c1 c2 ev2 E2); [congruence | exact Hin].
Qed.

(** X21: [disconnect] while [connect] waits for [live.connect], on a client
    that had no session.  Whatever callbacks the SDK calls before and after,
    [disconnect] closes the audio context and no session, and when the promise
    resolves [connect] stores the session: the client ends with a session
    that nothing closed and without an audio context.  If the SDK calls
    [onopen] after the [disconnect], the client reports 'connected' after it
    reported 'disconnected'. *)
Theorem disconnect_while_connecting
        (before later : list LiveCallback) (closed1 closed2 : Result unit)
        (sess : Session) (key : jsstring) (c : GeminiLiveClient) :
  session c = None ->
  exists c' evs,
    Gemini.connect (map SdkCalls before
                    ++ OwnerDisconnects closed1 closed2 :: map SdkCalls later)
                   (Ok sess) key c
    = (Ok tt, c', evs)
    /\ session c' = Some sess
    /\ audioContext c' = None
    /\ ~ In SessionClose evs
    /\ In AudioContextClose evs
    /\ (onStatusChange c = true ->
        In Onopen later ->
        exists evs1 evs2,
          evs = evs1 ++ OnStatusChange disconnected :: evs2
          /\ In (OnStatusChange connected) evs2).
Proof.
  intros Hse.
  set (c0 := set_audioContext (Some {| sampleRate := 24000 |})
                              (set_client (Some key) c)).
  destruct (meanwhile_calls before c0) as (cb & evb & Eb & Wb & Fb).
  destruct Wb as (Wb1 & Wb2 & _ & _ & Wb5 & Wb6).
  assert (Hc0 : session c0 = None /\ audioContext c0 = Some {| sampleRate := 24000 |}
                /\ onError c0 = onError c /\ onStatusChange c0 = onStatusChange c)
    by (subst c0; destruct c; cbn in *; repeat split; assumption).
  destruct Hc0 as (Hc01 & Hc02 & Hc05 & Hc06).
  set (cd := set_isPlaying false
               (set_audioQueue [] (set_audioContext None (set_session None cb)))).
  assert (Ed : meanwhile [OwnerDisconnects closed1 closed2] cb
               = (Ok tt, cd,
                  AudioContextClose
                  :: (if onStatusChange c then [OnStatusChange disconnected]
                      else []))).
  { unfold meanwhile. cbn [forEach]. unfold bind, apart.
    rewrite disconnect_eq. rewrite Wb1, Wb2, Wb6, Hc01, Hc02, Hc06. cbn.
    now rewrite app_nil_r. }
  destruct (meanwhile_calls later cd) as (cl & evl & El & Wl & Fl).
  destruct Wl as (Wl1 & Wl2 & _ & _ & Wl5 & Wl6).
  assert (Hcd : audioContext cd = None /\ onError cd = onError c
                /\ onStatusChange cd = onStatusChange c)
    by (subst cd; destruct cb; cbn in *; repeat split; congruence).
  destruct Hcd as (Hcd2 & Hcd5 & Hcd6).
  pose proof (meanwhile_app _ _ _ _ _ _ _ Eb
                (meanwhile_app _ _ _ _ _ _ _ Ed El)) as Eall.
  cbn [app] in Eall.
  rewrite (connect_unfold _ (Ok sess) key c cl _ Eall);
    [|congruence|congruence].
  do 2 eexists. split; [reflexivity|].
  assert (Hnot : forall evd during,
             Forall (fun e => exists cb0, In cb0 during /\ mayReport cb0 e = true)
                    evd ->
             ~ In SessionClose evd).
  { intros evd during F Hin.
    destruct (proj1 (Forall_forall _ _) F _ Hin) as (cb0 & _ & Hm).
    destruct cb0; discriminate Hm. }
  split; [destruct cl; reflexivity|].
  split; [destruct cl; cbn in *; congruence|].
  split.
  { intros Hin. apply in_app_or in Hin as [Hin | [H | Hin]].
    - destruct (onStatusChange c); [destruct Hin as [H|[]]; discriminate H | contradiction].
    - discriminate H.
    - apply in_app_or in Hin as [Hin | [H | Hin]].
      + exact (Hnot _ _ Fb Hin).
      + discriminate H.
      + apply in_app_or in Hin as [Hin | Hin].
        * destruct (onStatusChange c); [destruct Hin as [H|[]]; discriminate H | contradiction].
        * exact (Hnot _ _ Fl Hin). }
  split.
  { apply in_or_app. right. right. apply in_or_app. right. now left. }
  intros Hs Hopen. rewrite Hs.
  exists ([OnStatusChange connecting] ++ LiveConnect key :: evb
          ++ [AudioContextClose]), evl.
  split.
  - cbn [app]. f_equal. f_equal. rewrite <- app_assoc. reflexivity.
  - apply (meanwhile_onopen later cd cl evl El); [congruence | exact Hopen].
Qed.

Lemma disconnect_while_connecting_witness :
  exists c' evs,
    Gemini.connect [ OwnerDisconnects (Ok tt) (Ok tt); SdkCalls Onopen ]
                   (Ok 7%nat) (lit "key") (set_handlers true true true newClient)
    = (Ok tt, c', evs)
    /\ session c' = Some 7%nat
    /\ audioContext c' = None
    /\ ~ In SessionClose evs.
Proof.
  destruct (disconnect_while_connecting
              [] [Onopen] (Ok tt) (Ok tt) 7%nat (lit "key")
              (set_handlers true true true newClient) eq_refl)
    as (c' & evs & E & Hs & Ha & Hn & _).
  exists c', evs. repeat split; assumption.
Defined.

End PendingConnect.

(* ================================================================== *)
(** * The component: disconnecting, the microphone, sending *)

Section ComponentMore.

(** X7: [disconnect] of the component, from any state and whatever the two
    [close()] calls of the client do.  Afterwards the component holds no
    client and no stream, is not recording and shows no error; the messages
    and the input text are kept.  With a client whose [onStatusChange] handler
    is installed the status ends 'disconnected'; without a client the status
    is left as it was and no call goes out to a client.  A second [disconnect]
    changes nothing and makes no call. *)
Theorem component_disconnect
        (closed1 closed2 closed1' closed2' : Result unit)
        (c : Component.Component) :
  exists c1 calls,
    Component.disconnect closed1 closed2 c = (c1, calls)
    /\ clientRef (Component.ui c1) = None
    /\ Component.audioStreamRef c1 = None
    /\ isRecording (Component.ui c1) = false
    /\ connectionError (Component.ui c1) = None
    /\ messages (Component.ui c1) = messages (Component.ui c)
    /\ inputText (Component.ui c1) = inputText (Component.ui c)
    /\ (forall client,
           clientRef (Component.ui c) = Some client ->
           onStatusChange client = true ->
           status (Component.ui c1) = StatusDisconnected)
    /\ (clientRef (Component.ui c) = None ->
        status (Component.ui c1) = status (Component.ui c)
        /\ forall e, ~ In (Component.ClientCall e) calls)
    /\ Component.disconnect closed1' closed2' c1 = (c1, []).
Proof.
  destruct c as [[ms it st rec ce rc cr cap] stream].
  destruct cr as [[cl se ac q pl om oe os dr bg dw]|].
  - unfold Component.disconnect, Gemini.disconnect, closeCall, tryCatch,
      callOnStatusChange, bind, this, modify, emit, ret, throw.
    destruct se, ac, os, closed1, closed2, cap, stream; cbn;
      (do 2 eexists; split; [reflexivity|]); cbn;
      repeat split; try discriminate;
      try (intros ? H1 H2; injection H1 as <-; cbn in H2;
           first [discriminate H2 | reflexivity]).
  - unfold Component.disconnect.
    destruct stream; cbn;
      (do 2 eexists; split; [reflexivity|]); cbn;
      repeat split; try discriminate; intros; try intro;
      repeat match goal with
             | H : _ \/ _ |- _ => destruct H
             | H : Component.StopTracks _ = Component.ClientCall _ |- _ =>
                 discriminate H
             | H : False |- _ => destruct H
             end.
Qed.

(** X8: [toggleRecording].  Without a client, or when the status is not
    'connected', it does nothing.  When starting the stream fails, whatever
    the failure, the component shows "Microphone Access Denied", recoverable,
    and its status, its client and its recording flag are as before.  When
    starting succeeds the component records and holds the stream; toggling
    again stops the tracks of that same stream and the component is back as
    it was before the first toggle. *)
Theorem toggleRecording_outcomes
        (started : Result Component.MediaStream) (stopped : Result unit)
        (c : Component.Component) :
  (clientRef (Component.ui c) = None \/ status (Component.ui c) <> StatusConnected ->
   Component.toggleRecording started stopped c = (c, []))
  /\ (forall client,
         clientRef (Component.ui c) = Some client ->
         status (Component.ui c) = StatusConnected ->
         isRecording (Component.ui c) = false ->
         (forall t,
             started = Throw t ->
             Component.toggleRecording started stopped c
             = ({| Component.ui :=
                     setConnectionError (Some Component.microphoneDenied)
                                        (Component.ui c);
                   Component.audioStreamRef := Component.audioStreamRef c |},
                [Component.StartAudioStream])
             /\ recoverable Component.microphoneDenied = true)
         /\ (forall stream,
                started = Ok stream ->
                Component.audioStreamRef c = None ->
                exists c1,
                  Component.toggleRecording started stopped c
                  = (c1, [Component.StartAudioStream])
                  /\ isRecording (Component.ui c1) = true
                  /\ Component.audioStreamRef c1 = Some stream
                  /\ Component.toggleRecording started (Ok tt) c1
                     = (c, [Component.StopAudioStream;
                            Component.StopTracks stream]))).
Proof.
  destruct c as [[ms it st rec ce rc cr cap] stream0].
  cbn [Component.ui Component.audioStreamRef clientRef status isRecording].
  split.
  - intros [-> | H]; [reflexivity|].
    unfold Component.toggleRecording. cbn.
    destruct cr; [|reflexivity].
    destruct st; try reflexivity. congruence.
  - intros client -> -> ->. split.
    + intros t ->. split; reflexivity.
    + intros stream -> ->. eexists. split; [reflexivity|].
      repeat split.
Qed.

Lemma toggleRecording_outcomes_witness :
  Component.toggleRecording
    (Throw (ErrorObject (lit "clientRef.current.startAudioStream is not a function")))
    (Ok tt)
    {| Component.ui :=
         setStatus StatusConnected (setClientRef (Some liveClient) initialState);
       Component.audioStreamRef := None |}
  = ({| Component.ui :=
          setConnectionError
            (Some Component.microphoneDenied)
            (setStatus StatusConnected
                       (setClientRef (Some liveClient) initialState));
        Component.audioStreamRef := None |},
     [Component.StartAudioStream]).
Proof.
  destruct (toggleRecording_outcomes
              (Throw (ErrorObject
                        (lit "clientRef.current.startAudioStream is not a function")))
              (Ok tt)
              {| Component.ui :=
                   setStatus StatusConnected
                             (setClientRef (Some liveClient) initialState);
                 Component.audioStreamRef := None |}) as [_ H].
  destruct (H liveClient eq_refl eq_refl eq_refl) as [Hfail _].
  destruct (Hfail _ eq_refl) as [E _]. exact E.
Defined.

(** X9: [sendMessage] with a text to send, on a component that is
    'connected' and holds a client with an open session and its [onMessage]
    handler.  The trimmed text is shown as a user message and handed to the
    session, in that order, whether the session accepts it or not.  When the
    session accepts, the input is cleared; when it throws, the input is kept,
    the user message stays in the list, the status stays 'connected' and the
    error shown is the classification of what was thrown. *)
Theorem sendMessage_outcomes
        (sent : Result unit) (s : State) (client : GeminiLiveClient)
        (sess : Session) :
  clientRef s = Some client ->
  session client = Some sess ->
  onMessage client = true ->
  status s = StatusConnected ->
  trim (inputText s) <> [] ->
  exists s',
    sendMessage sent s
    = (s', [ OnMessage {| id := drawn client; role := user;
                          content := trim (inputText s);
                          timestamp := drawn client |};
             SendClientContent (trim (inputText s)) ])
    /\ messages s'
       = messages s ++ [ {| id := drawn client; role := user;
                            content := trim (inputText s);
                            timestamp := drawn client |} ]
    /\ status s' = StatusConnected
    /\ match sent with
       | Ok _ => inputText s' = [] /\ connectionError s' = connectionError s
       | Throw t =>
           inputText s' = inputText s
           /\ connectionError s' = Some (parseError (rawError t))
       end.
Proof.
  intros Hc Hs Hm Hst Ht.
  destruct s as [ms it st rec ce rc cr cap].
  cbn [clientRef status inputText messages connectionError] in *. subst cr st.
  destruct client as [cl se ac q pl om oe os dr bg dw].
  cbn [session onMessage drawn] in *. subst se om.
  unfold sendMessage. cbn [clientRef inputText status isConnected negb orb].
  destruct (trim it) as [|x t'] eqn:Etrim; [congruence|].
  cbn [truthy negb orb].
  unfold sendText, sendClientContent, callOnMessage, tryCatch, bind, this,
    modify, emit, ret, throw.
  destruct sent; cbn; eexists; (split; [reflexivity|]); cbn; repeat split.
Qed.

Lemma sendMessage_outcomes_witness :
  exists s',
    sendMessage (Throw (ErrorObject (lit "network down")))
                (setStatus StatusConnected
                   (setClientRef (Some liveClient)
                      (setInputText (lit " hi ") initialState)))
    = (s', [ OnMessage {| id := 0; role := user; content := lit "hi";
                          timestamp := 0 |};
             SendClientContent (lit "hi") ])
    /\ inputText s' = lit " hi "
    /\ connectionError s' = Some connectionFailed.
Proof.
  destruct (sendMessage_outcomes
              (Throw (ErrorObject (lit "network down")))
              (setStatus StatusConnected
                 (setClientRef (Some liveClient)
                    (setInputText (lit " hi ") initialState)))
              liveClient 0%nat eq_refl eq_refl eq_refl eq_refl)
    as (s' & E & _ & _ & Hin & Hce).
  - discriminate.
  - exists s'. repeat split; assumption.
Defined.

End ComponentMore.

(* ================================================================== *)
(** * What the component never reaches *)

Section ComponentInvariant.

Lemma parseError_not_lost (error : RawError) :
  parseError error <> connectionLost.
Proof.
  unfold parseError. cbv zeta.
  repeat match goal with
         | |- context [if ?b then _ else _] => destruct b
         end; discriminate.
Qed.

Lemma handler_steady (e : Event) (s : State) :
  steady s -> steady (handler e s).
Proof.
  destruct s as [ms it st rec ce rc cr cap].
  unfold steady. cbn. intros (Hrc & Hcap & Hce).
  destruct e as [m | m | [| |] | | | | | |]; cbn; repeat split; auto;
    try discriminate.
  - intros H. injection H as H. exact (parseError_not_lost _ H).
  - destruct cap; cbn; auto; congruence.
  - destruct cap; cbn; auto; congruence.
  - destruct cap; cbn; auto; congruence.
Qed.

Lemma deliver_steady (evs : list Event) :
  forall s, steady s -> steady (Component.deliver evs s).
Proof.
  induction evs as [|e evs IH]; intros s Hs; [exact Hs|].
  cbn. apply IH, handler_steady, Hs.
Qed.

Lemma connect_steady (env : option jsstring) (during : list LiveCallback)
      (liveConnect : Result Session) (s : State) :
  steady s -> status s <> StatusConnected ->
  steady (fst (VoiceChat.connect env during liveConnect s)).
Proof.
  intros (Hrc & Hcap & Hce) Hst.
  unfold VoiceChat.connect.
  destruct (getApiConfig env) as [apiKey | err].
  - destruct (Gemini.connect _ liveConnect apiKey _) as [[r client'] evs].
    match goal with
    | |- context [fold_left _ evs ?s0] =>
        assert (H0 : steady (Component.deliver evs s0))
    end.
    { apply deliver_steady. destruct s; unfold steady in *; cbn in *.
      repeat split; auto. discriminate. }
    unfold Component.deliver in H0.
    destruct r as [u | err]; cbn [fst]; [exact H0|].
    destruct H0 as (H1 & H2 & H3).
    match goal with
    | |- steady (setStatus _ (setConnectionError _ ?s1)) =>
        destruct s1; unfold steady in *; cbn in *
    end.
    repeat split; auto.
    intros H. injection H as H. exact (parseError_not_lost _ H).
  - cbn [fst]. destruct s; unfold steady in *; cbn in *.
    repeat split; auto.
    intros H. injection H as H. exact (parseError_not_lost _ H).
Qed.

Lemma sendMessage_steady (sent : Result unit) (s : State) :
  steady s -> steady (fst (sendMessage sent s)).
Proof.
  intros Hs. unfold sendMessage.
  destruct (clientRef s) as [client|]; [|exact Hs].
  destruct (negb (truthy (trim (inputText s))) || negb (isConnected (status s)));
    [exact Hs|].
  destruct (sendText sent (trim (inputText s)) client) as [[r client'] evs].
  match goal with
  | |- context [fold_left _ evs ?s0] =>
      assert (H0 : steady (Component.deliver evs s0))
  end.
  { apply deliver_steady. destruct s; unfold steady in *; cbn in *. exact Hs. }
  unfold Component.deliver in H0.
  destruct r as [u | err]; cbn [fst];
    destruct H0 as (H1 & H2 & H3);
    match goal with
    | |- steady (_ _ ?s1) => destruct s1; unfold steady in *; cbn in *
    end; repeat split; auto.
  intros H. injection H as H. exact (parseError_not_lost _ H).
Qed.

Lemma disconnect_steady (closed1 closed2 : Result unit) (c : Component.Component) :
  steady (Component.ui c) ->
  steady (Component.ui (fst (Component.disconnect closed1 closed2 c))).
Proof.
  intros Hs. unfold Component.disconnect.
  destruct (clientRef (Component.ui c)) as [client|].
  - destruct (Gemini.disconnect closed1 closed2 client) as [[r client'] evs].
    destruct r as [u | t]; cbn [fst Component.ui].
    + pose proof (deliver_steady evs _ Hs) as (H1 & H2 & H3).
      destruct (Component.deliver evs (Component.ui c));
        unfold steady in *; cbn in *.
      repeat split; auto. discriminate.
    + apply deliver_steady.
      destruct (Component.ui c); unfold steady in *; cbn in *. exact Hs.
  - cbn [fst Component.ui].
    destruct (Component.ui c); unfold steady in *; cbn in *.
    destruct Hs as (H1 & H2 & H3). repeat split; auto. discriminate.
Qed.

Lemma toggleRecording_steady
      (started : Result Component.MediaStream) (stopped : Result unit)
      (c : Component.Component) :
  steady (Component.ui c) ->
  steady (Component.ui (fst (Component.toggleRecording started stopped c))).
Proof.
  intros Hs. unfold Component.toggleRecording.
  destruct (clientRef (Component.ui c)); [|exact Hs].
  destruct (negb (isConnected (status (Component.ui c)))); [exact Hs|].
  destruct (isRecording (Component.ui c)), started, stopped;
    cbn [fst Component.ui]; try exact Hs;
    destruct (Component.ui c); unfold steady in *; cbn in *;
    destruct Hs as (H1 & H2 & H3); repeat split; auto; discriminate.
Qed.

Lemma onCallback_steady (cb : Component.Callback) (c : Component.Component) :
  steady (Component.ui c) ->
  steady (Component.ui (fst (Component.onCallback cb c))).
Proof.
  intros Hs. unfold Component.onCallback.
  destruct (clientRef (Component.ui c)) as [client|]; [|exact Hs].
  destruct (Component.callback cb client) as [[r client'] evs].
  cbn [fst Component.ui]. apply deliver_steady.
  destruct (Component.ui c); unfold steady in *; cbn in *. exact Hs.
Qed.

Lemma step_steady (st : Component.Step) (c : Component.Component) :
  steady (Component.ui c) ->
  steady (Component.ui (fst (Component.step st c))).
Proof.
  intros Hs. destruct st as [h a | cb | e]; cbn [Component.step].
  - destruct a; cbn [Component.perform].
    + unfold Component.connectButton.
      rewrite (proj1 Hs). cbn [Nat.ltb Nat.leb].
      destruct (status (Component.ui c)) eqn:Hst; try exact Hs;
        (destruct (match connectionError (Component.ui c) with
                   | Some e => negb (recoverable e)
                   | None => false
                   end); [exact Hs|]);
        cbv beta iota; unfold Component.withUi; cbn [fst Component.ui];
        apply connect_steady; try exact Hs; congruence.
    + destruct (Component.disconnectButton (Component.ui c)); [|exact Hs].
      apply disconnect_steady, Hs.
    + destruct (isConnected (status (Component.ui c))); [|exact Hs].
      apply toggleRecording_steady, Hs.
    + destruct (isConnected (status (Component.ui c))); [|exact Hs].
      cbn [fst Component.ui].
      destruct (Component.ui c); unfold steady in *; cbn in *. exact Hs.
    + unfold Component.withUi; cbn [fst Component.ui].
      apply sendMessage_steady, Hs.
    + destruct (connectionError (Component.ui c)) eqn:E; [|exact Hs].
      cbn [fst Component.ui].
      destruct (Component.ui c); unfold steady in *; cbn in *.
      destruct Hs as (H1 & H2 & H3). repeat split; auto. discriminate.
  - apply onCallback_steady, Hs.
  - cbn [fst Component.ui]. apply handler_steady, Hs.
Qed.

Lemma run_steady (sts : list Component.Step) :
  forall c, steady (Component.ui c) ->
            steady (Component.ui (fst (Component.run sts c))).
Proof.
  induction sts as [|st sts IH]; intros c Hs; [exact Hs|].
  cbn [Component.run].
  pose proof (step_steady st c Hs) as H1.
  destruct (Component.step st c) as [c1 calls1]. cbn [fst] in H1.
  pose proof (IH c1 H1) as H2.
  destruct (Component.run sts c1) as [c2 calls2]. exact H2.
Qed.

(** X10: in every state that the component reaches from its initial state,
    by any actions of the user on the controls that are rendered, any
    callbacks of its client and any calls from clients it has dropped,
    whatever the host answers: the retry count is zero, so that the Connect
    button is never bound to [retry] and never shows a count; and the error
    shown is never "Connection Lost", the handlers of [connect] having closed
    over a status that is never 'connected'. *)
Theorem component_steady (sts : list Component.Step) :
  steady (Component.ui (fst (Component.run sts Component.initial)))
  /\ Component.connectButton
       (Component.ui (fst (Component.run sts Component.initial)))
     <> Some Component.DoRetry
  /\ Component.connectLabel
       (Component.ui (fst (Component.run sts Component.initial)))
     = None.
Proof.
  assert (H : steady (Component.ui (fst (Component.run sts Component.initial)))).
  { apply run_steady. unfold steady. cbn. repeat split; discriminate. }
  split; [exact H|].
  destruct H as (Hrc & _ & _).
  unfold Component.connectButton, Component.connectLabel. rewrite Hrc.
  cbn [Nat.ltb Nat.leb]. split; [|reflexivity].
  destruct (status _); try discriminate;
    destruct (match connectionError _ with
              | Some e => negb (recoverable e)
              | None => false
              end); discriminate.
Qed.

End ComponentInvariant.

(* ================================================================== *)
(** * Frames of text, as the component shows them *)

Section FramesShown.

Lemma decodeAll_app (l1 l2 : list jsstring) (chunks : list ArrayBuffer) :
  decodeAll (l1 ++ l2) = Some chunks ->
  exists ch1 ch2,
    decodeAll l1 = Some ch1 /\ decodeAll l2 = Some ch2 /\ chunks = ch1 ++ ch2.
Proof.
  revert chunks; induction l1 as [|d l1 IH]; intros chunks H.
  - exists [], chunks. auto.
  - cbn [app decodeAll] in *.
    destruct (Base64.base64ToArrayBuffer d) as [b|]; [|discriminate].
    destruct (decodeAll (l1 ++ l2)) as [bs|] eqn:E; [|discriminate].
    injection H as <-.
    destruct (IH bs eq_refl) as (ch1 & ch2 & -> & H2 & ->).
    exists (b :: ch1), ch2. auto.
Qed.

Lemma deliver_assistantMessages (ts : list jsstring) :
  forall (k : nat) (s : State),
    shown (messages (Component.deliver (assistantMessages k ts) s))
    = shown (messages s) ++ map (fun t => (assistant, t)) ts
    /\ status (Component.deliver (assistantMessages k ts) s) = status s
    /\ connectionError (Component.deliver (assistantMessages k ts) s)
       = connectionError s
    /\ clientRef (Component.deliver (assistantMessages k ts) s) = clientRef s.
Proof.
  induction ts as [|t ts IH]; intros k s.
  - cbn. rewrite app_nil_r. auto.
  - cbn [assistantMessages Component.deliver fold_left].
    destruct (IH (S k) (handler
                          (OnMessage {| id := k; role := assistant; content := t;
                                        timestamp := k |}) s))
      as (H1 & H2 & H3 & H4).
    unfold Component.deliver in *. rewrite H1, H2, H3, H4.
    destruct s; cbn. unfold shown. rewrite map_app, <- app_assoc.
    auto.
Qed.

Lemma onmessage_parts (ps : list Part) (client : GeminiLiveClient)
      (chunks : list ArrayBuffer) :
  decodeAll (choose audioPayload ps) = Some chunks ->
  Component.callback (Component.CbMessage (partsFrame ps)) client
  = (Ok tt, after client (count client (choose spokenText ps)) chunks,
     emitted client (choose spokenText ps)).
Proof.
  intros H. cbn [Component.callback]. unfold onmessage, handleMessage, partsFrame.
  cbn [setupComplete serverContent interrupted turnComplete truthyBool
       modelTurn parts].
  exact (forEach_handlePart ps client chunks H).
Qed.

(** X11: frames that carry parts of a model turn, received one after the
    other by a component whose client has the [onMessage] handler, their
    audio payloads being valid base64.  Every part with a text that is not
    empty becomes one assistant message of its own, and these are appended to
    the list of the component in the order of the frames and, within a frame,
    of the parts: fragments are not merged and earlier messages are kept.
    Meanwhile the audio chunks are queued in that same order, and the status
    and the error shown do not change. *)
Theorem frames_shown_in_order (pss : list (list Part)) :
  forall (c : Component.Component) (client : GeminiLiveClient)
         (chunks : list ArrayBuffer),
    clientRef (Component.ui c) = Some client ->
    onMessage client = true ->
    decodeAll (choose audioPayload (List.concat pss)) = Some chunks ->
    exists client',
      shown (messages (Component.ui (fst (Component.run (receive pss) c))))
      = shown (messages (Component.ui c))
        ++ map (fun t => (assistant, t)) (choose spokenText (List.concat pss))
      /\ clientRef (Component.ui (fst (Component.run (receive pss) c)))
         = Some client'
      /\ audioQueue client' = audioQueue client ++ chunks
      /\ onMessage client' = true
      /\ status (Component.ui (fst (Component.run (receive pss) c)))
         = status (Component.ui c)
      /\ connectionError (Component.ui (fst (Component.run (receive pss) c)))
         = connectionError (Component.ui c).
Proof.
  induction pss as [|ps pss IH]; intros c client chunks Hc Hm Hdec.
  - cbn in Hdec. injection Hdec as <-.
    exists client. cbn. rewrite !app_nil_r. repeat split; auto.
  - cbn [List.concat] in Hdec. rewrite choose_app in Hdec.
    apply decodeAll_app in Hdec as (ch1 & ch2 & H1 & H2 & ->).
    cbn [receive map Component.run Component.step].
    unfold Component.onCallback. rewrite Hc.
    rewrite (onmessage_parts ps client ch1 H1).
    unfold emitted. rewrite Hm.
    set (client1 := after client (count client (choose spokenText ps)) ch1).
    set (c1 := {| Component.ui :=
                    Component.deliver
                      (assistantMessages (drawn client) (choose spokenText ps))
                      (setClientRef (Some client1) (Component.ui c));
                  Component.audioStreamRef := Component.audioStreamRef c |}).
    destruct (deliver_assistantMessages
                (choose spokenText ps) (drawn client)
                (setClientRef (Some client1) (Component.ui c)))
      as (Hshown & Hst & Hce & Hcr).
    assert (Hc1 : clientRef (Component.ui c1) = Some client1).
    { cbn [c1 Component.ui]. rewrite Hcr. destruct (Component.ui c); reflexivity. }
    assert (Hm1 : onMessage client1 = true)
      by (subst client1; destruct client; exact Hm).
    destruct (IH c1 client1 ch2 Hc1 Hm1 H2)
      as (client' & Ha & Hb & Hq & Hm' & Hs' & He').
    fold (receive pss).
    destruct (Component.run (receive pss) c1) as [c2 calls2] eqn:Erun.
    cbn [fst] in *.
    exists client'.
    split.
    { rewrite Ha. cbn [c1 Component.ui]. rewrite Hshown.
      cbn [List.concat]. rewrite choose_app, map_app, app_assoc.
      destruct (Component.ui c); reflexivity. }
    split; [exact Hb|].
    split.
    { rewrite Hq. subst client1. destruct client; cbn.
      now rewrite app_assoc. }
    split; [exact Hm'|].
    split.
    { rewrite Hs'. cbn [c1 Component.ui]. rewrite Hst.
      destruct (Component.ui c); reflexivity. }
    rewrite He'. cbn [c1 Component.ui]. rewrite Hce.
    destruct (Component.ui c); reflexivity.
Qed.

(** Three frames of one text part each: three assistant messages. *)
Lemma frames_shown_in_order_witness :
  exists client',
    shown (messages
             (Component.ui
                (fst (Component.run
                        (receive [ [ {| text := Some (lit "Hel"); inlineData := None |} ];
                                   [ {| text := Some (lit "lo, "); inlineData := None |} ];
                                   [ {| text := Some (lit "world"); inlineData := None |} ] ])
                        {| Component.ui :=
                             setStatus StatusConnected
                               (setClientRef (Some liveClient) initialState);
                           Component.audioStreamRef := None |}))))
    = [ (assistant, lit "Hel"); (assistant, lit "lo, "); (assistant, lit "world") ]
    /\ audioQueue client' = [].
Proof.
  destruct (frames_shown_in_order
              [ [ {| text := Some (lit "Hel"); inlineData := None |} ];
                [ {| text := Some (lit "lo, "); inlineData := None |} ];
                [ {| text := Some (lit "world"); inlineData := None |} ] ]
              {| Component.ui :=
                   setStatus StatusConnected
                     (setClientRef (Some liveClient) initialState);
                 Component.audioStreamRef := None |}
              liveClient [] eq_refl eq_refl eq_refl)
    as (client' & Ha & _ & Hq & _).
  exists client'. split; [exact Ha | exact Hq].
Defined.

End FramesShown.

(* ================================================================== *)
(** * More on the playback queue *)

Section PlaybackMore.

Lemma drainLoop_refused (l : nat) (q : list ArrayBuffer) :
  forall c : GeminiLiveClient,
    audioQueue c = q ->
    forallb (fun a => negb (canPlay (audioContext c) a)) q = true ->
    drainLoop l q c
    = (Ok tt, set_isPlaying false (set_audioQueue [] c), map (PlayError l) q).
Proof.
  induction q as [|a q IH]; intros c Hq Hall.
  - destruct c; cbn in *. subst. reflexivity.
  - rewrite drainLoop_cons. cbn [forallb] in Hall.
    apply andb_true_iff in Hall as [Ha Hall].
    apply negb_true_iff in Ha. rewrite Ha.
    rewrite (IH (set_audioQueue q c)).
    + destruct c; reflexivity.
    + destruct c; reflexivity.
    + destruct c; exact Hall.
Qed.

Lemma drainLoop_skips (l : nat) (refused : list ArrayBuffer) (a : ArrayBuffer)
      (rest : list ArrayBuffer) :
  forall c : GeminiLiveClient,
    forallb (fun b => negb (canPlay (audioContext c) b)) refused = true ->
    canPlay (audioContext c) a = true ->
    drainLoop l (refused ++ a :: rest) c
    = (Ok tt, set_drains (l :: drains c) (set_audioQueue rest c),
       map (PlayError l) refused ++ [SourceStart l a]).
Proof.
  induction refused as [|b refused IH]; intros c Hall Ha.
  - cbn [app map]. rewrite drainLoop_cons, Ha. reflexivity.
  - cbn [app map]. rewrite drainLoop_cons. cbn [forallb] in Hall.
    apply andb_true_iff in Hall as [Hb Hall].
    apply negb_true_iff in Hb. rewrite Hb.
    rewrite (IH (set_audioQueue (refused ++ a :: rest) c)).
    + destruct c; reflexivity.
    + destruct c; exact Hall.
    + destruct c; exact Ha.
Qed.

(** X12: [playQueuedAudio] on a client that is not playing, with an audio
    context and a queue that is not empty.  The chunks that the device refuses
    at the head of the queue are taken off and skipped, each through the
    [catch]; the first chunk that it accepts is handed to it and the call
    waits on it with [isPlaying] true, the rest of the queue untouched.  When
    the device refuses every chunk, the call ends at once with the queue empty
    and [isPlaying] false: the flag does not stay set. *)
Theorem playQueuedAudio_skips_refused
        (c : GeminiLiveClient) (ctx : AudioContext)
        (refused : list ArrayBuffer) :
  isPlaying c = false ->
  audioContext c = Some ctx ->
  forallb (fun b => negb (canPlay (Some ctx) b)) refused = true ->
  (forall a rest,
      audioQueue c = refused ++ a :: rest ->
      canPlay (Some ctx) a = true ->
      playQueuedAudio c
      = (Ok tt,
         set_drains (begun c :: drains c)
           (set_audioQueue rest (set_begun (S (begun c)) (set_isPlaying true c))),
         map (PlayError (begun c)) refused ++ [SourceStart (begun c) a]))
  /\ (audioQueue c = refused -> refused <> [] ->
      playQueuedAudio c
      = (Ok tt,
         set_isPlaying false
           (set_audioQueue [] (set_begun (S (begun c)) (set_isPlaying true c))),
         map (PlayError (begun c)) refused)).
Proof.
  intros Hp Hctx Hall.
  split.
  - intros a rest Hq Ha.
    rewrite playQueuedAudio_eq, Hp, Hctx, Hq.
    replace (N.of_nat (List.length (refused ++ a :: rest)) =? 0) with false
      by (rewrite length_app; cbn; symmetry; apply N.eqb_neq; lia).
    cbn [orb].
    rewrite drainLoop_skips.
    + destruct c; reflexivity.
    + destruct c; cbn in *. subst. exact Hall.
    + destruct c; cbn in *. subst. exact Ha.
  - intros Hq Hne.
    rewrite playQueuedAudio_eq, Hp, Hctx, Hq.
    replace (N.of_nat (List.length refused) =? 0) with false
      by (destruct refused; [congruence | reflexivity]).
    cbn [orb].
    rewrite drainLoop_refused.
    + destruct c; reflexivity.
    + destruct c; cbn in *. subst. reflexivity.
    + destruct c; cbn in *. subst. exact Hall.
Qed.

Lemma playQueuedAudio_skips_refused_witness :
  playQueuedAudio
    (set_audioQueue [[1; 2; 3]; []; [4; 5]; [6; 7]]
       (set_audioContext (Some {| sampleRate := 24000 |}) newClient))
  = (Ok tt,
     set_drains [0%nat]
       (set_audioQueue [[6; 7]]
          (set_begun 1%nat
             (set_isPlaying true
                (set_audioQueue [[1; 2; 3]; []; [4; 5]; [6; 7]]
                   (set_audioContext (Some {| sampleRate := 24000 |})
                                     newClient))))),
     [PlayError 0 [1; 2; 3]; PlayError 0 []; SourceStart 0 [4; 5]]).
Proof.
  destruct (playQueuedAudio_skips_refused
              (set_audioQueue [[1; 2; 3]; []; [4; 5]; [6; 7]]
                 (set_audioContext (Some {| sampleRate := 24000 |}) newClient))
              {| sampleRate := 24000 |} [[1; 2; 3]; []]
              eq_refl eq_refl eq_refl) as [H _].
  exact (H [4; 5] [[6; 7]] eq_refl eq_refl).
Defined.

(** X13: [disconnect] while a drain loop waits on a chunk.  The loop is not
    ended by [disconnect]: it stays suspended, with [isPlaying] already
    false.  When its chunk comes to its end the loop finds the queue empty and
    exits without handing anything to the device: the chunks that were queued
    when [disconnect] was called are never played. *)
Theorem disconnect_during_drain
        (closed1 closed2 : Result unit) (c : GeminiLiveClient) (l : nat) :
  drains c = [l] ->
  exists c1 evs1 c2,
    disconnect closed1 closed2 c = (Ok tt, c1, evs1)
    /\ consumed evs1 = []
    /\ drains c1 = [l]
    /\ isPlaying c1 = false
    /\ onended l c1 = (Ok tt, c2, [])
    /\ drains c2 = []
    /\ isPlaying c2 = false
    /\ audioQueue c2 = [].
Proof.
  intros Hd.
  destruct c as [cl se ac q pl om oe os dr bg dw]. cbn [drains] in Hd. subst dr.
  unfold disconnect, closeCall, tryCatch, callOnStatusChange, bind, this,
    modify, emit, ret, throw.
  destruct se, ac, os, closed1, closed2;
    (do 3 eexists; split; [reflexivity|]);
    (split; [reflexivity|]); (split; [reflexivity|]); (split; [reflexivity|]);
    rewrite onended_eq; cbn; rewrite Nat.eqb_refl; cbn;
    (split; [reflexivity|]); repeat split.
Qed.

Lemma disconnect_during_drain_witness :
  exists c1 evs1 c2,
    disconnect (Ok tt) (Ok tt)
               (set_drains [0%nat]
                  (set_isPlaying true
                     (set_audioQueue [[1; 2]; [3; 4]] liveClient)))
    = (Ok tt, c1, evs1)
    /\ onended 0 c1 = (Ok tt, c2, [])
    /\ audioQueue c2 = [].
Proof.
  destruct (disconnect_during_drain
              (Ok tt) (Ok tt)
              (set_drains [0%nat]
                 (set_isPlaying true
                    (set_audioQueue [[1; 2]; [3; 4]] liveClient)))
              0%nat eq_refl)
    as (c1 & evs1 & c2 & E & _ & _ & _ & E2 & _ & _ & Hq).
  exists c1, evs1, c2. repeat split; assumption.
Defined.

Lemma liveCallback_silent (cb : LiveCallback) (c : GeminiLiveClient) :
  silent cb = true -> exists evs, liveCallback cb c = (Ok tt, c, evs).
Proof.
  destruct c as [cl se ac q pl om oe os dr bg dw].
  destruct cb as [|message|errorMessage|event]; [|discriminate| |]; intros _;
    unfold liveCallback, onopen, onerror, onclose, callOnError,
      callOnStatusChange, bind, this, emit, ret;
    cbn [onError onStatusChange];
    [ destruct os | destruct oe | destruct oe, os, (negb (code event =? 1000)) ];
    eexists; reflexivity.
Qed.

(** The callbacks other than [onmessage] leave the client as it is. *)
Lemma meanwhile_silent (during : list LiveCallback) (c : GeminiLiveClient) :
  forallb silent during = true ->
  exists evs, meanwhile (map SdkCalls during) c = (Ok tt, c, evs).
Proof.
  induction during as [|cb during IH]; intros H.
  - now exists [].
  - cbn [forallb] in H. apply andb_true_iff in H as [Hcb Hrest].
    destruct (liveCallback_silent cb c Hcb) as [ev1 E1].
    destruct (IH Hrest) as [ev2 E2].
    exists (ev1 ++ ev2).
    cbn [map]. unfold meanwhile in *. cbn [forEach].
    unfold bind at 1. unfold apart at 1.
    rewrite E1. cbv beta iota. now rewrite E2.
Qed.

(** X14: the guard of [playQueuedAudio] is the flag [isPlaying], which
    [disconnect] resets while a loop may still be suspended.  If the same
    client is then connected again (the SDK calling [onopen], or any callbacks
    but [onmessage], meanwhile), a chunk is queued and [playQueuedAudio] is
    called, a second loop begins beside the first: two calls are suspended at
    once, and when the chunk of the first comes to its end, the first loop
    takes the next chunk of the new queue while the second is still playing. *)
Theorem second_loop_after_reconnect
        (closed1 closed2 : Result unit) (during : list LiveCallback)
        (sess : Session) (key : jsstring)
        (a b : ArrayBuffer) (c : GeminiLiveClient) (l : nat) :
  drains c = [l] ->
  (l < begun c)%nat ->
  canPlay (Some {| sampleRate := 24000 |}) a = true ->
  canPlay (Some {| sampleRate := 24000 |}) b = true ->
  forallb silent during = true ->
  exists c' evs,
    (disconnect closed1 closed2 ;;
     Gemini.connect (map SdkCalls during) (Ok sess) key ;;
     queueAudio a ;; playQueuedAudio ;; queueAudio b ;; onended l) c
    = (Ok tt, c', evs)
    /\ drains c' = [l; begun c]
    /\ isPlaying c' = true
    /\ audioQueue c' = []
    /\ exists before,
        evs = before ++ [SourceStart (begun c) a; SourceStart l b].
Proof.
  intros Hd Hlt Ha Hb Hsilent.
  destruct c as [cl se ac q pl om oe os dr bg dw]. cbn [drains begun] in *.
  subst dr.
  assert (Hne : Nat.eqb l bg = false) by (apply Nat.eqb_neq; lia).
  unfold bind at 1. rewrite disconnect_eq.
  cbn [set_isPlaying set_audioQueue set_audioContext set_session client session
       audioContext audioQueue isPlaying onMessage onError onStatusChange
       drains begun drawn].
  unfold bind at 1.
  match goal with
  | |- context [Gemini.connect _ _ _ ?c0] =>
      destruct (meanwhile_silent during
                  (set_audioContext (Some {| sampleRate := 24000 |})
                                    (set_client (Some key) c0)) Hsilent)
        as [evd E];
      rewrite (connect_unfold _ (Ok sess) key c0 _ evd E eq_refl eq_refl)
  end.
  unfold queueAudio, playQueuedAudio, onended, bind, this, modify, emit, ret.
  cbn -[canPlay Nat.eqb]. rewrite Ha.
  cbn -[canPlay Nat.eqb]. rewrite Hne, Nat.eqb_refl.
  cbn -[canPlay Nat.eqb]. rewrite Hb.
  cbn -[canPlay Nat.eqb].
  do 2 eexists. split; [reflexivity|].
  cbn -[canPlay Nat.eqb]. repeat split.
  eexists. rewrite app_assoc. reflexivity.
Qed.

Lemma second_loop_after_reconnect_witness :
  exists c' evs,
    (disconnect (Ok tt) (Ok tt) ;;
     Gemini.connect (map SdkCalls [Onopen]) (Ok 1%nat) (lit "key") ;;
     queueAudio [5; 6] ;; playQueuedAudio ;; queueAudio [7; 8] ;; onended 0)
      (set_begun 1%nat
         (set_drains [0%nat]
            (set_isPlaying true (set_audioQueue [[3; 4]] liveClient))))
    = (Ok tt, c', evs)
    /\ drains c' = [0%nat; 1%nat]
    /\ isPlaying c' = true.
Proof.
  destruct (second_loop_after_reconnect
              (Ok tt) (Ok tt) [Onopen] 1%nat (lit "key") [5; 6] [7; 8]
              (set_begun 1%nat
                 (set_drains [0%nat]
                    (set_isPlaying true (set_audioQueue [[3; 4]] liveClient))))
              0%nat eq_refl)
    as (c' & evs & E & Hd & Hp & _).
  - cbn. lia.
  - reflexivity.
  - reflexivity.
  - reflexivity.
  - exists c', evs. repeat split; assumption.
Defined.

End PlaybackMore.

(* ================================================================== *)
(** * The audio-streaming revision: what the microphone sends *)

Section MicrophoneFacts.





(** X16: [disconnect] of the audio-streaming revision.  When it returns, the
    recorder is stopped and released, the session and the audio context are
    null, and from then on no captured chunk is sent; the queue and
    [isPlaying] are left as they were.  When [session.close()] throws,
    [disconnect] throws with it: the session stays set, the audio context is
    not closed and 'disconnected' is not reported. *)
Theorem audio_disconnect_silences
        (closed1 closed2 : Result unit) (c : GeminiAudio.AudioClient) :
  (forall c1 calls,
      GeminiAudio.disconnect closed1 closed2 c = (Ok tt, c1, calls) ->
      session (GeminiAudio.base c1) = None
      /\ audioContext (GeminiAudio.base c1) = None
      /\ GeminiAudio.mediaRecorder c1 = None
      /\ (forall stream,
             GeminiAudio.mediaRecorder c = Some stream ->
             In (GeminiAudio.RecorderStop stream) calls)
      /\ (forall sent chunk,
             GeminiAudio.ondataavailable sent chunk c1 = (Ok tt, c1, []))
      /\ audioQueue (GeminiAudio.base c1) = audioQueue (GeminiAudio.base c)
      /\ isPlaying (GeminiAudio.base c1) = isPlaying (GeminiAudio.base c))
  /\ (forall sess t,
         session (GeminiAudio.base c) = Some sess ->
         closed1 = Throw t ->
         exists c1 calls,
           GeminiAudio.disconnect closed1 closed2 c = (Throw t, c1, calls)
           /\ session (GeminiAudio.base c1) = Some sess
           /\ audioContext (GeminiAudio.base c1)
              = audioContext (GeminiAudio.base c)
           /\ ~ In (GeminiAudio.ClientCall AudioContextClose) calls
           /\ ~ In (GeminiAudio.ClientCall (OnStatusChange disconnected)) calls).
Proof.
  destruct c as [[cl se ac q pl om oe os dr bg dw] rec].
  unfold GeminiAudio.disconnect, GeminiAudio.stopAudioStream,
    GeminiAudio.ondataavailable.
  cbn [GeminiAudio.base GeminiAudio.mediaRecorder session audioContext
       audioQueue isPlaying onStatusChange].
  split.
  - intros c1 calls.
    destruct rec, se, ac, os, closed1, closed2; cbn; intros H;
      try discriminate H; injection H as <- <-; cbn;
      repeat split;
      try (intros stream Hs; try discriminate Hs; injection Hs as <-;
           left; reflexivity);
      try (intros sent chunk; now rewrite andb_false_r).
  - intros sess t -> ->.
    destruct rec; cbn; (do 2 eexists; split; [reflexivity|]); cbn;
      repeat split; intros H;
      repeat (destruct H as [H|H]; [discriminate H|]); exact H.
Qed.

Lemma audio_disconnect_silences_witness :
  session
    (GeminiAudio.base
       (snd (fst (GeminiAudio.disconnect
                    (Ok tt) (Ok tt)
                    {| GeminiAudio.base := liveClient;
                       GeminiAudio.mediaRecorder := Some 3%nat |}))))
  = None
  /\ In (GeminiAudio.RecorderStop 3%nat)
        (snd (GeminiAudio.disconnect
                (Ok tt) (Ok tt)
                {| GeminiAudio.base := liveClient;
                   GeminiAudio.mediaRecorder := Some 3%nat |})).
Proof.
  destruct (audio_disconnect_silences
              (Ok tt) (Ok tt)
              {| GeminiAudio.base := liveClient;
                 GeminiAudio.mediaRecorder := Some 3%nat |}) as [H _].
  destruct (H _ _ eq_refl) as (Hs & _ & _ & Hstop & _).
  split; [exact Hs | exact (Hstop 3%nat eq_refl)].
Defined.

End MicrophoneFacts.

(* ================================================================== *)
(** * The request/response revision: the history of the conversation *)

Section TextClientFacts.

Lemma choose_map (A B C : Type) (f : B -> option C) (g : A -> B) (l : list A) :
  choose f (map g l) = choose (fun x => f (g x)) l.
Proof.
  induction l as [|x l IH]; cbn; [reflexivity|].
  destruct (f (g x)); now rewrite IH.
Qed.

Lemma choose_ext (A B : Type) (f g : A -> option B) (l : list A) :
  (forall x, f x = g x) -> choose f l = choose g l.
Proof.
  intros H. induction l as [|x l IH]; cbn; [reflexivity|].
  rewrite H, IH. reflexivity.
Qed.

(** [sendText] on a connected client, up to its [await]. *)
Lemma text_sendText_connected
      (t : jsstring) (c : GeminiText.TextClient) (key : jsstring) :
  GeminiText.client c = Some key ->
  GeminiText.isConnected c = true ->
  exists c1 calls1,
    GeminiText.sendText t c = (Ok tt, c1, calls1)
    /\ GeminiText.chatHistory c1 = GeminiText.chatHistory c ++ [turnOfUser t]
    /\ requests calls1 = [GeminiText.chatHistory c ++ [turnOfUser t]]
    /\ (forall m, ~ In (GeminiText.OnError m) calls1)
    /\ GeminiText.client c1 = Some key
    /\ GeminiText.isConnected c1 = true
    /\ GeminiText.onMessage c1 = GeminiText.onMessage c
    /\ GeminiText.onError c1 = GeminiText.onError c
    /\ GeminiText.awaiting c1 = S (GeminiText.awaiting c).
Proof.
  intros Hc Hi.
  destruct c as [cl hist ic om oe os dw aw].
  cbn [GeminiText.client GeminiText.isConnected] in Hc, Hi. subst cl ic.
  unfold GeminiText.sendText, GeminiText.callOnMessage, GeminiText.pushTurn,
    GeminiText.set_awaiting, requests.
  destruct om; cbn; (do 2 eexists; split; [reflexivity|]); cbn;
    repeat split;
    intros m H; repeat (destruct H as [H|H]; [discriminate H|]); exact H.
Qed.

(** [sendText] from its [await] on, whatever became of the client since the
    call. *)
Lemma text_sendText_resumed
      (generated : Result (option jsstring)) (c : GeminiText.TextClient)
      (n : nat) :
  GeminiText.awaiting c = S n ->
  exists c' calls,
    GeminiText.sendTextResumed generated c = (c', calls)
    /\ GeminiText.chatHistory c'
       = GeminiText.chatHistory c ++ turns (Hear generated)
    /\ requests calls = []
    /\ GeminiText.client c' = GeminiText.client c
    /\ GeminiText.isConnected c' = GeminiText.isConnected c
    /\ GeminiText.awaiting c' = n.
Proof.
  intros Ha.
  destruct c as [cl hist ic om oe os dw aw].
  cbn [GeminiText.awaiting] in Ha. subst aw.
  unfold GeminiText.sendTextResumed, GeminiText.callOnMessage,
    GeminiText.callOnError, GeminiText.pushTurn, GeminiText.set_awaiting,
    requests, turns.
  destruct generated as [response | err], om, oe; cbn;
    (do 2 eexists; split; [reflexivity|]); cbn;
    rewrite ?app_nil_r; repeat split.
Qed.

(** X17: [sendText] of this revision on a connected client.  The call does
    not throw.  Up to its [await], it appends the user's turn to the history
    and sends it to [generateContent] after all the turns that the history
    held, in one request.  From its [await] on, on the client as it is by then
    (the call alone or not): when the request succeeded the model's turn is
    appended to the history, with the text of the response or, when that is
    undefined or empty, an apology, so that it is never empty; when the
    request failed, nothing is appended, so that the user's turn stays
    without an answer, and the failure goes to [onError], not to the caller.
    No further request is made. *)
Theorem text_sendText_outcomes
        (generated : Result (option jsstring)) (t : jsstring)
        (c : GeminiText.TextClient) (key : jsstring) :
  GeminiText.client c = Some key ->
  GeminiText.isConnected c = true ->
  exists c1 calls1,
    GeminiText.sendText t c = (Ok tt, c1, calls1)
    /\ requests calls1 = [GeminiText.chatHistory c ++ [turnOfUser t]]
    /\ GeminiText.chatHistory c1 = GeminiText.chatHistory c ++ [turnOfUser t]
    /\ (forall m, ~ In (GeminiText.OnError m) calls1)
    /\ GeminiText.onError c1 = GeminiText.onError c
    /\ GeminiText.awaiting c1 <> 0%nat
    /\ forall c2 : GeminiText.TextClient,
        GeminiText.awaiting c2 <> 0%nat ->
        exists c3 calls3,
          GeminiText.sendTextResumed generated c2 = (c3, calls3)
          /\ requests calls3 = []
          /\ match generated with
             | Ok response =>
                 GeminiText.chatHistory c3
                 = GeminiText.chatHistory c2 ++ [turnOfModel (reply response)]
                 /\ reply response <> []
                 /\ (forall m, ~ In (GeminiText.OnError m) calls3)
             | Throw error =>
                 GeminiText.chatHistory c3 = GeminiText.chatHistory c2
                 /\ (GeminiText.onError c2 = true ->
                     In (GeminiText.OnError (GeminiText.sendErrorMessage error))
                        calls3)
             end.
Proof.
  intros Hc Hi.
  destruct (text_sendText_connected t c key Hc Hi)
    as (c1 & calls1 & E & Hh & Hr & Hne & _ & _ & _ & He & Ha).
  exists c1, calls1.
  split; [exact E|]. split; [exact Hr|]. split; [exact Hh|].
  split; [exact Hne|]. split; [exact He|].
  split; [rewrite Ha; discriminate|].
  intros c2 Ha2.
  destruct c2 as [cl hist ic om oe os dw [|aw]]; [now contradiction Ha2|].
  unfold GeminiText.sendTextResumed, GeminiText.callOnMessage,
    GeminiText.callOnError, GeminiText.pushTurn, GeminiText.set_awaiting,
    requests.
  destruct generated as [response | err]; cbn.
  - destruct om; cbn; (do 2 eexists; split; [reflexivity|]); cbn;
      (split; [reflexivity|]); (split; [reflexivity|]);
      (split; [destruct response as [[|x r]|]; discriminate|]);
      intros m H; repeat (destruct H as [H|H]; [discriminate H|]); exact H.
  - destruct oe; cbn; (do 2 eexists; split; [reflexivity|]); cbn;
      (split; [reflexivity|]); (split; [reflexivity|]);
      intros H; try discriminate H; auto.
Qed.

(** A call that runs alone, its request refused for the quota. *)
Lemma text_sendText_outcomes_witness :
  exists c1 calls1 c3 calls3,
    GeminiText.sendText
      (lit "hello")
      (GeminiText.mkTextClient (Some (lit "key")) [] true true true true 1 0)
    = (Ok tt, c1, calls1)
    /\ requests calls1 = [[turnOfUser (lit "hello")]]
    /\ GeminiText.sendTextResumed
         (Throw (ErrorObject (lit "429 quota exceeded"))) c1
       = (c3, calls3)
    /\ GeminiText.chatHistory c3 = [turnOfUser (lit "hello")]
    /\ In (GeminiText.OnError (lit "Rate limited - please wait a moment")) calls3.
Proof.
  destruct (text_sendText_outcomes
              (Throw (ErrorObject (lit "429 quota exceeded"))) (lit "hello")
              (GeminiText.mkTextClient (Some (lit "key")) [] true true true true 1 0)
              (lit "key") eq_refl eq_refl)
    as (c1 & calls1 & E & Hr & Hh & _ & Hoe & Ha & Hres).
  destruct (Hres c1 Ha) as (c3 & calls3 & E3 & _ & Hh3 & He3).
  exists c1, calls1, c3, calls3.
  split; [exact E|]. split; [exact Hr|]. split; [exact E3|].
  split; [now rewrite Hh3, Hh|].
  apply He3. now rewrite Hoe.
Defined.

(** X18: a conversation on a connected client: texts sent and answers
    arriving in any order, a text being sent before the one before it is
    answered or not, each request succeeding or failing.  The history ends as
    the history before followed by the turns in the order in which they came:
    the user's turn when a text is sent, the model's turn when an answer
    arrives for a request that succeeded, nothing for one that failed.  One
    request is made for each text sent, and it carries the history before,
    the turns that came since (those of calls not yet answered included) and
    then the user's new turn; an answer makes no request. *)
Theorem conversation_history
        (xs : list Talk) (c : GeminiText.TextClient) (key : jsstring) :
  GeminiText.client c = Some key ->
  GeminiText.isConnected c = true ->
  answered (GeminiText.awaiting c) xs = true ->
  GeminiText.chatHistory (fst (converse xs c))
  = GeminiText.chatHistory c ++ flat_map turns xs
  /\ requests (snd (converse xs c))
     = choose (requestAt (GeminiText.chatHistory c) xs)
              (seq 0 (List.length xs)).
Proof.
  revert c key.
  induction xs as [|x xs IH]; intros c key Hc Hi Ha.
  - cbn. rewrite app_nil_r. auto.
  - unfold converse in *. cbn [map GeminiText.run].
    assert (Hstep : exists c1 calls1,
               GeminiText.step (talk x) c = (c1, calls1)
               /\ GeminiText.chatHistory c1
                  = GeminiText.chatHistory c ++ turns x
               /\ requests calls1
                  = optList (requestAt (GeminiText.chatHistory c) (x :: xs) 0)
               /\ GeminiText.client c1 = Some key
               /\ GeminiText.isConnected c1 = true
               /\ answered (GeminiText.awaiting c1) xs = true).
    { destruct x as [t | g]; cbn [talk GeminiText.step answered] in *.
      - destruct (text_sendText_connected t c key Hc Hi)
          as (c1 & calls1 & E & Hh & Hr & _ & Hc1 & Hi1 & _ & _ & Ha1).
        rewrite E. exists c1, calls1.
        split; [reflexivity|]. split; [exact Hh|].
        split; [exact Hr|]. split; [exact Hc1|]. split; [exact Hi1|].
        now rewrite Ha1.
      - destruct (GeminiText.awaiting c) as [|n] eqn:Haw; [discriminate Ha|].
        destruct (text_sendText_resumed g c n Haw)
          as (c1 & calls1 & E & Hh & Hr & Hc1 & Hi1 & Ha1).
        rewrite E. exists c1, calls1.
        split; [reflexivity|]. split; [exact Hh|].
        split; [exact Hr|]. split; [congruence|]. split; [congruence|].
        now rewrite Ha1. }
    destruct Hstep as (c1 & calls1 & E & Hh & Hr & Hc1 & Hi1 & Ha1).
    rewrite E.
    destruct (IH c1 key Hc1 Hi1 Ha1) as [IHh IHr].
    destruct (GeminiText.run (map talk xs) c1) as [c2 calls2].
    cbn [fst snd] in *.
    split.
    + rewrite IHh, Hh. cbn [flat_map]. now rewrite app_assoc.
    + unfold requests in *. rewrite choose_app, Hr, IHr.
      cbn [List.length seq choose].
      rewrite <- seq_shift, choose_map.
      assert (Htail : forall k,
                 requestAt (GeminiText.chatHistory c) (x :: xs) (S k)
                 = requestAt (GeminiText.chatHistory c1) xs k).
      { intros k. unfold requestAt. cbn [nth_error firstn flat_map].
        rewrite Hh. destruct (nth_error xs k) as [[t'|g']|]; try reflexivity.
        now rewrite <- !app_assoc. }
      rewrite (choose_ext _ _ _ _ _ Htail).
      destruct (requestAt (GeminiText.chatHistory c) (x :: xs) 0); reflexivity.
Qed.

(** Two texts sent before the first answer arrives, then the two answers,
    the second a failure, then a third text. *)
Lemma conversation_history_witness :
  GeminiText.chatHistory
    (fst (converse
            [ Say (lit "a"); Say (lit "b"); Hear (Ok (Some (lit "A")));
              Hear (Throw (OtherValue (lit "x"))); Say (lit "c") ]
            (GeminiText.mkTextClient (Some (lit "key")) [] true true true true 1 0)))
  = [ turnOfUser (lit "a"); turnOfUser (lit "b"); turnOfModel (lit "A");
      turnOfUser (lit "c") ]
  /\ requests
       (snd (converse
               [ Say (lit "a"); Say (lit "b"); Hear (Ok (Some (lit "A")));
                 Hear (Throw (OtherValue (lit "x"))); Say (lit "c") ]
               (GeminiText.mkTextClient (Some (lit "key")) [] true true true true 1 0)))
     = [ [turnOfUser (lit "a")];
         [turnOfUser (lit "a"); turnOfUser (lit "b")];
         [turnOfUser (lit "a"); turnOfUser (lit "b"); turnOfModel (lit "A");
          turnOfUser (lit "c")] ].
Proof.
  destruct (conversation_history
              [ Say (lit "a"); Say (lit "b"); Hear (Ok (Some (lit "A")));
                Hear (Throw (OtherValue (lit "x"))); Say (lit "c") ]
              (GeminiText.mkTextClient (Some (lit "key")) [] true true true true 1 0)
              (lit "key") eq_refl eq_refl eq_refl) as [Hh Hr].
  rewrite Hh, Hr. split; reflexivity.
Defined.

(** The answers that arrive on a client, one after the other: those that
    find a call suspended leave their turn in the history, whether the client
    is connected or not. *)
Lemma text_late_answers (late : list (Result (option jsstring))) :
  forall c : GeminiText.TextClient,
    GeminiText.chatHistory
      (fst (GeminiText.run (map GeminiText.Settle late) c))
    = GeminiText.chatHistory c
      ++ flat_map turns (map Hear (firstn (GeminiText.awaiting c) late))
    /\ GeminiText.client (fst (GeminiText.run (map GeminiText.Settle late) c))
       = GeminiText.client c
    /\ GeminiText.isConnected
         (fst (GeminiText.run (map GeminiText.Settle late) c))
       = GeminiText.isConnected c.
Proof.
  induction late as [|g late IH]; intros c.
  - cbn. rewrite firstn_nil. cbn. now rewrite app_nil_r.
  - cbn [map GeminiText.run GeminiText.step].
    destruct (GeminiText.awaiting c) as [|n] eqn:Haw.
    + assert (E : GeminiText.sendTextResumed g c = (c, [])).
      { unfold GeminiText.sendTextResumed. now rewrite Haw. }
      rewrite E. specialize (IH c). rewrite Haw in IH.
      destruct (GeminiText.run (map GeminiText.Settle late) c) as [c2 calls2].
      cbn [fst firstn map flat_map] in *. exact IH.
    + destruct (text_sendText_resumed g c n Haw)
        as (c1 & calls1 & E & Hh & _ & Hc1 & Hi1 & Ha1).
      rewrite E. specialize (IH c1). rewrite Ha1 in IH.
      destruct (GeminiText.run (map GeminiText.Settle late) c1) as [c2 calls2].
      cbn [fst firstn map flat_map] in *.
      destruct IH as (IHh & IHc & IHi).
      split; [rewrite IHh, Hh; now rewrite <- app_assoc|].
      split; congruence.
Qed.

(** X19: [disconnect] and [connect] of this revision.  After [disconnect],
    [sendText] throws "Not connected to Gemini" and does nothing else.
    [disconnect] and [connect] empty the history, but neither ends a call
    that is suspended, and the answer to such a call is appended to the
    history as it is when the answer arrives.  So after [disconnect] and a
    [connect] that succeeds, the first request of the new conversation
    carries the user's new turn after the model's turns of the answers that
    arrived since [connect] for calls made before [disconnect]: no turn at
    all when no call was suspended.  An answer that arrives between
    [disconnect] and [connect] is lost with the history that [connect]
    replaces. *)
Theorem text_reconnect_forgets
        (t key : jsstring) (late : list (Result (option jsstring)))
        (c : GeminiText.TextClient) :
  GeminiText.sendText t (fst (GeminiText.disconnect c))
  = (Throw (ErrorObject (lit "Not connected to Gemini")),
     fst (GeminiText.disconnect c), [])
  /\ (exists c3 calls3,
         GeminiText.sendText t
           (fst (GeminiText.run
                   (GeminiText.Disconnect :: GeminiText.Connect (Ok tt) key
                    :: map GeminiText.Settle late) c))
         = (Ok tt, c3, calls3)
         /\ requests calls3
            = [flat_map turns (map Hear (firstn (GeminiText.awaiting c) late))
               ++ [turnOfUser t]])
  /\ (GeminiText.awaiting c = 0%nat ->
      flat_map turns (map Hear (firstn (GeminiText.awaiting c) late)) = [])
  /\ GeminiText.chatHistory
       (fst (GeminiText.run
               (GeminiText.Disconnect
                :: map GeminiText.Settle late
                ++ [GeminiText.Connect (Ok tt) key]) c))
     = [].
Proof.
  split; [destruct c; reflexivity|].
  split; [|split].
  - cbn [GeminiText.run GeminiText.step].
    destruct (GeminiText.disconnect c) as [c1 calls1] eqn:E1.
    destruct (GeminiText.connect (Ok tt) key c1) as [[r c2] calls2] eqn:E2.
    assert (H2 : GeminiText.chatHistory c2 = []
                 /\ GeminiText.client c2 = Some key
                 /\ GeminiText.isConnected c2 = true
                 /\ GeminiText.awaiting c2 = GeminiText.awaiting c).
    { destruct c as [cl hist ic om oe os dw aw].
      unfold GeminiText.disconnect in E1. injection E1 as <- _.
      unfold GeminiText.connect, GeminiText.callOnMessage in E2.
      cbn in E2. destruct om; injection E2 as _ <- _; repeat split. }
    destruct H2 as (Hh2 & Hc2 & Hi2 & Ha2).
    destruct (text_late_answers late c2) as (Hh & Hc & Hi).
    destruct (GeminiText.run (map GeminiText.Settle late) c2) as [c2' calls'].
    cbn [fst] in *.
    destruct (text_sendText_connected t c2' key)
      as (c3 & calls3 & E3 & _ & Hr & _); [congruence | congruence |].
    exists c3, calls3. split; [exact E3|].
    rewrite Hr, Hh, Hh2, Ha2. reflexivity.
  - intros ->. reflexivity.
  - cbn [GeminiText.run GeminiText.step].
    destruct (GeminiText.disconnect c) as [c1 calls1].
    assert (Hrun : forall ops c0,
               GeminiText.chatHistory
                 (fst (GeminiText.run
                         (ops ++ [GeminiText.Connect (Ok tt) key]) c0)) = []).
    { induction ops as [|op ops IH]; intros c0.
      - cbn [app GeminiText.run GeminiText.step].
        destruct c0 as [cl hist ic om oe os dw aw].
        unfold GeminiText.connect, GeminiText.callOnMessage. cbn.
        destruct om; reflexivity.
      - cbn [app GeminiText.run].
        destruct (GeminiText.step op c0) as [c0' calls0].
        specialize (IH c0').
        destruct (GeminiText.run _ c0') as [c0'' calls0']. exact IH. }
    specialize (Hrun (map GeminiText.Settle late) c1).
    destruct (GeminiText.run _ c1) as [c2 calls2]. exact Hrun.
Qed.

(** The answer to a call made before [disconnect], arriving in the new
    conversation. *)
Lemma text_reconnect_example :
  requests
    (snd (GeminiText.run
            [ GeminiText.Send (lit "old"); GeminiText.Disconnect;
              GeminiText.Connect (Ok tt) (lit "key");
              GeminiText.Settle (Ok (Some (lit "late answer")));
              GeminiText.Send (lit "new") ]
            (GeminiText.mkTextClient (Some (lit "key")) [] true false false false
                                     0 0)))
  = [ [turnOfUser (lit "old")];
      [turnOfModel (lit "late answer"); turnOfUser (lit "new")] ].
Proof. reflexivity. Qed.

End TextClientFacts.

(* ================================================================== *)
(** * A whole turn: from the frames to the audio device *)

Section TurnFacts.

Lemma frames_queued (pss : list (list Part)) :
  forall (c : GeminiLiveClient) (chunks : list ArrayBuffer),
    decodeAll (choose audioPayload (List.concat pss)) = Some chunks ->
    forEach (fun ps => handleMessage (partsFrame ps)) pss c
    = (Ok tt,
       after c (count c (choose spokenText (List.concat pss))) chunks,
       emitted c (choose spokenText (List.concat pss))).
Proof.
  induction pss as [|ps pss IH]; intros c chunks Hdec.
  - cbn in Hdec. injection Hdec as <-.
    destruct c as [cl se ac q pl om oe os dr bg dw].
    unfold after, count, emitted, set_drawn, set_audioQueue; cbn.
    destruct om; rewrite app_nil_r, Nat.add_0_r; reflexivity.
  - cbn [List.concat] in *. rewrite choose_app in Hdec.
    apply decodeAll_app in Hdec as (ch1 & ch2 & H1 & H2 & ->).
    cbn [forEach]. unfold bind at 1.
    pose proof (onmessage_parts ps c ch1 H1) as E1.
    cbn [Component.callback] in E1. unfold onmessage in E1. rewrite E1.
    rewrite (IH _ ch2 H2), after_after, choose_app.
    unfold count, emitted.
    replace (onMessage (after c (if onMessage c
                                 then List.length (choose spokenText ps)
                                 else 0%nat) ch1))
      with (onMessage c) by (destruct c; reflexivity).
    replace (drawn (after c (if onMessage c
                             then List.length (choose spokenText ps)
                             else 0%nat) ch1))
      with (drawn c + (if onMessage c
                       then List.length (choose spokenText ps)
                       else 0))%nat by (destruct c; reflexivity).
    destruct (onMessage c).
    + rewrite length_app, assistantMessages_app. reflexivity.
    + reflexivity.
Qed.

Lemma emitted_takes_nothing (c : GeminiLiveClient) (ts : list jsstring) :
  consumed (emitted c ts) = [] /\ started (emitted c ts) = [].
Proof.
  unfold emitted. destruct (onMessage c); [|split; reflexivity].
  generalize (drawn c). induction ts as [|t ts IH]; intros k.
  - split; reflexivity.
  - destruct (IH (S k)) as [H1 H2]. split; cbn; assumption.
Qed.

(** X20: a whole turn.  A client on which nothing is playing, with an audio
    context and an empty queue, receives the frames of a turn, whose audio
    payloads are valid base64, and then the frame that ends the turn; the
    device then signals the end of each chunk it was given.  Every audio chunk
    of the turn is taken off the queue, in the order of the frames and of
    their parts, by one loop; those that the device accepts are played in that
    order; and at the end nothing is playing and the queue is empty. *)
Theorem turn_audio_played
        (pss : list (list Part)) (c : GeminiLiveClient) (ctx : AudioContext)
        (chunks : list ArrayBuffer) :
  idle c ->
  audioQueue c = [] ->
  audioContext c = Some ctx ->
  decodeAll (choose audioPayload (List.concat pss)) = Some chunks ->
  exists c' evs,
    (turn pss ;; settle (begun c) (S (List.length chunks))) c = (Ok tt, c', evs)
    /\ consumed evs = chunks
    /\ started evs = filter (canPlay (Some ctx)) chunks
    /\ idle c'
    /\ audioQueue c' = [].
Proof.
  intros [Hp Hd] Hq Hctx Hdec.
  unfold turn, bind.
  rewrite (frames_queued pss c chunks Hdec).
  set (n := count c (choose spokenText (List.concat pss))).
  set (ems := emitted c (choose spokenText (List.concat pss))).
  destruct (emitted_takes_nothing c (choose spokenText (List.concat pss)))
    as [Hem1 Hem2]. fold ems in Hem1, Hem2.
  assert (Hq1 : audioQueue (after c n chunks) = chunks)
    by (destruct c; cbn in *; subst; reflexivity).
  assert (Hp1 : isPlaying (after c n chunks) = false)
    by (destruct c; exact Hp).
  assert (Hd1 : drains (after c n chunks) = [])
    by (destruct c; exact Hd).
  assert (Hctx1 : audioContext (after c n chunks) = Some ctx)
    by (destruct c; exact Hctx).
  assert (Hbg1 : begun (after c n chunks) = begun c)
    by (destruct c; reflexivity).
  change (handleMessage turnCompleteFrame (after c n chunks))
    with (playQueuedAudio (after c n chunks)).
  rewrite playQueuedAudio_eq, Hp1, Hq1, Hctx1, Hbg1.
  cbn [orb].
  destruct chunks as [|a chunks'].
  - cbn [List.length N.of_nat N.eqb orb]. cbv beta iota.
    rewrite (settle_idle (begun c) 1 _ Hd1).
    exists (after c n []), ((ems ++ []) ++ []).
    split; [reflexivity|].
    unfold consumed, started in *. rewrite !choose_app, Hem1, Hem2.
    repeat split; assumption.
  - replace (N.of_nat (List.length (a :: chunks')) =? 0) with false
      by reflexivity.
    destruct (drainLoop_spec (begun c) (a :: chunks')
                (set_begun (S (begun c))
                           (set_isPlaying true (after c n (a :: chunks')))))
      as (c2 & ev2 & E2 & Hf2 & Hby2 & Hctx2 & _ & Hst2).
    { destruct c; cbn in *; subst; reflexivity. }
    { destruct c; exact Hd. }
    rewrite E2. cbn [orb]. cbv beta iota.
    assert (Hctx0 : audioContext
                      (set_begun (S (begun c))
                         (set_isPlaying true (after c n (a :: chunks'))))
                    = Some ctx) by (destruct c; exact Hctx).
    rewrite Hctx0 in *.
    destruct Hst2 as [(Hp2 & Hd2 & Hlen2) | (Hp2 & Hd2 & Hq2)].
    + assert (Hpl : isPlaying c2 = true).
      { rewrite Hp2. destruct c; reflexivity. }
      destruct (settle_spec (begun c) (S (List.length (a :: chunks'))) c2
                            (conj Hpl Hd2))
        as (c3 & ev3 & E3 & Hf3 & Hby3 & Hidle3 & Hq3 & _ & _); [lia|].
      rewrite E3. exists c3, ((ems ++ ev2) ++ ev3).
      split; [reflexivity|]. rewrite <- app_assoc.
      rewrite Hctx2 in Hby3.
      assert (Hfair : Forall (fair (Some ctx)) (ev2 ++ ev3)).
      { apply Forall_app; split; eapply byLoop_fair; eassumption. }
      assert (Hcons : consumed (ev2 ++ ev3) = a :: chunks').
      { unfold consumed in *. now rewrite choose_app, Hf3. }
      split.
      { unfold consumed in *. now rewrite choose_app, Hem1. }
      split.
      { rewrite <- Hcons, <- (started_filter _ _ Hfair).
        unfold started in *. now rewrite choose_app, Hem2. }
      split; assumption.
    + rewrite (settle_idle (begun c) _ c2 Hd2).
      exists c2, ((ems ++ ev2) ++ []).
      split; [reflexivity|].
      rewrite app_nil_r. rewrite Hq2, app_nil_r in Hf2.
      split.
      { unfold consumed in *. now rewrite choose_app, Hem1. }
      split.
      { rewrite <- Hf2,
          <- (started_filter _ _ (byLoop_fair _ _ _ Hby2)).
        unfold started in *. now rewrite choose_app, Hem2. }
      split; [split; assumption | assumption].
Qed.

Lemma turn_audio_played_witness :
  exists c' evs,
    (turn [ [ {| text := Some (lit "Hi"); inlineData := None |};
              {| text := None;
                 inlineData := Some {| data := Some (lit "AAEC");
                                       mimeType := Some (lit "audio/pcm") |} |} ];
            [ {| text := None;
                 inlineData := Some {| data := Some (lit "AAECAw==");
                                       mimeType := Some (lit "audio/pcm") |} |} ] ]
     ;; settle 0 3) liveClient
    = (Ok tt, c', evs)
    /\ consumed evs = [[0; 1; 2]; [0; 1; 2; 3]]
    /\ started evs = [[0; 1; 2; 3]].
Proof.
  destruct (turn_audio_played
              [ [ {| text := Some (lit "Hi"); inlineData := None |};
                  {| text := None;
                     inlineData := Some {| data := Some (lit "AAEC");
                                           mimeType := Some (lit "audio/pcm") |} |} ];
                [ {| text := None;
                     inlineData := Some {| data := Some (lit "AAECAw==");
                                           mimeType := Some (lit "audio/pcm") |} |} ] ]
              liveClient {| sampleRate := 24000 |}
              [[0; 1; 2]; [0; 1; 2; 3]])
    as (c' & evs & E & Hc & Hs & _).
  - split; reflexivity.
  - reflexivity.
  - reflexivity.
  - reflexivity.
  - exists c', evs. split; [exact E|]. split; [exact Hc | exact Hs].
Defined.

End TurnFacts.
